(** * imap_move: the message transfer script and its session teardown

    A shallow embedding of [imap_move.py]: the module-level script from the
    registration of the exit hook onwards (connect, login, select, search,
    the fetch/append/store loop, the trash purge, [sys.exit]) and the
    [cleanup] routine, over

    - a model of the [imaplib.IMAP4] client object (its [state] attribute,
      the table of commands allowed per state, the way each method turns a
      tagged reply into a return value or an exception), and
    - a model of an IMAP4rev1 server (RFC 3501): named mailboxes holding
      messages with flags and an internal date, one selected mailbox per
      connection, and a schedule of faults that makes single commands fail.

    Python exceptions are values of [Exn]; the script runs in a state and
    exception monad over [World], which holds the module globals, the two
    servers and the wire trace. *)

From Stdlib Require Import ZArith Lia String Ascii List DecimalString DecimalN DecimalNat.
From stdpp Require Import base option list strings gmap.

Open Scope string_scope.
Open Scope list_scope.

(** ** Text helpers: what the script and [imaplib] do on [str] and [bytes] *)

Module Text.

(** ASCII whitespace, as [bytes.split()] without argument sees it. *)
Definition is_space (c : ascii) : bool :=
  existsb (Ascii.eqb c)
    [" "%char; "009"%char; "010"%char; "011"%char; "012"%char; "013"%char].

(** [s.split()]: the maximal runs of non-whitespace, in order. *)
Fixpoint split (s : string) : list string :=
  match s with
  | EmptyString => []
  | String c s' =>
    if is_space c then split s'
    else match s' with
         | EmptyString => [String c EmptyString]
         | String c' _ =>
           if is_space c' then String c EmptyString :: split s'
           else match split s' with
                | w :: ws => String c w :: ws
                | [] => [String c EmptyString]
                end
         end
  end.

(** [sep.join(l)] *)
Definition join (sep : string) (l : list string) : string := String.concat sep l.

(** [s.split(sep)] for a non-empty separator: pieces between the
    non-overlapping occurrences of [sep], scanning from the left. *)
Fixpoint strip_prefix (p s : string) : option string :=
  match p, s with
  | EmptyString, _ => Some s
  | String a p', String b s' => if Ascii.eqb a b then strip_prefix p' s' else None
  | String _ _, EmptyString => None
  end.

Fixpoint split_on_go (fuel : nat) (sep cur s : string) : list string :=
  match fuel with
  | O => [String.append cur s]
  | S fuel' =>
    match strip_prefix sep s with
    | Some rest => cur :: split_on_go fuel' sep EmptyString rest
    | None =>
      match s with
      | EmptyString => [cur]
      | String c s' => split_on_go fuel' sep (String.append cur (String c EmptyString)) s'
      end
    end
  end.

Definition split_on (sep s : string) : list string :=
  split_on_go (S (String.length s)) sep EmptyString s.

(** The string without its last character, and that character. *)
Fixpoint chop_last (s : string) : option (string * ascii) :=
  match s with
  | EmptyString => None
  | String c s' =>
    match chop_last s' with
    | None => Some (EmptyString, c)
    | Some (t, l) => Some (String c t, l)
    end
  end.

(** [(s[0], s[-1]) == (a, b)] on a non-empty string. *)
Definition ends_are (a b : ascii) (s : string) : bool :=
  match s, chop_last s with
  | String c _, Some (_, l) => Ascii.eqb c a && Ascii.eqb l b
  | _, _ => false
  end.

(** The text between a leading "(" and a trailing ")", when both are there. *)
Definition unparen (s : string) : option string :=
  match s with
  | String c s' =>
    if Ascii.eqb c "("%char then
      match chop_last s' with
      | Some (t, l) => if Ascii.eqb l ")"%char then Some t else None
      | None => None
      end
    else None
  | EmptyString => None
  end.

Definition to_upper (c : ascii) : ascii :=
  let n := N_of_ascii c in
  if ((97 <=? n) && (n <=? 122))%N then ascii_of_N (n - 32) else c.

(** [s.upper()] *)
Fixpoint upper (s : string) : string :=
  match s with
  | EmptyString => EmptyString
  | String c s' => String (to_upper c) (upper s')
  end.

Definition DQUOTE : ascii := "034"%char.

(** The string with a double quote on either side. *)
Definition quoted (s : string) : string :=
  String DQUOTE (String.append s (String DQUOTE EmptyString)).

(** The five characters: space, double quote, slash, double quote, space;
    the delimiter part of a LIST reply line for a server whose hierarchy
    separator is the slash. *)
Definition list_delimiter : string :=
  String " " (String.append (quoted "/") " ").

Definition CR : ascii := "013"%char.
Definition LF : ascii := "010"%char.

(** [MapCRLF.sub(CRLF, message)]: every "\r\n", lone "\r" or lone "\n"
    becomes "\r\n". *)
Fixpoint MapCRLF_sub (s : string) : string :=
  match s with
  | EmptyString => EmptyString
  | String c s' =>
    if Ascii.eqb c CR then
      match s' with
      | String c' s'' =>
        if Ascii.eqb c' LF then String CR (String LF (MapCRLF_sub s''))
        else String CR (String LF (MapCRLF_sub s'))
      | EmptyString => String CR (String LF EmptyString)
      end
    else if Ascii.eqb c LF then String CR (String LF (MapCRLF_sub s'))
    else String c (MapCRLF_sub s')
  end.

(** [str(n)] for an integer and the reading of a decimal numeral. *)
Definition str_of_Z (z : Z) : string := NilZero.string_of_int (Z.to_int z).
Definition str_of_nat (n : nat) : string := NilZero.string_of_uint (Nat.to_uint n).
Definition nat_of_str (s : string) : option nat :=
  match NilZero.uint_of_string s with
  | Some d => Some (Nat.of_uint d)
  | None => None
  end.

(** The part before the first [c] and, when there is one, the part after. *)
Fixpoint break_at (c : ascii) (s : string) : string * option string :=
  match s with
  | EmptyString => (EmptyString, None)
  | String a s' =>
    if Ascii.eqb a c then (EmptyString, Some s')
    else let '(l, r) := break_at c s' in (String a l, r)
  end.

End Text.

Fixpoint all_chars (P : ascii -> bool) (s : string) : bool :=
  match s with
  | EmptyString => true
  | String c s' => P c && all_chars P s'
  end.

(** ** The arguments of a command (RFC 3501, section 9)

    [imaplib] puts the arguments it is given on the command line as they
    are, so an argument has to be written the way the protocol wants it. *)

(** ATOM-CHAR: a printable character of US-ASCII other than the
    atom-specials. *)
Definition atom_char (c : ascii) : bool :=
  let n := N_of_ascii c in
  ((32 <? n) && (n <? 127))%N &&
  negb (existsb (Ascii.eqb c)
          ["("%char; ")"%char; "{"%char; "%"%char; "*"%char; Text.DQUOTE; "\"%char; "]"%char]).

(** ASTRING-CHAR: ATOM-CHAR or the closing bracket. *)
Definition astring_char (c : ascii) : bool := atom_char c || Ascii.eqb c "]"%char.

(** A character that stands for itself in a quoted string. *)
Definition quoted_char (c : ascii) : bool :=
  let n := N_of_ascii c in
  ((0 <? n) && (n <? 128))%N &&
  negb (existsb (Ascii.eqb c) [Text.CR; Text.LF; Text.DQUOTE; "\"%char]).

(** What follows the opening quote of a quoted string that ends the
    argument: the text it stands for. *)
Fixpoint unquote (s : string) : option string :=
  match s with
  | EmptyString => None
  | String c s' =>
    if Ascii.eqb c Text.DQUOTE then
      match s' with EmptyString => Some EmptyString | _ => None end
    else if Ascii.eqb c "\"%char then
      match s' with
      | String c' s'' =>
        if Ascii.eqb c' Text.DQUOTE || Ascii.eqb c' "\"%char
        then option_map (String c') (unquote s'')
        else None
      | EmptyString => None
      end
    else if quoted_char c then option_map (String c) (unquote s') else None
  end.

(** The text an argument stands for when it is one astring, quoted or not. *)
Definition astring (s : string) : option string :=
  match s with
  | EmptyString => None
  | String c s' =>
    if Ascii.eqb c Text.DQUOTE then unquote s'
    else if all_chars astring_char s then Some s else None
  end.

Definition is_astring (s : string) : bool :=
  match astring s with Some _ => true | None => false end.


(** A flag a client may set: a keyword, or a backslash and an atom other
    than [\Recent]. *)
Definition flag_syntax (f : string) : bool :=
  match f with
  | EmptyString => false
  | String c f' =>
    if Ascii.eqb c "\"%char
    then negb (String.eqb f' "") && all_chars atom_char f'
         && negb (String.eqb (Text.upper f') "RECENT")
    else all_chars atom_char f
  end.

(** ** Messages and replies *)

(** A message on a server: the raw text, the flags in the order the server
    lists them, and the internal date as an instant (seconds since the
    epoch, UTC). *)
Record Message := {
  msg_body : string;
  msg_flags : list string;
  msg_date : Z;
}.

(** An INTERNALDATE as it travels on the wire, with its calendar fields
    kept as the number [calendar.timegm] gives for them ([id_wall]) and its
    zone in seconds east of UTC ([id_zone]).  The instant it denotes is
    [id_wall - id_zone]. *)
Record InternalDate := {
  id_wall : Z;
  id_zone : Z;
}.

Definition instant (d : InternalDate) : Z := id_wall d - id_zone d.

(** The first second of the years 0, 1, 1000 and 10000 of the proleptic
    Gregorian calendar, as [calendar.timegm] counts. *)
Definition YEAR_0 : Z := -62167219200.
Definition YEAR_1 : Z := -62135596800.
Definition YEAR_1000 : Z := -30610224000.
Definition YEAR_10000 : Z := 253402300800.

(** A date-time a server can print and the regular expression
    [InternalDate] of [imaplib] matches: a year of four digits and a zone
    of the form [+HHMM] or [-HHMM]. *)
Definition date_shown (d : InternalDate) : bool :=
  ((YEAR_0 <=? id_wall d) && (id_wall d <? YEAR_10000) &&
   (id_zone d mod 60 =? 0) && (Z.abs (id_zone d) <=? 362340))%Z.

(** A date-time argument as [strftime] prints it is one of RFC 3501 when
    the year has four digits (the C library does not pad a year below 1000)
    and the offset is in whole minutes (for another one [%z] prints the
    seconds too). *)
Definition date_time_syntax (d : InternalDate) : bool :=
  ((YEAR_1000 <=? id_wall d) && (id_wall d <? YEAR_10000) &&
   (id_zone d mod 60 =? 0) && (Z.abs (id_zone d) <? 86400))%Z.

(** The text part of a FETCH reply, kept in the form the two regular
    expressions of [imaplib] see it: [h_flags] is the whitespace-split group
    of [Flags] when the line has a [FLAGS (...)] item, [h_date] what
    [InternalDate] captures when the line has an INTERNALDATE item. *)
Record Header := {
  h_seq : nat;
  h_flags : option (list string);
  h_date : option InternalDate;
}.

(** One element of the [data] list that an [imaplib] method returns. *)
Inductive Item :=
| INone                                   (* None *)
| IBytes (text : string)                  (* a bytes object *)
| ITuple (hdr : Header) (literal : string) (* (line, literal) *).

Inductive Typ := OK | NO | BAD.

Definition typ_str (t : Typ) : string :=
  match t with OK => "OK" | NO => "NO" | BAD => "BAD" end.

#[global] Instance Typ_eq_dec : EqDecision Typ.
Proof. solve_decision. Defined.

(** The commands the script sends, with the arguments [imaplib] puts on the
    wire. *)
Inductive Cmd :=
| LOGIN (user password : string)
| LIST
| SELECT (mailbox : string)
| SEARCH (criteria : string)
| FETCH (message_set message_parts : string)
| APPEND (mailbox : string) (flags : option string) (date_time : option InternalDate)
         (literal : string)
| STORE (message_set command flags : string)
| EXPUNGE
| CLOSE
| LOGOUT.

(** ** The server (RFC 3501) *)

(** What a server may do to one command instead of serving it. *)
Inductive Fault :=
| FNone                     (* serve the command *)
| FNo (text : string)       (* answer NO, change nothing *)
| FBad (text : string)      (* answer BAD, change nothing *)
| FDrop                     (* the connection breaks before the command arrives *)
| FLost                     (* the command is served, the connection breaks before the reply *).

Record Server := {
  sv_boxes : gmap string (list Message);  (* mailbox, under the argument that names it ->
                                             messages, by sequence number *)
  sv_selected : option string;            (* the mailbox selected on the connection *)
  sv_up : bool;                           (* the connection is alive *)
  sv_faults : list Fault;                 (* one entry consumed per command received *)
  sv_zone : Z;                            (* zone in which the server prints dates *)
  sv_clock : Z;                           (* date given to a message appended without one *)
}.

Definition with_boxes (b : gmap string (list Message)) (sv : Server) : Server :=
  {| sv_boxes := b; sv_selected := sv_selected sv; sv_up := sv_up sv;
     sv_faults := sv_faults sv; sv_zone := sv_zone sv; sv_clock := sv_clock sv |}.

Definition with_selected (s : option string) (sv : Server) : Server :=
  {| sv_boxes := sv_boxes sv; sv_selected := s; sv_up := sv_up sv;
     sv_faults := sv_faults sv; sv_zone := sv_zone sv; sv_clock := sv_clock sv |}.

Definition with_up (u : bool) (sv : Server) : Server :=
  {| sv_boxes := sv_boxes sv; sv_selected := sv_selected sv; sv_up := u;
     sv_faults := sv_faults sv; sv_zone := sv_zone sv; sv_clock := sv_clock sv |}.

Definition with_faults (f : list Fault) (sv : Server) : Server :=
  {| sv_boxes := sv_boxes sv; sv_selected := sv_selected sv; sv_up := sv_up sv;
     sv_faults := f; sv_zone := sv_zone sv; sv_clock := sv_clock sv |}.

Definition Deleted : string := "\Deleted".
Definition Seen : string := "\Seen".

Definition has_flag (f : string) (fl : list string) : bool := existsb (String.eqb f) fl.

Definition add_flag (f : string) (fl : list string) : list string :=
  if has_flag f fl then fl else fl ++ [f].

Definition add_flags (new : list string) (m : Message) : Message :=
  {| msg_body := msg_body m;
     msg_flags := fold_left (fun acc f => add_flag f acc) new (msg_flags m);
     msg_date := msg_date m |}.

(** A parenthesized flag list, or a bare one, as a list of flags. *)
Definition parse_flag_list (s : string) : list string :=
  match Text.unparen s with
  | Some inner => Text.split inner
  | None => Text.split s
  end.

(** A sequence set of the forms [n] and [a:b], where a bound may be "*"
    (the highest sequence number in use).  The result is the inclusive
    range of sequence numbers; a single number must exist. *)
Definition parse_bound (count : nat) (s : string) : option nat :=
  if String.eqb s "*" then Some count else Text.nat_of_str s.

Definition parse_set (count : nat) (s : string) : option (nat * nat) :=
  match Text.break_at ":"%char s with
  | (a, None) =>
    match parse_bound count a with
    | Some n => if ((1 <=? n) && (n <=? count))%nat then Some (n, n) else None
    | None => None
    end
  | (a, Some b) =>
    match parse_bound count a, parse_bound count b with
    | Some x, Some y => Some (Nat.min x y, Nat.max x y)
    | _, _ => None
    end
  end.

(** Is the message at (0-based) position [i] in the range? *)
Definition covers (r : nat * nat) (i : nat) : bool :=
  ((fst r <=? S i) && (S i <=? snd r))%nat.

Fixpoint map_range (r : nat * nat) (f : Message -> Message) (i : nat) (l : list Message)
  : list Message :=
  match l with
  | [] => []
  | m :: l' => (if covers r i then f m else m) :: map_range r f (S i) l'
  end.

Definition expunged (l : list Message) : list Message :=
  List.filter (fun m => negb (has_flag Deleted (msg_flags m))) l.

(** The items of a FETCH the model serves; it serves a FETCH that asks for
    the message text, so that every reply carries a literal. *)
Definition fetch_item_known (t : string) : bool :=
  existsb (String.eqb t) ["FLAGS"; "INTERNALDATE"; "BODY.PEEK[]"; "BODY[]"; "RFC822"].

Definition wants (t : string) (items : list string) : bool := existsb (String.eqb t) items.

(** [BODY[]] and [RFC822] set the [\Seen] flag; [BODY.PEEK[]] does not. *)
Definition sets_seen (items : list string) : bool :=
  wants "BODY[]" items || wants "RFC822" items.

Definition wants_body (items : list string) : bool :=
  wants "BODY.PEEK[]" items || sets_seen items.

Definition render_date (zone : Z) (t : Z) : InternalDate :=
  {| id_wall := t + zone; id_zone := zone |}.

Definition fetch_reply (zone : Z) (items : list string) (i : nat) (m : Message) : list Item :=
  let hdr := {| h_seq := S i;
                h_flags := if wants "FLAGS" items then Some (msg_flags m) else None;
                h_date := if wants "INTERNALDATE" items
                          then Some (render_date zone (msg_date m)) else None |} in
  [ITuple hdr (msg_body m); IBytes ")"].

Fixpoint fetch_replies (zone : Z) (items : list string) (r : nat * nat) (i : nat)
  (l : list Message) : list Item :=
  match l with
  | [] => []
  | m :: l' =>
    (if covers r i then fetch_reply zone items i m else [])
      ++ fetch_replies zone items r (S i) l'
  end.

(** The reply to one command: the tagged status and text, and the untagged
    data that came before it. *)
Record Reply := {
  r_typ : Typ;
  r_text : string;
  r_data : list Item;
}.

Definition reply (t : Typ) (text : string) (data : list Item) : Reply :=
  {| r_typ := t; r_text := text; r_data := data |}.

Definition list_line (name : string) : Item :=
  IBytes (String.append "(\HasNoChildren)" (String.append Text.list_delimiter name)).

(** Commands that need a selected mailbox answer BAD without one. *)
Definition in_selected (sv : Server)
  (k : string -> list Message -> Reply * Server) : Reply * Server :=
  match sv_selected sv with
  | Some mb =>
    match sv_boxes sv !! mb with
    | Some msgs => k mb msgs
    | None => (reply BAD "No mailbox selected" [], sv)
    end
  | None => (reply BAD "No mailbox selected" [], sv)
  end.

Definition serve (c : Cmd) (sv : Server) : Reply * Server :=
  match c with
  | LOGIN u pw =>
    if is_astring u && is_astring pw then (reply OK "LOGIN completed" [], sv)
    else (reply BAD "LOGIN: invalid arguments" [], sv)
  | LIST =>
    (reply OK "LIST completed" (list_line <$> (map_to_list (sv_boxes sv)).*1), sv)
  | SELECT mb =>
    if is_astring mb then
      (* the mailbox selected before is deselected first, without expunge *)
      match sv_boxes sv !! mb with
      | Some msgs =>
        (reply OK "[READ-WRITE] SELECT completed" [IBytes (Text.str_of_nat (length msgs))],
         with_selected (Some mb) sv)
      | None => (reply NO "SELECT failed: no such mailbox" [], with_selected None sv)
      end
    else (reply BAD "SELECT: invalid arguments" [], sv)
  | SEARCH crit =>
    in_selected sv (fun _ msgs =>
      if String.eqb crit "ALL" then
        (reply OK "SEARCH completed"
           [IBytes (Text.join " " (Text.str_of_nat <$> seq 1 (length msgs)))], sv)
      else (reply BAD "SEARCH: criteria not supported" [], sv))
  | FETCH set parts =>
    in_selected sv (fun mb msgs =>
      let items := parse_flag_list parts in
      match parse_set (length msgs) set with
      | Some r =>
        if forallb fetch_item_known items && wants_body items then
          let msgs' := if sets_seen items then map_range r (add_flags [Seen]) 0 msgs else msgs in
          (reply OK "FETCH completed" (fetch_replies (sv_zone sv) items r 0 msgs'),
           with_boxes (<[mb := msgs']> (sv_boxes sv)) sv)
        else (reply BAD "FETCH: item not supported" [], sv)
      | None => (reply BAD "FETCH: invalid message set" [], sv)
      end)
  | APPEND mb flags date lit =>
    if is_astring mb
       && match flags with Some s => forallb flag_syntax (parse_flag_list s) | None => true end
       && match date with Some d => date_time_syntax d | None => true end
    then
      match sv_boxes sv !! mb with
      | Some msgs =>
        let m := {| msg_body := lit;
                    msg_flags := match flags with Some s => parse_flag_list s | None => [] end;
                    msg_date := match date with Some d => instant d | None => sv_clock sv end |} in
        (reply OK "APPEND completed" [], with_boxes (<[mb := msgs ++ [m]]> (sv_boxes sv)) sv)
      | None => (reply NO "[TRYCREATE] APPEND failed: no such mailbox" [], sv)
      end
    else (reply BAD "APPEND: invalid arguments" [], sv)
  | STORE set command flags =>
    in_selected sv (fun mb msgs =>
      match parse_set (length msgs) set with
      | Some r =>
        if String.eqb command "+FLAGS" then
          let msgs' := map_range r (add_flags (parse_flag_list flags)) 0 msgs in
          (reply OK "STORE completed" (fetch_replies (sv_zone sv) ["FLAGS"] r 0 msgs'),
           with_boxes (<[mb := msgs']> (sv_boxes sv)) sv)
        else (reply BAD "STORE: data item not supported" [], sv)
      | None => (reply BAD "STORE: invalid message set" [], sv)
      end)
  | EXPUNGE =>
    in_selected sv (fun mb msgs =>
      (reply OK "EXPUNGE completed" [],
       with_boxes (<[mb := expunged msgs]> (sv_boxes sv)) sv))
  | CLOSE =>
    in_selected sv (fun mb msgs =>
      (reply OK "CLOSE completed" [],
       with_selected None (with_boxes (<[mb := expunged msgs]> (sv_boxes sv)) sv)))
  | LOGOUT =>
    (reply OK "LOGOUT completed" [IBytes "BYE"], with_up false (with_selected None sv))
  end.

(** ** The client side: settings, logger, [imaplib.IMAP4] objects, globals *)

(** [ImapSettings], after [parse]. *)
Record ImapSettings := {
  server : string;
  use_ssl : bool;
  port : Z;
  user : option string;
  password : option string;
  folder : string;
  trash : string;
}.

Record Settings := {
  source_server : ImapSettings;
  target_server : ImapSettings;
}.

Definition DEBUG : Z := 10.
Definition INFO : Z := 20.

(** A log call that passed the level filter: level, format and arguments. *)
Record LogRecord := {
  lr_level : Z;
  lr_msg : string;
  lr_args : list string;
}.

Record Logger := {
  level : Z;
  records : list LogRecord;
}.

(** The [state] attribute of an [IMAP4] object. *)
Inductive State := St_NONAUTH | St_AUTH | St_SELECTED | St_LOGOUT.

Definition state_name (s : State) : string :=
  match s with
  | St_NONAUTH => "NONAUTH"
  | St_AUTH => "AUTH"
  | St_SELECTED => "SELECTED"
  | St_LOGOUT => "LOGOUT"
  end.

Record IMAP4 := { state : State }.

Inductive Who := Source | Target.

(** How a command sent on the wire ended, as the client saw it. *)
Inductive Outcome :=
| Answered (t : Typ)
| Dropped          (* not delivered: the connection was or went down *)
| Lost             (* served, but the reply never arrived *).

Record Event := {
  ev_who : Who;
  ev_cmd : Cmd;
  ev_out : Outcome;
}.

(** The module globals the script and [cleanup] use, the two servers, the
    commands sent so far, and the UTC offset of the local zone in force at
    a given instant ([time.localtime]). *)
Record World := {
  settings : Settings;
  logger : option Logger;
  source_mailbox : option IMAP4;
  target_mailbox : option IMAP4;
  count : Z;
  source_host : Server;
  target_host : Server;
  wire : list Event;
  gmtoff : Z -> Z;
}.

Definition mailbox (p : Who) (w : World) : option IMAP4 :=
  match p with Source => source_mailbox w | Target => target_mailbox w end.

Definition host (p : Who) (w : World) : Server :=
  match p with Source => source_host w | Target => target_host w end.

Definition mailbox_name (p : Who) : string :=
  match p with Source => "source_mailbox" | Target => "target_mailbox" end.

Definition set_logger (l : option Logger) (w : World) : World :=
  {| settings := settings w; logger := l; source_mailbox := source_mailbox w;
     target_mailbox := target_mailbox w; count := count w;
     source_host := source_host w; target_host := target_host w;
     wire := wire w; gmtoff := gmtoff w |}.

Definition set_mailbox (p : Who) (m : option IMAP4) (w : World) : World :=
  {| settings := settings w; logger := logger w;
     source_mailbox := match p with Source => m | Target => source_mailbox w end;
     target_mailbox := match p with Source => target_mailbox w | Target => m end;
     count := count w;
     source_host := source_host w; target_host := target_host w;
     wire := wire w; gmtoff := gmtoff w |}.

Definition set_count (c : Z) (w : World) : World :=
  {| settings := settings w; logger := logger w; source_mailbox := source_mailbox w;
     target_mailbox := target_mailbox w; count := c;
     source_host := source_host w; target_host := target_host w;
     wire := wire w; gmtoff := gmtoff w |}.

Definition set_host (p : Who) (sv : Server) (w : World) : World :=
  {| settings := settings w; logger := logger w; source_mailbox := source_mailbox w;
     target_mailbox := target_mailbox w; count := count w;
     source_host := match p with Source => sv | Target => source_host w end;
     target_host := match p with Source => target_host w | Target => sv end;
     wire := wire w; gmtoff := gmtoff w |}.

Definition add_event (e : Event) (w : World) : World :=
  {| settings := settings w; logger := logger w; source_mailbox := source_mailbox w;
     target_mailbox := target_mailbox w; count := count w;
     source_host := source_host w; target_host := target_host w;
     wire := wire w ++ [e]; gmtoff := gmtoff w |}.

(** ** Exceptions and the monad of the script *)

Inductive Exn :=
| NameError (name : string)
| TypeError
| IndexError
| AttributeError
| ValueError
| OSError
| IMAP4_error (why : string)       (* imaplib.IMAP4.error *)
| IMAP4_abort                      (* imaplib.IMAP4.abort *)
| SystemExit (code : Z).

Inductive Res (A : Type) :=
| Ret (a : A)
| Raise (e : Exn).

Arguments Ret {A} a.
Arguments Raise {A} e.

Definition M (A : Type) : Type := World -> Res A * World.

Definition ret {A} (a : A) : M A := fun w => (Ret a, w).

Definition raise {A} (e : Exn) : M A := fun w => (Raise e, w).

Definition bind {A B} (m : M A) (k : A -> M B) : M B :=
  fun w =>
    match m w with
    | (Ret a, w') => k a w'
    | (Raise e, w') => (Raise e, w')
    end.

(** [try: m finally: h] *)
Definition finally {A} (m : M A) (h : M unit) : M A :=
  fun w =>
    let '(r, w') := m w in
    match h w' with
    | (Ret _, w'') => (r, w'')
    | (Raise e, w'') => (Raise e, w'')
    end.

Definition gets {A} (f : World -> A) : M A := fun w => (Ret (f w), w).

Definition modify (f : World -> World) : M unit := fun w => (Ret tt, f w).

Declare Scope py_scope.
Delimit Scope py_scope with py.

Notation "'let*' x ':=' m 'in' k" := (bind m (fun x => k))
  (at level 10, x pattern, m at level 100, k at level 200) : py_scope.

Notation "m ';;' k" := (bind m (fun _ => k))
  (at level 100, k at level 200, right associativity) : py_scope.

Open Scope py_scope.

(** ** Logging *)

Definition record (lvl : Z) (msg : string) (args : list string) : LogRecord :=
  {| lr_level := lvl; lr_msg := msg; lr_args := args |}.

(** The logger after its handlers took one more record. *)
Definition handle (lg : Logger) (r : LogRecord) : Logger :=
  {| level := level lg; records := records lg ++ [r] |}.

(** [logger.log(lvl, msg, *args)]; [logger] is looked up in the module
    globals at the call. *)
Definition log (lvl : Z) (msg : string) (args : list string) : M unit :=
  fun w =>
    match logger w with
    | None => (Raise (NameError "logger"), w)
    | Some lg =>
      if (level lg <=? lvl)%Z then
        (Ret tt, set_logger (Some (handle lg (record lvl msg args))) w)
      else (Ret tt, w)
    end.

(** [logger.isEnabledFor(lvl)] *)
Definition isEnabledFor (lvl : Z) : M bool :=
  fun w =>
    match logger w with
    | None => (Raise (NameError "logger"), w)
    | Some lg => (Ret (level lg <=? lvl)%Z, w)
    end.

(** ** [imaplib] *)

(** The [Commands] table: the states in which a command may be sent. *)
Definition allowed (c : Cmd) (s : State) : bool :=
  match c, s with
  | APPEND _ _ _ _, (St_AUTH | St_SELECTED) => true
  | CLOSE, St_SELECTED => true
  | EXPUNGE, St_SELECTED => true
  | FETCH _ _, St_SELECTED => true
  | LIST, (St_AUTH | St_SELECTED) => true
  | LOGIN _ _, St_NONAUTH => true
  | LOGOUT, _ => true
  | SEARCH _, St_SELECTED => true
  | SELECT _, (St_AUTH | St_SELECTED) => true
  | STORE _ _ _, St_SELECTED => true
  | _, _ => false
  end.

Definition next_fault (sv : Server) : Fault * Server :=
  match sv_faults sv with
  | [] => (FNone, sv)
  | f :: fs => (f, with_faults fs sv)
  end.

Definition event (p : Who) (c : Cmd) (o : Outcome) : Event :=
  {| ev_who := p; ev_cmd := c; ev_out := o |}.

(** One command on the wire of session [p]: the tagged reply, or
    [IMAP4.abort] when the connection is or goes down. *)
Definition exchange (p : Who) (c : Cmd) : M Reply :=
  fun w =>
    let sv := host p w in
    if sv_up sv then
      match next_fault sv with
      | (FNone, sv1) =>
        let '(r, sv2) := serve c sv1 in
        (Ret r, add_event (event p c (Answered (r_typ r))) (set_host p sv2 w))
      | (FNo text, sv1) =>
        (Ret (reply NO text []), add_event (event p c (Answered NO)) (set_host p sv1 w))
      | (FBad text, sv1) =>
        (Ret (reply BAD text []), add_event (event p c (Answered BAD)) (set_host p sv1 w))
      | (FDrop, sv1) =>
        (Raise IMAP4_abort, add_event (event p c Dropped) (set_host p (with_up false sv1) w))
      | (FLost, sv1) =>
        let '(_, sv2) := serve c sv1 in
        (Raise IMAP4_abort, add_event (event p c Lost) (set_host p (with_up false sv2) w))
      end
    else (Raise IMAP4_abort, add_event (event p c Dropped) w).

(** The global holding session [p]; [NameError] when it was never bound. *)
Definition the_mailbox (p : Who) : M IMAP4 :=
  fun w =>
    match mailbox p w with
    | Some m => (Ret m, w)
    | None => (Raise (NameError (mailbox_name p)), w)
    end.

Definition set_state (p : Who) (s : State) : M unit :=
  modify (set_mailbox p (Some {| state := s |})).

(** [_simple_command]: refuse the command in a wrong state, send it, and
    raise [error] on a BAD reply. *)
Definition simple_command (p : Who) (c : Cmd) : M Reply :=
  let* m := the_mailbox p in
  if allowed c (state m) then
    let* r := exchange p c in
    match r_typ r with
    | BAD => raise (IMAP4_error "command error: BAD")
    | _ => ret r
    end
  else raise (IMAP4_error "command illegal in state").

Definition tagged (r : Reply) : Typ * list Item := (r_typ r, [IBytes (r_text r)]).

(** [_untagged_response] *)
Definition untagged_response (r : Reply) : Typ * list Item :=
  match r_typ r with
  | NO => tagged r
  | t => (t, match r_data r with [] => [INone] | d => d end)
  end.

(** [IMAP4(host, port)] and [IMAP4_SSL(host, port)]: open the connection
    and read the greeting. *)
Definition connect (p : Who) (ssl : bool) : M IMAP4 :=
  fun w =>
    match next_fault (host p w) with
    | (FDrop, sv1) => (Raise OSError, set_host p (with_up false sv1) w)
    | (_, _) =>
      (Ret {| state := St_NONAUTH |},
       set_host p (with_up true (with_selected None (host p w))) w)
    end.

Definition login (p : Who) (user password : option string) : M (Typ * list Item) :=
  match user, password with
  | Some u, Some pw =>
    let* r := simple_command p (LOGIN u (Text.quoted pw)) in
    match r_typ r with
    | OK => set_state p St_AUTH ;; ret (tagged r)
    | _ => raise (IMAP4_error "LOGIN failed")
    end
  | _, _ => raise TypeError
  end.

(** [IMAP4.list()] *)
Definition imap_list (p : Who) : M (Typ * list Item) :=
  let* r := simple_command p LIST in ret (untagged_response r).

(** [select(mailbox)]; the model server opens every mailbox read-write. *)
Definition select (p : Who) (mb : string) : M (Typ * list Item) :=
  let* r := simple_command p (SELECT mb) in
  match r_typ r with
  | OK => set_state p St_SELECTED ;;
          ret (OK, match r_data r with [] => [INone] | d => d end)
  | _ => set_state p St_AUTH ;; ret (tagged r)
  end.

Definition search (p : Who) (criteria : string) : M (Typ * list Item) :=
  let* r := simple_command p (SEARCH criteria) in ret (untagged_response r).

Definition fetch (p : Who) (message_set message_parts : string) : M (Typ * list Item) :=
  let* r := simple_command p (FETCH message_set message_parts) in ret (untagged_response r).

Definition store (p : Who) (message_set command flags : string) : M (Typ * list Item) :=
  let flags := if Text.ends_are "("%char ")"%char flags then flags
               else String.append "(" (String.append flags ")") in
  let* r := simple_command p (STORE message_set command flags) in ret (untagged_response r).

Definition expunge (p : Who) : M (Typ * list Item) :=
  let* r := simple_command p EXPUNGE in ret (untagged_response r).

Definition close (p : Who) : M (Typ * list Item) :=
  the_mailbox p ;;
  finally (let* r := simple_command p CLOSE in ret (tagged r)) (set_state p St_AUTH).

(** [shutdown]: close the socket. *)
Definition shutdown (p : Who) : M unit :=
  fun w => (Ret tt, set_host p (with_up false (host p w)) w).

Definition logout (p : Who) : M (Typ * list Item) :=
  the_mailbox p ;;
  set_state p St_LOGOUT ;;
  let* r := simple_command p LOGOUT in
  shutdown p ;;
  ret (tagged r).

(** [Time2Internaldate] and [Internaldate2tuple] *)

(** A [time.struct_time] in the local zone: its calendar fields as the
    number [calendar.timegm] gives for them, and [tm_gmtoff]. *)
Record struct_time := {
  tm_wall : Z;
  tm_gmtoff : Z;
}.

(** The values the script hands around between [fetch] and [append]. *)
Inductive PyVal :=
| VInt                      (* an int: one byte of a bytes object *)
| VBytes (s : string)       (* the literal of a FETCH reply *)
| VLine (h : Header)        (* the line of a FETCH reply *).

Inductive PyDate :=
| DNone
| DTuple (t : struct_time)
| DStr (d : InternalDate)   (* a double-quoted date string *).

(** [time.localtime(utc)] *)
Definition localtime (utc : Z) : M struct_time :=
  let* off := gets gmtoff in
  ret {| tm_wall := utc + off utc; tm_gmtoff := off utc |}.

(** [ParseFlags(resp)]: the regular expression needs bytes. *)
Definition ParseFlags (resp : PyVal) : M (list string) :=
  match resp with
  | VLine h => ret (match h_flags h with Some fl => fl | None => [] end)
  | VBytes _ => ret []
  | VInt => raise TypeError
  end.

(** [Internaldate2tuple(resp)]: [None] when the line has no INTERNALDATE
    the regular expression matches; [calendar.timegm] raises [ValueError]
    for the year 0000. *)
Definition Internaldate2tuple (resp : PyVal) : M PyDate :=
  match resp with
  | VLine h =>
    match h_date h with
    | Some d =>
      if date_shown d then
        if (id_wall d <? YEAR_1)%Z then raise ValueError
        else let* t := localtime (id_wall d - id_zone d) in ret (DTuple t)
      else ret DNone
    | None => ret DNone
    end
  | VBytes _ => ret DNone
  | VInt => raise TypeError
  end.

(** [Time2Internaldate(date_time)]: a [struct_time] is made into a
    [datetime] in a [timezone] of its own offset and printed, a quoted
    string is returned as it is.  [timezone] raises [ValueError] for an
    offset of a day or more, [datetime] for a year outside 1 to 9999. *)
Definition Time2Internaldate (date_time : PyDate) : M InternalDate :=
  match date_time with
  | DTuple t =>
    if ((Z.abs (tm_gmtoff t) <? 86400) && (YEAR_1 <=? tm_wall t) && (tm_wall t <? YEAR_10000))%Z
    then ret {| id_wall := tm_wall t; id_zone := tm_gmtoff t |}
    else raise ValueError
  | DStr d => ret d
  | DNone => raise ValueError
  end.

(** [append(mailbox, flags, date_time, message)] *)
Definition append (p : Who) (mailbox flags : string) (date_time : PyDate) (message : PyVal)
  : M (Typ * list Item) :=
  let mailbox := if String.eqb mailbox "" then "INBOX" else mailbox in
  let flags :=
    if String.eqb flags "" then None
    else if Text.ends_are "("%char ")"%char flags then Some flags
    else Some (String.append "(" (String.append flags ")")) in
  let* date_time :=
    match date_time with
    | DNone => ret None
    | d => let* s := Time2Internaldate d in ret (Some s)
    end in
  match message with
  | VBytes s =>
    let literal := Text.MapCRLF_sub s in
    let* r := simple_command p (APPEND mailbox flags date_time literal) in
    ret (tagged r)
  | _ => raise TypeError
  end.

(** ** Python subscripts and methods on reply data *)

(** [l[i]] on a list *)
Definition index {A} (l : list A) (i : nat) : M A :=
  match l !! i with
  | Some a => ret a
  | None => raise IndexError
  end.

(** [x[i]] on an element of [data] *)
Definition subscript (x : Item) (i : nat) : M PyVal :=
  match x with
  | INone => raise TypeError
  | IBytes s => if (i <? String.length s)%nat then ret VInt else raise IndexError
  | ITuple h lit =>
    match i with
    | 0%nat => ret (VLine h)
    | 1%nat => ret (VBytes lit)
    | _ => raise IndexError
    end
  end.

(** [x.split()] on an element of [data] *)
Definition bytes_split (x : Item) : M (list string) :=
  match x with
  | IBytes s => ret (Text.split s)
  | _ => raise AttributeError
  end.

(** [x.decode()] on an element of [data] *)
Definition decode (x : Item) : M string :=
  match x with
  | IBytes s => ret s
  | _ => raise AttributeError
  end.

(** [str(b)] for a bytes object *)
Definition str_of_bytes (s : string) : string :=
  String.append "b'" (String.append s "'").

Definition str_of_opt (o : option string) : string :=
  match o with Some s => s | None => "None" end.

Definition NL : string := String Text.LF EmptyString.

(** ** The script *)

(** The debug listing of the folders (lines 238-243 and 254-259). *)
Fixpoint folder_lines (items : list Item) (buffer : string) : M string :=
  match items with
  | [] => ret buffer
  | i :: rest =>
    let* s := decode i in
    let p := Text.split_on Text.list_delimiter s in
    let* p0 := index p 0 in
    let* p1 := index p 1 in
    folder_lines rest
      (String.append buffer (String.append (String.append p0 (String.append " = " p1)) NL))
  end.

Definition debug_folders (p : Who) (title : string) : M unit :=
  let* enabled := isEnabledFor DEBUG in
  if enabled then
    let* (_, items) := imap_list p in
    let* buffer := folder_lines items title in
    log DEBUG buffer []
  else ret tt.

(** Lines 229-236 for the source, 245-252 for the target. *)
Definition open_session (p : Who) (cfg : ImapSettings) (msg : string) : M unit :=
  log INFO msg [server cfg; Text.str_of_Z (port cfg); str_of_opt (user cfg)] ;;
  (if use_ssl cfg then
     let* m := connect p true in modify (set_mailbox p (Some m))
   else
     let* m := connect p false in modify (set_mailbox p (Some m))) ;;
  login p (user cfg) (password cfg) ;;
  ret tt.

(** The body of the [for] loop (lines 268-283). *)
Definition transfer_one (num : string) : M unit :=
  let* cfg := gets settings in
  log INFO "Fetching message: %s" [str_of_bytes num] ;;
  let* (resp, data) := fetch Source num "(FLAGS INTERNALDATE BODY.PEEK[])" in
  let* d0 := index data 0 in
  let* message := subscript d0 1 in
  log DEBUG "Retrieving flags" [] ;;
  let* d0 := index data 0 in
  let* line := subscript d0 0 in
  let* flags := ParseFlags line in
  let flag_str := Text.join " " flags in
  log DEBUG "Retrieving internal date" [] ;;
  let* d0 := index data 0 in
  let* line := subscript d0 0 in
  let* tt_local := Internaldate2tuple line in
  let* date := Time2Internaldate tt_local in
  log DEBUG "Moving message to folder: %s" [folder (target_server cfg)] ;;
  let* append_result := append Target (folder (target_server cfg)) flag_str (DStr date) message in
  (* a 2-tuple is true and has a positive length *)
  if String.eqb (Text.upper (typ_str (fst append_result))) "OK" then
    let* c := gets count in
    modify (set_count (c + 1)) ;;
    store Source num "+FLAGS" Deleted ;;
    ret tt
  else ret tt.

Fixpoint transfer_loop (nums : list string) : M unit :=
  match nums with
  | [] => ret tt
  | num :: rest => transfer_one num ;; transfer_loop rest
  end.

(** Lines 264-285: search, loop, report. *)
Definition transfer : M unit :=
  let* (typ, data) := search Source "ALL" in
  modify (set_count 0) ;;
  let* d0 := index data 0 in
  let* nums := bytes_split d0 in
  transfer_loop nums ;;
  let* c := gets count in
  log INFO "%s messages moved" [Text.str_of_Z c].

(** Lines 286-288: the trash purge and the exit. *)
Definition purge : M unit :=
  let* cfg := gets settings in
  select Source (trash (source_server cfg)) ;;
  store Source "1:*" "+FLAGS" Deleted ;;
  raise (SystemExit 0).

(** Lines 229-288. *)
Definition script : M unit :=
  let* cfg := gets settings in
  open_session Source (source_server cfg)
    "Connecting to source server: %s:%s with user: %s" ;;
  debug_folders Source (String.append "Available folders on source:" NL) ;;
  open_session Target (target_server cfg)
    "Connecting to target server: %s:%s with user: %s" ;;
  debug_folders Target (String.append "Available folders on target:" NL) ;;
  log INFO "Selecting folder on source: %s" [folder (source_server cfg)] ;;
  select Source (folder (source_server cfg)) ;;
  log INFO "Selecting folder on target: %s" [folder (target_server cfg)] ;;
  select Target (folder (target_server cfg)) ;;
  transfer ;;
  purge.

(** ** [cleanup] *)

(** One of the two branches of [cleanup] (lines 167-174 and 175-182): they
    are the same text with the global and the label exchanged. *)
Definition cleanup_session (p : Who) (label : string) : M unit :=
  let* present := gets (fun w => match mailbox p w with Some _ => true | None => false end) in
  if present then
    let* has_logger := gets (fun w => match logger w with Some _ => true | None => false end) in
    (if has_logger then
       let* m := the_mailbox p in log INFO label [state_name (state m)]
     else ret tt) ;;
    let* m := the_mailbox p in
    if String.eqb (state_name (state m)) "SELECTED" then
      log DEBUG "Closing..." [] ;;
      expunge p ;;
      close p ;;
      logout p ;;
      ret tt
    else ret tt
  else ret tt.

Definition cleanup : M unit :=
  log INFO "Cleaning..." [] ;;
  cleanup_session Source "Source IMAP session state: %s" ;;
  cleanup_session Target "Target IMAP session state: %s".

Definition signal_handler : M unit := cleanup.

(** ** The process *)

(** The exit status of the interpreter for the way the script ended. *)
Definition exit_status (r : Res unit) : Z :=
  match r with
  | Ret _ => 0
  | Raise (SystemExit c) => c
  | Raise _ => 1
  end.

(** The script, then the hook registered with [atexit] (line 227); an
    exception raised by the hook is printed by the interpreter and does not
    change the exit status. *)
Definition run (w : World) : Z * World :=
  let '(r, w1) := script w in
  let '(_, w2) := signal_handler w1 in
  (exit_status r, w2).

(** The globals of a process that has just registered its hook. *)
Definition boot (cfg : Settings) (lvl : Z) (tz : Z -> Z) (src tgt : Server) : World :=
  {| settings := cfg;
     logger := Some {| level := lvl; records := [] |};
     source_mailbox := None;
     target_mailbox := None;
     count := 0;
     source_host := src;
     target_host := tgt;
     wire := [];
     gmtoff := tz |}.

(** A second process started on the servers as the first one left them. *)
Definition rerun (w : World) : Z * World :=
  run (boot (settings w) (match logger w with Some lg => level lg | None => INFO end)
            (gmtoff w) (source_host w) (target_host w)).

(** ** Notions used to state the properties *)

Definition other (p : Who) : Who := match p with Source => Target | Target => Source end.

(** A computation keeps a relation between the world before and the world
    after, however it ends. *)
Definition keeps (R : World -> World -> Prop) {A} (m : M A) : Prop :=
  forall w, R w (m w).2.

(** The world after differs from the world before in the logger at most. *)
Definition logger_only (w w' : World) : Prop := exists l, w' = set_logger l w.

(** Two server states with the same mailboxes and the same selection. *)
Definition same_mail (a b : Server) : Prop :=
  sv_boxes a = sv_boxes b /\ sv_selected a = sv_selected b.

(** How the outcome recorded on the wire and the result of
    [_simple_command] go together. *)
Definition typ_of_res {A} (t : A -> Typ) (r : Res A) : Res Typ :=
  match r with
  | Ret a => Ret (t a)
  | Raise e => Raise e
  end.

Definition outcome_of (r : Res Typ) (o : Outcome) : Prop :=
  match r with
  | Ret t => o = Answered t /\ t <> BAD
  | Raise _ => o <> Answered OK /\ o <> Answered NO
  end.

Definition source_boxes_kept (w w' : World) : Prop :=
  sv_boxes (source_host w') = sv_boxes (source_host w).

(** The message parts the script fetches. *)
Definition PEEK_PARTS : string := "(FLAGS INTERNALDATE BODY.PEEK[])".


(** *** The trace of the transfer loop *)

Definition is_append (e : Event) : Prop :=
  ev_who e = Target /\ exists mb fl d lit, ev_cmd e = APPEND mb fl d lit.

Definition fetch_ev (num : string) (o : Outcome) : Event :=
  event Source (FETCH num PEEK_PARTS) o.

Definition store_ev (num : string) (o : Outcome) : Event :=
  event Source (STORE num "+FLAGS" "(\Deleted)") o.

(** The commands one pass of the loop body may put on the wire, and by how
    much it raises [count]. *)
Inductive iteration (num : string) : list Event -> Z -> Prop :=
| it_none : iteration num [] 0
| it_fetch o : iteration num [fetch_ev num o] 0
| it_refused a :
    is_append a -> ev_out a <> Answered OK ->
    iteration num [fetch_ev num (Answered OK); a] 0
| it_moved a tail :
    is_append a -> ev_out a = Answered OK ->
    (tail = [] \/ exists o, tail = [store_ev num o]) ->
    iteration num (fetch_ev num (Answered OK) :: a :: tail) 1.

(** The passes of a loop that may stop early. *)
Inductive iterations : list string -> list Event -> Z -> Prop :=
| its_stop nums : iterations nums [] 0
| its_cons num nums e1 d1 e2 d2 :
    iteration num e1 d1 -> iterations nums e2 d2 ->
    iterations (num :: nums) (e1 ++ e2) (d1 + d2).

(** Every STORE in the trace comes right after the FETCH of the same
    message set and an APPEND that was answered OK. *)
Definition guarded (evs : list Event) : Prop :=
  forall pre e post num command flags,
    evs = pre ++ e :: post -> ev_cmd e = STORE num command flags ->
    exists pre' a, pre = pre' ++ [fetch_ev num (Answered OK); a] /\
                   is_append a /\ ev_out a = Answered OK.



(** The world after has [evs] more on the wire and [d] more in [count]. *)
Definition delta (w w' : World) (evs : list Event) (d : Z) : Prop :=
  wire w' = wire w ++ evs /\ count w' = (count w + d)%Z.

(** The record of the final report, when the log ends with it. *)
Definition tally_record (n : Z) : LogRecord :=
  record INFO "%s messages moved" [Text.str_of_Z n].

(** *** Failures and the log *)

(** The FETCH of [num] fails in [w]: the call raises, or the first element
    of the data it returns is not a (line, literal) pair. *)
Definition fetch_fails (num : string) (w : World) : Prop :=
  match (fetch Source num PEEK_PARTS w).1 with
  | Raise _ => True
  | Ret (_, data) =>
    match data !! 0%nat with
    | Some (ITuple _ _) => False
    | _ => True
    end
  end.

(** The log after is the log before with more records, all of them of the
    given formats. *)
Definition log_grows (formats : list string) (w w' : World) : Prop :=
  match logger w, logger w' with
  | Some lg, Some lg' =>
    level lg' = level lg /\
    exists recs, records lg' = records lg ++ recs /\
                 Forall (fun r => In (lr_msg r) formats) recs
  | None, None => True
  | _, _ => False
  end.

(** The formats the loop body logs. *)
Definition progress_formats : list string :=
  ["Fetching message: %s"; "Retrieving flags"; "Retrieving internal date";
   "Moving message to folder: %s"].

(** The formats [cleanup] logs. *)
Definition cleanup_formats : list string :=
  ["Cleaning..."; "Source IMAP session state: %s"; "Target IMAP session state: %s";
   "Closing..."].

(** *** Sample worlds *)

Definition msg_a : Message :=
  {| msg_body := "Subject: a"; msg_flags := [Seen; "\Flagged"]; msg_date := 1000 |}.

Definition msg_b : Message :=
  {| msg_body := "Subject: b"; msg_flags := []; msg_date := 2000 |}.

Definition demo_settings : Settings :=
  {| source_server := {| server := "imap.source.example"; use_ssl := false; port := 143;
                         user := Some "alice"; password := Some "secret";
                         folder := "Sent"; trash := "Trash" |};
     target_server := {| server := "imap.target.example"; use_ssl := true; port := 993;
                         user := Some "alice"; password := Some "secret";
                         folder := "Archive"; trash := "Trash" |} |}.

(** A server nobody is connected to. *)
Definition idle_server (boxes : gmap string (list Message)) (faults : list Fault) : Server :=
  {| sv_boxes := boxes; sv_selected := None; sv_up := false; sv_faults := faults;
     sv_zone := 3600; sv_clock := 5000 |}.

(** A server with a live connection on which [mb] is selected. *)
Definition busy_server (boxes : gmap string (list Message)) (mb : string)
  (faults : list Fault) : Server :=
  {| sv_boxes := boxes; sv_selected := Some mb; sv_up := true; sv_faults := faults;
     sv_zone := 3600; sv_clock := 5000 |}.

Definition demo_source_boxes : gmap string (list Message) :=
  <["Sent" := [msg_a; msg_b]]> (<["Trash" := [msg_b]]> ∅).

Definition demo_target_boxes : gmap string (list Message) :=
  <["Archive" := []]> ∅.

(** A fresh process in front of two idle servers. *)
Definition demo_start : World :=
  boot demo_settings INFO (fun _ => (-7200)%Z)
       (idle_server demo_source_boxes []) (idle_server demo_target_boxes []).

(** The globals at the head of the loop, both folders selected, with a
    schedule of faults for the source. *)
Definition demo_selected (source_faults : list Fault) : World :=
  {| settings := demo_settings;
     logger := Some {| level := INFO; records := [] |};
     source_mailbox := Some {| state := St_SELECTED |};
     target_mailbox := Some {| state := St_SELECTED |};
     count := 0;
     source_host := busy_server demo_source_boxes "Sent" source_faults;
     target_host := busy_server demo_target_boxes "Archive" [];
     wire := [];
     gmtoff := fun _ => (-7200)%Z |}.

(** The same, with a target that refuses the first command it is sent. *)
Definition demo_full_target : World :=
  set_host Target (with_faults [FNo "over quota"] (target_host (demo_selected [])))
           (demo_selected []).

(** *** Teardown *)

(** [source_mailbox.state == 'SELECTED'], false when the global is unbound. *)
Definition selected_session (p : Who) (w : World) : bool :=
  match mailbox p w with
  | Some m => String.eqb (state_name (state m)) "SELECTED"
  | None => false
  end.


Definition cmds (evs : list Event) : list (Who * Cmd) :=
  (fun e => (ev_who e, ev_cmd e)) <$> evs.

(** Was the command received by the server? *)
Definition delivered (e : Event) : Prop :=
  exists t, ev_out e = Answered t.



(** No session is SELECTED and there is a logger. *)
Definition torn_down (w : World) : Prop :=
  selected_session Source w = false /\ selected_session Target w = false /\
  is_Some (logger w).

(** What commands of session [p] that were all answered leave behind. *)
Definition session_step (p : Who) (cs : list Cmd) (w w' : World) : Prop :=
  mailbox (other p) w' = mailbox (other p) w /\
  host (other p) w' = host (other p) w /\
  exists evs, wire w' = wire w ++ evs /\ cmds evs = (fun c => (p, c)) <$> cs /\
              Forall delivered evs.



(** *** The trash purge *)

(** Commands other than SELECT and APPEND change the selected mailbox at
    most, and keep the selection or drop it. *)
Definition in_place (c : Cmd) : Prop :=
  match c with
  | SELECT _ | APPEND _ _ _ _ => False
  | _ => True
  end.

(** The exceptions [_simple_command] raises. *)
Definition imap_exn (p : Who) (e : Exn) : Prop :=
  e = NameError (mailbox_name p) \/ (exists why, e = IMAP4_error why) \/ e = IMAP4_abort.

Definition trash_or_none (t : string) (sv : Server) : Prop :=
  sv_selected sv = Some t \/ sv_selected sv = None.

(** From a source on which [t] or nothing is selected, the world after has
    [t] or nothing selected and the mailbox [f] as it was. *)
Definition only_trash (t f : string) (w w' : World) : Prop :=
  trash_or_none t (source_host w) ->
  trash_or_none t (source_host w') /\
  sv_boxes (source_host w') !! f = sv_boxes (source_host w) !! f.




(** The sample world when the loop has run. *)
Definition demo_after_loop : World := (transfer (demo_selected [])).2.

(** *** Flags and dates across the transfer *)









(** A message that arrived in the last hour of the year 9999, and the
    sample world with that message in the working folder, for a client two
    hours east of Greenwich and a server one hour east. *)
Definition msg_late : Message :=
  {| msg_body := "Subject: late"; msg_flags := [Seen]; msg_date := YEAR_10000 - 3601 |}.

Definition demo_late : World :=
  {| settings := demo_settings;
     logger := Some {| level := INFO; records := [] |};
     source_mailbox := Some {| state := St_SELECTED |};
     target_mailbox := Some {| state := St_SELECTED |};
     count := 0;
     source_host := busy_server (<["Sent" := [msg_late]]> (<["Trash" := []]> ∅)) "Sent" [];
     target_host := busy_server demo_target_boxes "Archive" [];
     wire := [];
     gmtoff := fun _ => 7200%Z |}.

(** The APPEND events of a trace. *)
Definition appends (evs : list Event) : list Cmd :=
  ev_cmd <$> List.filter (fun e => match ev_cmd e with APPEND _ _ _ _ => true | _ => false end) evs.

(** ** The configuration file: classes [ImapSettings] and [Settings] *)

Module Config.

(** An element of the parsed document, as [xml.etree.ElementTree] holds
    it: the tag, the attributes, the children in document order. *)
#[warnings="-register-all"]
Inductive Element :=
| Elem (tag : string) (attrib : gmap string string) (children : list Element).

Definition tag (e : Element) : string := match e with Elem t _ _ => t end.
Definition attrib (e : Element) : gmap string string := match e with Elem _ a _ => a end.
Definition children (e : Element) : list Element := match e with Elem _ _ c => c end.

(** [e.get(key)] *)
Definition get (e : Element) (key : string) : option string := attrib e !! key.

(** [e.findall(t)] for a plain tag: the children with that tag. *)
Definition findall (t : string) (e : Element) : list Element :=
  List.filter (fun c => String.eqb (tag c) t) (children e).

(** [e.find(t)] for a plain tag: the first child with that tag. *)
Definition find (t : string) (e : Element) : option Element := head (findall t e).

(** [tree.findall('a/b')]: the children tagged [b] of the children tagged
    [a] of the root, in document order. *)
Definition findall_path (a b : string) (root : Element) : list Element :=
  flat_map (findall b) (findall a root).

(** The exceptions [parse] ends with. *)
Inductive Error :=
| KeyError (key : option string)   (* accounts[account_id] *)
| ValueError (text : string)       (* int(v) *)
| IOError (message : string)       (* raised by [Settings.parse] *)
| ReadError                        (* [open] or [etree.parse] failed *).

Inductive Result (A : Type) :=
| Ok (a : A)
| Fail (e : Error).

Arguments Ok {A} a.
Arguments Fail {A} e.

Definition IMAP4_PORT : Z := 143.

(** The attributes of an [ImapSettings] object; [None] is Python's. *)
Record ImapSettings := {
  server : option string;
  use_ssl : bool;
  port : Z;
  user : option string;
  password : option string;
  folder : option string;
  trash : option string;
}.

(** [ImapSettings()]: the class attributes. *)
Definition ImapSettings_new : ImapSettings :=
  {| server := None; use_ssl := false; port := IMAP4_PORT; user := None; password := None;
     folder := None; trash := None |}.

(** The accounts table built by [Settings.parse]: id -> [user, password]. *)
Definition Accounts : Type := gmap string (string * string).

Definition DEFAULT_FOLDER : string := Text.quoted "[Gmail]/Sent Mail".
Definition DEFAULT_TRASH : string := Text.quoted "[Gmail]/Trash".

Section Parse.

(** [int(v)] on a string: the integer it denotes, or [ValueError]. *)
Variable int : string -> option Z.

(** [os.path.dirname] *)
Variable dirname : string -> string.

(** [ImapSettings.parse(self, node, accounts)]: the object after the call.
    The attributes are assigned in the order of the text; the port is read
    before the account is looked up, so a bad port is the error reported
    when both are wrong.  A value of the table is a list of two strings,
    which is true, so [if account] always holds. *)
Definition ImapSettings_parse (self : ImapSettings) (node : Element) (accounts : Accounts)
  : Result ImapSettings :=
  let server := get node "server" in
  match (match get node "port" with
         | Some v => match int v with Some n => Ok n | None => Fail (ValueError v) end
         | None => Ok 143%Z
         end) with
  | Fail e => Fail e
  | Ok port =>
    let folder := match get node "folder" with Some v => v | None => DEFAULT_FOLDER end in
    let trash := match get node "trash" with Some v => v | None => DEFAULT_TRASH end in
    let use_ssl :=
      bool_decide (get node "ssl" = Some "True") || bool_decide (get node "ssl" = Some "true") in
    match get node "account-id" with
    | None => Fail (KeyError None)
    | Some account_id =>
      match accounts !! account_id with
      | None => Fail (KeyError (Some account_id))
      | Some (u, p) =>
        Ok {| server := server; use_ssl := use_ssl; port := port;
              user := Some u; password := Some p;
              folder := Some folder; trash := Some trash |}
      end
    end
  end.

(** The attributes of a [Settings] object; [log_path] and [log_level] have
    no class attribute and exist once assigned. *)
Record Settings := {
  source_server : option ImapSettings;
  target_server : option ImapSettings;
  path : option string;
  log_path : option string;
  log_level : option string;
}.

(** [Settings()] *)
Definition Settings_new : Settings :=
  {| source_server := None; target_server := None; path := None;
     log_path := None; log_level := None |}.

(** The loop over [accounts/account]: an element with the three attributes
    binds its id, the others are passed over. *)
Definition add_account (accounts : Accounts) (node : Element) : Accounts :=
  match get node "user", get node "password", get node "id" with
  | Some v1, Some v2, Some v3 => <[v3 := (v1, v2)]> accounts
  | _, _, _ => accounts
  end.

Definition accounts_of (root : Element) : Accounts :=
  fold_left add_account (findall_path "accounts" "account" root) ∅.

(** The [log] element, when there is one, replaces what it names. *)
Definition read_log (self : Settings) (root : Element) : Settings :=
  match find "log" root with
  | Some log_node =>
    {| source_server := source_server self; target_server := target_server self;
       path := path self;
       log_path := match get log_node "path" with Some v => Some v | None => log_path self end;
       log_level := match get log_node "level" with Some v => Some v | None => log_level self end |}
  | None => self
  end.

Definition NO_SOURCE : string :=
  "No source imap element specified in the XML configuration, refer to the XML schema".
Definition NO_TARGET : string :=
  "No target imap element specified in the XML configuration, refer to the XML schema".

(** [Settings.parse(self, path)], given what [etree.parse] makes of the
    file at [path] ([None] when the file cannot be opened or is not
    well-formed). *)
Definition Settings_parse (self : Settings) (path_arg : string) (document : option Element)
  : Result Settings :=
  match document with
  | None => Fail ReadError
  | Some root =>
    let self := read_log self root in
    let accounts := accounts_of root in
    match find "source" root with
    | None => Fail (IOError NO_SOURCE)
    | Some imap_node =>
      match ImapSettings_parse ImapSettings_new imap_node accounts with
      | Fail e => Fail e
      | Ok src =>
        match find "target" root with
        | None => Fail (IOError NO_TARGET)
        | Some imap_node =>
          match ImapSettings_parse ImapSettings_new imap_node accounts with
          | Fail e => Fail e
          | Ok tgt =>
            Ok {| source_server := Some src; target_server := Some tgt;
                  path := Some (dirname path_arg);
                  log_path := log_path self; log_level := log_level self |}
          end
        end
      end
    end
  end.

End Parse.

End Config.

(** *** Notions used to state the properties of the configuration *)

(** The [account] element [node] defines the account [k]: it has the three
    attributes and its id is [k]. *)
Definition defines_account (k : string) (node : Config.Element) : bool :=
  bool_decide (is_Some (Config.get node "user")) &&
  bool_decide (is_Some (Config.get node "password")) &&
  bool_decide (Config.get node "id" = Some k).

(** The user and password an [account] element gives. *)
Definition credentials (node : Config.Element) : option (string * string) :=
  match Config.get node "user", Config.get node "password" with
  | Some u, Some p => Some (u, p)
  | _, _ => None
  end.

(** The [account] elements of a document, in document order. *)
Definition account_elements (root : Config.Element) : list Config.Element :=
  Config.findall_path "accounts" "account" root.

(** The element that decides what the account [k] is: the last one that
    defines it. *)
Definition account_element (k : string) (root : Config.Element) : option Config.Element :=
  last (List.filter (defines_account k) (account_elements root)).

(** A [source] or [target] element [parse] accepts: a port, when given,
    that [int] reads, and an [account-id] that names a defined account. *)
Definition server_element_ok (int : string -> option Z) (root node : Config.Element) : Prop :=
  (forall v, Config.get node "port" = Some v -> is_Some (int v)) /\
  exists k, Config.get node "account-id" = Some k /\ is_Some (account_element k root).

(** The tag of the element that configures a side, and the attribute of
    the settings object that holds what [parse] made of it. *)
Definition element_tag (p : Who) : string :=
  match p with Source => "source" | Target => "target" end.

Definition parsed_server (p : Who) (s : Config.Settings) : option Config.ImapSettings :=
  match p with Source => Config.source_server s | Target => Config.target_server s end.

(** A reading of decimal numerals, to run [parse] on samples. *)
Definition int_of_digits (s : string) : option Z := Z.of_nat <$> Text.nat_of_str s.

(** A sample document: two definitions of the account [a1], an incomplete
    account [a2], a source that relies on the defaults and a target. *)
Definition demo_document : Config.Element :=
  Config.Elem "configuration" ∅
    [Config.Elem "log" (<["level" := "DEBUG"]> ∅) [];
     Config.Elem "accounts" ∅
       [Config.Elem "account"
          (<["id" := "a1"]> (<["user" := "alice"]> (<["password" := "first"]> ∅))) [];
        Config.Elem "account" (<["id" := "a2"]> (<["user" := "bob"]> ∅)) [];
        Config.Elem "account"
          (<["id" := "a1"]> (<["user" := "alice"]> (<["password" := "second"]> ∅))) []];
     Config.Elem "source" (<["server" := "imap.source.example"]> (<["account-id" := "a1"]> ∅)) [];
     Config.Elem "target"
       (<["server" := "imap.target.example"]>
          (<["port" := "993"]> (<["ssl" := "true"]> (<["folder" := "Archive"]>
             (<["account-id" := "a1"]> ∅))))) []].

(** A document whose source names the account that lacks a password. *)
Definition demo_document_incomplete : Config.Element :=
  Config.Elem "configuration" ∅
    [Config.Elem "accounts" ∅
       [Config.Elem "account"
          (<["id" := "a1"]> (<["user" := "alice"]> (<["password" := "first"]> ∅))) [];
        Config.Elem "account" (<["id" := "a2"]> (<["user" := "bob"]> ∅)) []];
     Config.Elem "source" (<["server" := "imap.source.example"]> (<["account-id" := "a2"]> ∅)) [];
     Config.Elem "target" (<["server" := "imap.target.example"]> (<["account-id" := "a1"]> ∅)) []].

(** The settings object of the script before [parse] (lines 214-216). *)
Definition demo_settings_object : Config.Settings :=
  {| Config.source_server := None; Config.target_server := None; Config.path := None;
     Config.log_path := Some "/etc/imap_move/conf.log"; Config.log_level := Some "INFO" |}.

(** ** The command line (lines 200-213) *)

(** [posixpath]: the path functions the script calls, on a POSIX system. *)
Module Posix.

(** [s.rfind(c)]: the highest index of [c], or -1. *)
Fixpoint rfind (c : ascii) (s : string) : Z :=
  match s with
  | EmptyString => -1
  | String a s' =>
    let r := rfind c s' in
    if (0 <=? r)%Z then (r + 1)%Z else if Ascii.eqb a c then 0%Z else (-1)%Z
  end.

(** The loop of [genericpath._splitext] that skips the leading dots: are
    the [n] characters from index [i] on all dots? *)
Fixpoint only_dots (n i : nat) (p : string) : bool :=
  match n with
  | O => true
  | S n' =>
    match String.get i p with
    | Some c => if Ascii.eqb c "."%char then only_dots n' (S i) p else false
    | None => false
    end
  end.

(** [s[:i]] and [s[i:]] for an index within the string. *)
Definition upto (i : nat) (s : string) : string := String.substring 0 i s.
Definition from (i : nat) (s : string) : string := String.substring i (String.length s - i) s.

(** [os.path.splitext(p)] *)
Definition splitext (p : string) : string * string :=
  let sepIndex := rfind "/"%char p in
  let dotIndex := rfind "."%char p in
  if (sepIndex <? dotIndex)%Z then
    if only_dots (Z.to_nat (dotIndex - (sepIndex + 1))) (Z.to_nat (sepIndex + 1)) p
    then (p, EmptyString)
    else (upto (Z.to_nat dotIndex) p, from (Z.to_nat dotIndex) p)
  else (p, EmptyString).

(** [s.rstrip(c)] *)
Fixpoint rstrip (c : ascii) (s : string) : string :=
  match s with
  | EmptyString => EmptyString
  | String a s' =>
    match rstrip c s' with
    | EmptyString => if Ascii.eqb a c then EmptyString else String a EmptyString
    | r => String a r
    end
  end.

(** [os.path.dirname(p)] *)
Definition dirname (p : string) : string :=
  let i := (rfind "/"%char p + 1)%Z in
  let head := upto (Z.to_nat i) p in
  if negb (String.eqb head EmptyString) && negb (all_chars (Ascii.eqb "/"%char) head)
  then rstrip "/"%char head
  else head.

(** [os.path.basename(p)] *)
Definition basename (p : string) : string :=
  from (Z.to_nat (rfind "/"%char p + 1)) p.

End Posix.

(** [if s.startswith(q) and s.endswith(q): s = s[1:-1]] *)
Definition strip_quotes (q : ascii) (s : string) : string :=
  if Text.ends_are q q s then
    match s with
    | String _ s' => match Text.chop_last s' with Some (t, _) => t | None => EmptyString end
    | EmptyString => EmptyString
    end
  else s.

(** Lines 201-204 for [LOG_LEVEL] and 206-209 for [CONFIG_PATH]: double
    quotes are taken off first, single quotes after. *)
Definition unquoted (s : string) : string :=
  strip_quotes "'"%char (strip_quotes Text.DQUOTE s).

(** Lines 205-212: the path of the configuration file, for the value of
    [-f], given what [os.path.exists] answers and the directory of the
    script. *)
Definition CONFIG_PATH (path_exists : string -> bool) (script_dir : string) (f : string)
  : string :=
  let p := unquoted f in
  if path_exists p then p else String.append script_dir (String.append "/" p).

(** Line 213 *)
Definition LOG_PATH (config_path : string) : string :=
  String.append (fst (Posix.splitext config_path)) ".log".

(** The string within single quotes. *)
Definition single_quoted (s : string) : string :=
  String "'" (String.append s "'").

(** A character that is neither the dot nor the slash. *)
Definition plain_char (c : ascii) : bool :=
  negb (Ascii.eqb c "."%char) && negb (Ascii.eqb c "/"%char).

(** ** Notions used to state the properties of the whole script *)








(** The logger is not enabled for DEBUG. *)
Definition above_debug (w : World) : Prop :=
  exists lg, logger w = Some lg /\ (DEBUG < level lg)%Z.

(** With a logger that is not enabled for DEBUG, the logger stays so and
    no LIST command is sent. *)
Definition no_listing (w w' : World) : Prop :=
  above_debug w ->
  above_debug w' /\
  exists evs, wire w' = wire w ++ evs /\ Forall (fun e => ev_cmd e <> LIST) evs.

(** A logger that is bound stays bound. *)
Definition logger_stays (w w' : World) : Prop :=
  is_Some (logger w) -> is_Some (logger w').

(** The exceptions of [imaplib]. *)
Definition imap_failure (e : Exn) : Prop :=
  (exists why, e = IMAP4_error why) \/ e = IMAP4_abort.

(** *** Healthy sessions *)

(** The globals that are not sessions: the settings, a logger at level
    [lvl], the tally. *)
Definition globals (w : World) (cfg : Settings) (lvl : Z) (c : Z) : Prop :=
  settings w = cfg /\
  (exists lg, logger w = Some lg /\ level lg = lvl) /\
  count w = c.

(** Session [p] and its server: the session object, the mailboxes, the
    mailbox selected, whether the connection is up; the server has no
    fault in store. *)
Definition side (p : Who) (w : World) (m : option IMAP4)
  (boxes : gmap string (list Message)) (sel : option string) (up : bool) : Prop :=
  mailbox p w = m /\
  sv_boxes (host p w) = boxes /\
  sv_selected (host p w) = sel /\
  sv_up (host p w) = up /\
  sv_faults (host p w) = [].

(** Session [q] and its server are as they were. *)
Definition unchanged (q : Who) (w w' : World) : Prop :=
  mailbox q w' = mailbox q w /\ host q w' = host q w.

(** The message [APPEND] makes of [m]: its flags and date, its text with
    the line ends normalised. *)
Definition copy_of (m : Message) : Message :=
  {| msg_body := Text.MapCRLF_sub (msg_body m);
     msg_flags := msg_flags m;
     msg_date := msg_date m |}.

(** The working folder when the first [k] messages have been moved. *)
Definition moved (k : nat) (msgs : list Message) : list Message :=
  (add_flags [Deleted] <$> take k msgs) ++ drop k msgs.










(** The sample process in front of a source that refuses the login. *)
Definition demo_start_refused : World :=
  boot demo_settings INFO (fun _ => (-7200)%Z)
       (idle_server demo_source_boxes [FNo "[AUTHENTICATIONFAILED] Invalid credentials"])
       (idle_server demo_target_boxes []).

(** *** The folder listing *)

(** [sep in s] *)
Fixpoint occurs (sep s : string) : bool :=
  match Text.strip_prefix sep s with
  | Some _ => true
  | None =>
    match s with
    | EmptyString => false
    | String _ s' => occurs sep s'
    end
  end.

(** An element of the LIST data the listing loop can print: a line with
    the delimiter [ "/" ] in it. *)
Definition listed (i : Item) : bool :=
  match i with
  | IBytes s => occurs Text.list_delimiter s
  | _ => false
  end.

(** What the listing shows of a folder of the model server. *)
Definition folder_entry (name : string) : string :=
  String.append "(\HasNoChildren) = " (String.append name NL).

(** The entries of the folders, in the order of the listing. *)
Definition folder_entries (names : list string) : string :=
  foldr (fun name rest => String.append (folder_entry name) rest) EmptyString names.

(** A character other than the space. *)
Definition not_space (c : ascii) : bool := negb (Ascii.eqb " "%char c).

(** The sample source session once logged in, with a logger at DEBUG. *)
Definition demo_logged_in : World :=
  set_mailbox Source (Some {| state := St_AUTH |})
    (boot demo_settings DEBUG (fun _ => (-7200)%Z)
       (with_up true (idle_server demo_source_boxes [])) (idle_server demo_target_boxes [])).

(** Lines 285: the report after the loop. *)
Definition report : M unit :=
  let* c := gets count in log INFO "%s messages moved" [Text.str_of_Z c].
(** * Properties *)

(** ** The server *)

Lemma peek_items : parse_flag_list PEEK_PARTS = ["FLAGS"; "INTERNALDATE"; "BODY.PEEK[]"].
Proof. reflexivity. Qed.


(** A FETCH with [BODY.PEEK[]] changes no mailbox. *)
Lemma serve_fetch_peek set sv :
  sv_boxes (serve (FETCH set PEEK_PARTS) sv).2 = sv_boxes sv.
Proof.
  unfold serve, in_selected. rewrite peek_items.
  destruct (sv_selected sv) as [mb|] eqn:Hsel; [|reflexivity].
  destruct (sv_boxes sv !! mb) as [msgs|] eqn:Hbox; [|reflexivity].
  destruct (parse_set (length msgs) set); [|reflexivity].
  simpl. by apply insert_id.
Qed.

(** ** The monad *)

Lemma bind_inv {A B} (m : M A) (k : A -> M B) w r w' :
  bind m k w = (r, w') ->
  (exists e, m w = (Raise e, w') /\ r = Raise e) \/
  (exists a w1, m w = (Ret a, w1) /\ k a w1 = (r, w')).
Proof.
  unfold bind. destruct (m w) as [[a|e] w1]; intros H.
  - right. eauto.
  - left. inversion H; subst. eauto.
Qed.

Lemma bind_ret_eq {A B} (m : M A) (k : A -> M B) w a w1 :
  m w = (Ret a, w1) -> bind m k w = k a w1.
Proof. unfold bind. intros ->. reflexivity. Qed.

Lemma bind_raise_eq {A B} (m : M A) (k : A -> M B) w e w1 :
  m w = (Raise e, w1) -> bind m k w = (Raise e, w1).
Proof. unfold bind. intros ->. reflexivity. Qed.

Lemma set_logger_id w : set_logger (logger w) w = w.
Proof. by destruct w. Qed.

Lemma set_host_id p w : set_host p (host p w) w = w.
Proof. by destruct w, p. Qed.

Lemma logger_only_refl w : logger_only w w.
Proof. exists (logger w). by rewrite set_logger_id. Qed.

Lemma logger_only_trans w1 w2 w3 : logger_only w1 w2 -> logger_only w2 w3 -> logger_only w1 w3.
Proof. intros [l1 ->] [l2 ->]. by exists l2. Qed.

(** ** Computations that keep a relation *)

Section Keeps.

Variable R : World -> World -> Prop.
Hypothesis R_refl : forall w, R w w.
Hypothesis R_trans : forall w1 w2 w3, R w1 w2 -> R w2 w3 -> R w1 w3.

Lemma keeps_ret {A} (a : A) : keeps R (ret a).
Proof. intros w. apply R_refl. Qed.

Lemma keeps_raise {A} e : keeps R (@raise A e).
Proof. intros w. apply R_refl. Qed.

Lemma keeps_gets {A} (f : World -> A) : keeps R (gets f).
Proof. intros w. apply R_refl. Qed.

Lemma keeps_bind {A B} (m : M A) (k : A -> M B) :
  keeps R m -> (forall a, keeps R (k a)) -> keeps R (bind m k).
Proof.
  intros Hm Hk w. unfold bind. specialize (Hm w).
  destruct (m w) as [[a|e] w1]; simpl in *; [|exact Hm].
  eapply R_trans; [exact Hm | apply Hk].
Qed.

Lemma keeps_finally {A} (m : M A) (h : M unit) :
  keeps R m -> keeps R h -> keeps R (finally m h).
Proof.
  intros Hm Hh w. unfold finally. specialize (Hm w).
  destruct (m w) as [r w1]; simpl in *. specialize (Hh w1).
  destruct (h w1) as [[[]|e] w2]; simpl in *; eapply R_trans; eauto.
Qed.

Lemma keeps_the_mailbox p : keeps R (the_mailbox p).
Proof. intros w. unfold the_mailbox. destruct (mailbox p w); apply R_refl. Qed.

Lemma keeps_isEnabledFor lvl : keeps R (isEnabledFor lvl).
Proof. intros w. unfold isEnabledFor. destruct (logger w); apply R_refl. Qed.

Lemma keeps_index {A} (l : list A) i : keeps R (index l i).
Proof. unfold index. destruct (l !! i); [apply keeps_ret | apply keeps_raise]. Qed.

Lemma keeps_subscript x i : keeps R (subscript x i).
Proof.
  unfold subscript. destruct x as [|s|h lit].
  - apply keeps_raise.
  - destruct (i <? String.length s)%nat; [apply keeps_ret | apply keeps_raise].
  - destruct i as [|[|i]]; [apply keeps_ret | apply keeps_ret | apply keeps_raise].
Qed.

Lemma keeps_bytes_split x : keeps R (bytes_split x).
Proof. destruct x; simpl; [apply keeps_raise | apply keeps_ret | apply keeps_raise]. Qed.

Lemma keeps_decode x : keeps R (decode x).
Proof. destruct x; simpl; [apply keeps_raise | apply keeps_ret | apply keeps_raise]. Qed.

Lemma keeps_ParseFlags v : keeps R (ParseFlags v).
Proof. destruct v; simpl; [apply keeps_raise | apply keeps_ret | apply keeps_ret]. Qed.

Lemma keeps_localtime t : keeps R (localtime t).
Proof. unfold localtime. apply keeps_bind; [apply keeps_gets | intros; apply keeps_ret]. Qed.

Lemma keeps_Internaldate2tuple v : keeps R (Internaldate2tuple v).
Proof.
  destruct v as [|s|h]; simpl; [apply keeps_raise | apply keeps_ret |].
  destruct (h_date h) as [d|]; [|apply keeps_ret].
  destruct (date_shown d); [|apply keeps_ret].
  destruct (id_wall d <? YEAR_1)%Z; [apply keeps_raise|].
  apply keeps_bind; [apply keeps_localtime | intros; apply keeps_ret].
Qed.

Lemma keeps_Time2Internaldate d : keeps R (Time2Internaldate d).
Proof.
  destruct d as [|t|d]; simpl; [apply keeps_raise | | apply keeps_ret].
  destruct (_ && _); [apply keeps_ret | apply keeps_raise].
Qed.

(** A log call keeps a relation that allows the record it adds. *)
Lemma keeps_log lvl msg args :
  (forall w lg, logger w = Some lg ->
                R w (set_logger (Some (handle lg (record lvl msg args))) w)) ->
  keeps R (log lvl msg args).
Proof.
  intros HR w. unfold log. destruct (logger w) as [lg|] eqn:Hl; [|apply R_refl].
  destruct (level lg <=? lvl)%Z; simpl; [by apply HR | apply R_refl].
Qed.

Lemma keeps_modify f : (forall w, R w (f w)) -> keeps R (modify f).
Proof. intros HR w. apply HR. Qed.

Lemma keeps_inv {A} (m : M A) w r w' : keeps R m -> m w = (r, w') -> R w w'.
Proof. intros Hk He. specialize (Hk w). by rewrite He in Hk. Qed.

(** Given what one command on the wire does to the relation, the
    [_simple_command] built on it. *)
Lemma keeps_simple_command p c :
  keeps R (exchange p c) -> keeps R (simple_command p c).
Proof.
  intros R_exchange.
  unfold simple_command. apply keeps_bind; [apply keeps_the_mailbox|].
  intros m. destruct (allowed c (state m)); [|apply keeps_raise].
  apply keeps_bind; [exact R_exchange|].
  intros r. destruct (r_typ r); [apply keeps_ret | apply keeps_ret | apply keeps_raise].
Qed.

Lemma keeps_method p c (f : Reply -> Typ * list Item) :
  keeps R (exchange p c) -> keeps R (let* r := simple_command p c in ret (f r)).
Proof.
  intros He. apply keeps_bind; [by apply keeps_simple_command | intros; apply keeps_ret].
Qed.

Lemma keeps_fetch p set parts :
  keeps R (exchange p (FETCH set parts)) -> keeps R (fetch p set parts).
Proof. apply keeps_method. Qed.

Lemma keeps_search p crit : keeps R (exchange p (SEARCH crit)) -> keeps R (search p crit).
Proof. apply keeps_method. Qed.

Lemma keeps_expunge p : keeps R (exchange p EXPUNGE) -> keeps R (expunge p).
Proof. apply keeps_method. Qed.

Lemma keeps_imap_list p : keeps R (exchange p LIST) -> keeps R (imap_list p).
Proof. apply keeps_method. Qed.

Lemma keeps_store p set command flags :
  (forall fl, keeps R (exchange p (STORE set command fl))) ->
  keeps R (store p set command flags).
Proof. intros He. unfold store. apply keeps_method, He. Qed.

Lemma keeps_append p mb fl d msg :
  (forall mb fl d lit, keeps R (exchange p (APPEND mb fl d lit))) ->
  keeps R (append p mb fl d msg).
Proof.
  intros He. unfold append. apply keeps_bind.
  - destruct d; try apply keeps_ret;
      (apply keeps_bind; [apply keeps_Time2Internaldate | intros; apply keeps_ret]).
  - intros dt. destruct msg; try apply keeps_raise. apply keeps_method, He.
Qed.

(** The relations of interest allow the script to log some formats, to
    rebind a session object, to close a socket and to count. *)
Variable logged : string -> Prop.
Hypothesis R_log : forall lvl msg args w lg,
  logged msg -> logger w = Some lg ->
  R w (set_logger (Some (handle lg (record lvl msg args))) w).
Hypothesis R_mailbox : forall p m w, R w (set_mailbox p m w).
Hypothesis R_down : forall p w, R w (set_host p (with_up false (host p w)) w).
Hypothesis R_count : forall c w, R w (set_count c w).

Lemma keeps_logged lvl msg args : logged msg -> keeps R (log lvl msg args).
Proof. intros Hm. apply keeps_log. intros w lg. by apply R_log. Qed.

Lemma keeps_set_state p s : keeps R (set_state p s).
Proof. apply keeps_modify. intros w. apply R_mailbox. Qed.

Lemma keeps_select p mb : keeps R (exchange p (SELECT mb)) -> keeps R (select p mb).
Proof.
  intros He. unfold select. apply keeps_bind; [by apply keeps_simple_command|].
  intros r. destruct (r_typ r);
    (apply keeps_bind; [apply keeps_set_state | intros; apply keeps_ret]).
Qed.

Lemma keeps_close p : keeps R (exchange p CLOSE) -> keeps R (close p).
Proof.
  intros He. unfold close. apply keeps_bind; [apply keeps_the_mailbox|]. intros _.
  apply keeps_finally; [by apply keeps_method | apply keeps_set_state].
Qed.

Lemma keeps_shutdown p : keeps R (shutdown p).
Proof. intros w. apply R_down. Qed.

Lemma keeps_logout p : keeps R (exchange p LOGOUT) -> keeps R (logout p).
Proof.
  intros He. unfold logout. apply keeps_bind; [apply keeps_the_mailbox|]. intros _.
  apply keeps_bind; [apply keeps_set_state|]. intros _.
  apply keeps_bind; [by apply keeps_simple_command|]. intros r.
  apply keeps_bind; [apply keeps_shutdown | intros; apply keeps_ret].
Qed.

Lemma keeps_cleanup_session p label :
  logged label -> logged "Closing..." ->
  keeps R (exchange p EXPUNGE) -> keeps R (exchange p CLOSE) -> keeps R (exchange p LOGOUT) ->
  keeps R (cleanup_session p label).
Proof.
  intros Hl Hc He1 He2 He3. unfold cleanup_session.
  apply keeps_bind; [apply keeps_gets|]. intros [|]; [|apply keeps_ret].
  apply keeps_bind; [apply keeps_gets|]. intros has_logger.
  apply keeps_bind.
  { destruct has_logger; [|apply keeps_ret].
    apply keeps_bind; [apply keeps_the_mailbox|]. intros m. by apply keeps_logged. }
  intros _. apply keeps_bind; [apply keeps_the_mailbox|]. intros m.
  destruct (String.eqb _ _); [|apply keeps_ret].
  apply keeps_bind; [by apply keeps_logged|]. intros _.
  apply keeps_bind; [by apply keeps_expunge|]. intros _.
  apply keeps_bind; [by apply keeps_close|]. intros _.
  apply keeps_bind; [by apply keeps_logout|]. intros _. apply keeps_ret.
Qed.

Lemma keeps_cleanup :
  logged "Cleaning..." -> logged "Source IMAP session state: %s" ->
  logged "Target IMAP session state: %s" -> logged "Closing..." ->
  (forall p, keeps R (exchange p EXPUNGE)) -> (forall p, keeps R (exchange p CLOSE)) ->
  (forall p, keeps R (exchange p LOGOUT)) ->
  keeps R cleanup.
Proof.
  intros H1 H2 H3 H4 He1 He2 He3. unfold cleanup.
  apply keeps_bind; [by apply keeps_logged|]. intros _.
  apply keeps_bind; [by apply keeps_cleanup_session|]. intros _.
  by apply keeps_cleanup_session.
Qed.

Lemma keeps_transfer_one num :
  logged "Fetching message: %s" -> logged "Retrieving flags" ->
  logged "Retrieving internal date" -> logged "Moving message to folder: %s" ->
  (forall set parts, keeps R (exchange Source (FETCH set parts))) ->
  (forall mb fl d lit, keeps R (exchange Target (APPEND mb fl d lit))) ->
  (forall set command fl, keeps R (exchange Source (STORE set command fl))) ->
  keeps R (transfer_one num).
Proof.
  intros H1 H2 H3 H4 He1 He2 He3. unfold transfer_one.
  apply keeps_bind; [apply keeps_gets|]. intros cfg.
  apply keeps_bind; [by apply keeps_logged|]. intros _.
  apply keeps_bind; [by apply keeps_fetch|]. intros [resp data].
  apply keeps_bind; [apply keeps_index|]. intros d0.
  apply keeps_bind; [apply keeps_subscript|]. intros message.
  apply keeps_bind; [by apply keeps_logged|]. intros _.
  apply keeps_bind; [apply keeps_index|]. intros d1.
  apply keeps_bind; [apply keeps_subscript|]. intros line.
  apply keeps_bind; [apply keeps_ParseFlags|]. intros flags.
  apply keeps_bind; [by apply keeps_logged|]. intros _.
  apply keeps_bind; [apply keeps_index|]. intros d2.
  apply keeps_bind; [apply keeps_subscript|]. intros line'.
  apply keeps_bind; [apply keeps_Internaldate2tuple|]. intros tt_local.
  apply keeps_bind; [apply keeps_Time2Internaldate|]. intros date.
  apply keeps_bind; [by apply keeps_logged|]. intros _.
  apply keeps_bind; [by apply keeps_append|]. intros ar.
  destruct (String.eqb _ _); [|apply keeps_ret].
  apply keeps_bind; [apply keeps_gets|]. intros c.
  apply keeps_bind; [apply keeps_modify; intros; apply R_count|]. intros _.
  apply keeps_bind; [by apply keeps_store|]. intros _. apply keeps_ret.
Qed.

Lemma keeps_transfer_loop nums :
  logged "Fetching message: %s" -> logged "Retrieving flags" ->
  logged "Retrieving internal date" -> logged "Moving message to folder: %s" ->
  (forall set parts, keeps R (exchange Source (FETCH set parts))) ->
  (forall mb fl d lit, keeps R (exchange Target (APPEND mb fl d lit))) ->
  (forall set command fl, keeps R (exchange Source (STORE set command fl))) ->
  keeps R (transfer_loop nums).
Proof.
  intros H1 H2 H3 H4 He1 He2 He3.
  induction nums as [|num rest IH]; simpl; [apply keeps_ret|].
  apply keeps_bind; [by apply keeps_transfer_one | intros; exact IH].
Qed.


End Keeps.

(** ** One command on the wire *)

Lemma serve_with_faults c fs sv : same_mail (serve c (with_faults fs sv)).2 (serve c sv).2.
Proof.
  destruct c; simpl; unfold in_selected; simpl; try (split; reflexivity).
  all: repeat (match goal with |- context [match ?x with _ => _ end] => destruct x eqn:? end;
               simpl; try (split; reflexivity)).
Qed.

(** A command leaves the other host alone and leaves its own host either
    with its mail as it was or with its mail as [serve] leaves it. *)
Lemma exchange_effect p c w :
  host (other p) (exchange p c w).2 = host (other p) w /\
  (same_mail (host p (exchange p c w).2) (host p w) \/
   same_mail (host p (exchange p c w).2) (serve c (host p w)).2).
Proof.
  unfold exchange.
  destruct (sv_up (host p w)).
  2:{ simpl. split; [reflexivity|]. left. split; reflexivity. }
  unfold next_fault.
  destruct (sv_faults (host p w)) as [|f fs].
  - destruct (serve c (host p w)) as [r sv2] eqn:Hs. simpl.
    split; destruct p; simpl; try reflexivity; right; split; reflexivity.
  - pose proof (serve_with_faults c fs (host p w)) as Hf.
    destruct f; simpl.
    + destruct (serve c (with_faults fs (host p w))) as [r sv2] eqn:Hs. simpl in *.
      split; destruct p; simpl; try reflexivity; right; exact Hf.
    + split; destruct p; simpl; try reflexivity; left; split; reflexivity.
    + split; destruct p; simpl; try reflexivity; left; split; reflexivity.
    + split; destruct p; simpl; try reflexivity; left; split; reflexivity.
    + destruct (serve c (with_faults fs (host p w))) as [r sv2] eqn:Hs. simpl in *.
      split; destruct p; simpl; try reflexivity; right; exact Hf.
Qed.

(** The world after [_simple_command]: the world before when nothing was
    sent, else the world before with one more event and the host as the
    exchange left it. *)
Lemma simple_command_inv p c w r w' :
  simple_command p c w = (r, w') ->
  (w' = w /\ exists e, r = Raise e) \/
  (exists o sv, w' = add_event (event p c o) (set_host p sv w) /\
                outcome_of (typ_of_res r_typ r) o).
Proof.
  unfold simple_command, bind, the_mailbox.
  destruct (mailbox p w) as [m|]; [|intros [= <- <-]; eauto].
  destruct (allowed c (state m)); [|intros [= <- <-]; eauto].
  unfold exchange.
  destruct (sv_up (host p w)).
  2:{ intros [= <- <-]. right. exists Dropped, (host p w). rewrite set_host_id.
      split; [reflexivity|]. split; congruence. }
  destruct (next_fault (host p w)) as [f sv1].
  destruct f.
  - destruct (serve c sv1) as [rep sv2].
    destruct (r_typ rep) eqn:Ht; unfold ret, raise; intros [= <- <-]; right;
      exists (Answered (r_typ rep)), sv2; rewrite Ht; (split; [reflexivity|]);
      simpl; rewrite ?Ht; split; congruence.
  - unfold ret. intros [= <- <-]. right. exists (Answered NO), sv1.
    split; [reflexivity|]. simpl. split; congruence.
  - unfold raise. intros [= <- <-]. right. exists (Answered BAD), sv1.
    split; [reflexivity|]. simpl. split; congruence.
  - intros [= <- <-]. right. exists Dropped, (with_up false sv1).
    split; [reflexivity|]. simpl. split; congruence.
  - destruct (serve c sv1) as [rep sv2]. intros [= <- <-]. right.
    exists Lost, (with_up false sv2). split; [reflexivity|]. simpl. split; congruence.
Qed.

Lemma exchange_wire p c w :
  exists o, wire (exchange p c w).2 = wire w ++ [event p c o] /\
    match (exchange p c w).1 with
    | Ret rep => o = Answered (r_typ rep)
    | Raise _ => o = Dropped \/ o = Lost
    end.
Proof.
  unfold exchange.
  destruct (sv_up (host p w)); [|simpl; eauto].
  destruct (next_fault (host p w)) as [f sv1].
  destruct f; simpl; eauto; destruct (serve c sv1) as [r sv2]; simpl; eauto.
Qed.
(** ** The methods of [imaplib], seen from the world they leave *)

(** The methods that post-process [_simple_command] without touching the
    world. *)
Lemma method_inv p c (f : Reply -> Typ * list Item) w x w' :
  (forall rep, (f rep).1 = r_typ rep) ->
  (let* r := simple_command p c in ret (f r)) w = (x, w') ->
  (w' = w /\ exists e, x = Raise e) \/
  (exists o sv, w' = add_event (event p c o) (set_host p sv w) /\
                outcome_of (typ_of_res fst x) o).
Proof.
  intros Hf H. apply bind_inv in H as [(e & H & ->) | (rep & w1 & H & Hr)].
  - apply simple_command_inv in H. destruct H as [[-> _] | (o & sv & -> & Ho)]; [left; eauto|].
    right. exists o, sv. split; [reflexivity | exact Ho].
  - unfold ret in Hr. injection Hr as <- <-.
    apply simple_command_inv in H. destruct H as [[_ [e He]] | (o & sv & -> & Ho)]; [discriminate He|].
    right. exists o, sv. split; [reflexivity|]. simpl in *. by rewrite Hf.
Qed.

Lemma tagged_typ rep : (tagged rep).1 = r_typ rep.
Proof. reflexivity. Qed.

Lemma untagged_typ rep : (untagged_response rep).1 = r_typ rep.
Proof. unfold untagged_response, tagged. by destruct (r_typ rep). Qed.

Lemma fetch_inv p set parts w x w' :
  fetch p set parts w = (x, w') ->
  (w' = w /\ exists e, x = Raise e) \/
  (exists o sv, w' = add_event (event p (FETCH set parts) o) (set_host p sv w) /\
                outcome_of (typ_of_res fst x) o).
Proof. apply method_inv, untagged_typ. Qed.


Lemma expunge_inv p w x w' :
  expunge p w = (x, w') ->
  (w' = w /\ exists e, x = Raise e) \/
  (exists o sv, w' = add_event (event p EXPUNGE o) (set_host p sv w) /\
                outcome_of (typ_of_res fst x) o).
Proof. apply method_inv, untagged_typ. Qed.

Lemma store_deleted_inv p set w x w' :
  store p set "+FLAGS" Deleted w = (x, w') ->
  (w' = w /\ exists e, x = Raise e) \/
  (exists o sv, w' = add_event (event p (STORE set "+FLAGS" "(\Deleted)") o) (set_host p sv w) /\
                outcome_of (typ_of_res fst x) o).
Proof. apply method_inv, untagged_typ. Qed.

Lemma date_argument_pure (d : PyDate) w :
  ((match d with
    | DNone => ret None
    | d => let* s := Time2Internaldate d in ret (Some s)
    end) w).2 = w.
Proof.
  destruct d as [|t|d]; [reflexivity| |reflexivity].
  unfold bind, Time2Internaldate. destruct (_ && _); reflexivity.
Qed.

Lemma append_inv mb fl d msg w x w' :
  append Target mb fl d msg w = (x, w') ->
  (w' = w /\ exists e, x = Raise e) \/
  (exists a sv, w' = add_event a (set_host Target sv w) /\ is_append a /\
                outcome_of (typ_of_res fst x) (ev_out a)).
Proof.
  unfold append. intros H.
  apply bind_inv in H as [(e & H & ->) | (dt & w1 & H & Hr)].
  - left. split; [|eauto]. pose proof (date_argument_pure d w) as Hp.
    rewrite H in Hp. exact Hp.
  - assert (w1 = w) as ->.
    { pose proof (date_argument_pure d w) as Hp. rewrite H in Hp. exact Hp. }
    destruct msg; try (unfold raise in Hr; injection Hr as <- <-; left; eauto).
    apply method_inv in Hr as [?|(o & sv & -> & Ho)]; [by left| |apply tagged_typ].
    right. eexists _, sv. split; [reflexivity|]. split; [|exact Ho].
    split; [reflexivity|]. simpl. eauto.
Qed.

Lemma fetch_no_data p set parts w data w' :
  fetch p set parts w = (Ret (NO, data), w') -> exists t, data = [IBytes t].
Proof.
  unfold fetch. intros H.
  apply bind_inv in H as [(e & H & [=]) | (rep & w1 & H & Hr)].
  unfold ret, untagged_response, tagged in Hr.
  destruct (r_typ rep) eqn:Ht; inversion Hr; subst; eauto.
Qed.

(** ** The trace of the loop *)

Lemma guarded_nil : guarded [].
Proof. intros pre e post ? ? ? H. by destruct pre. Qed.

Lemma guarded_app e1 e2 : guarded e1 -> guarded e2 -> guarded (e1 ++ e2).
Proof.
  intros H1 H2 pre e post num c f Heq Hc.
  apply app_eq_inv in Heq as [(k & -> & Hk) | (k & -> & Hk)].
  - destruct k as [|e' k']; simpl in Hk.
    + subst e2. destruct (H2 [] e post num c f eq_refl Hc) as (pre' & a & Hp & _).
      by destruct pre' as [|? [|? ?]].
    + injection Hk as <- ->. eapply H1; eauto.
  - destruct (H2 k e post num c f Hk Hc) as (pre' & a & -> & Ha).
    exists (e1 ++ pre'), a. by rewrite app_assoc.
Qed.

Lemma is_append_not_store a num c f : is_append a -> ev_cmd a <> STORE num c f.
Proof. intros [_ (mb & fl & d & lit & ->)]. discriminate. Qed.

Lemma guarded_iteration num evs d : iteration num evs d -> guarded evs.
Proof.
  intros Hi. destruct Hi; intros pre e post n c f Heq Hc.
  - by destruct pre.
  - destruct pre as [|? [|? ?]]; simplify_eq/=.
  - destruct pre as [|? [|? [|? ?]]]; simplify_eq/=.
    by eapply is_append_not_store in Hc.
  - destruct pre as [|? [|? pre]]; simplify_eq/=.
    + by eapply is_append_not_store in Hc.
    + destruct H1 as [H1|[o H1]]; [by destruct pre|].
      destruct pre as [|? [|? ?]]; simplify_eq/=.
      eexists [], _. eauto.
Qed.

Lemma guarded_iterations nums evs d : iterations nums evs d -> guarded evs.
Proof.
  induction 1; [apply guarded_nil|].
  apply guarded_app; [eapply guarded_iteration; eauto | assumption].
Qed.






Lemma delta_refl w : delta w w [] 0.
Proof. split; [by rewrite app_nil_r | lia]. Qed.

Lemma delta_logger w w1 w2 evs d : logger_only w1 w2 -> delta w w1 evs d -> delta w w2 evs d.
Proof. intros [l ->] [Hw Hc]. split; simpl; assumption. Qed.

Lemma delta_event w w1 evs d e sv p :
  delta w w1 evs d -> delta w (add_event e (set_host p sv w1)) (evs ++ [e]) d.
Proof. intros [Hw Hc]. split; simpl; [by rewrite Hw, app_assoc | assumption]. Qed.

Lemma delta_count w w1 evs d c :
  delta w w1 evs d -> delta w (set_count (count w1 + c) w1) evs (d + c).
Proof. intros [Hw Hc]. split; simpl; [assumption | lia]. Qed.

Lemma delta_trans w w1 w2 e1 d1 e2 d2 :
  delta w w1 e1 d1 -> delta w1 w2 e2 d2 -> delta w w2 (e1 ++ e2) (d1 + d2).
Proof. intros [Hw1 Hc1] [Hw2 Hc2]. split; [by rewrite Hw2, Hw1, app_assoc | lia]. Qed.

Ltac quiet :=
  first [ apply keeps_ret | apply keeps_raise | apply keeps_gets | apply keeps_index
        | apply keeps_subscript | apply keeps_ParseFlags | apply keeps_Internaldate2tuple
        | apply keeps_Time2Internaldate | apply keeps_log | apply keeps_bytes_split
        | apply keeps_isEnabledFor ];
  first [ exact logger_only_refl | exact logger_only_trans
        | by (intros; eexists) ].

(* H : bind m k w1 = (r, w'), m quiet, HD : delta w w1 evs d.
   Leaves the raise branch (H : logger_only w1 w', HD about w') and the
   return branch (HD about the next world, Hs : m w1 = (Ret x, w2)). *)
Ltac qstep H HD Hs :=
  apply bind_inv in H; destruct H as [(? & H & ->) | (? & ? & Hs & H)];
  [ eapply (keeps_inv logger_only) in H; [| solve [quiet]];
    apply (delta_logger _ _ _ _ _ H) in HD
  | pose proof Hs as Hq; eapply (keeps_inv logger_only) in Hq; [| solve [quiet]];
    apply (delta_logger _ _ _ _ _ Hq) in HD; clear Hq ].

Ltac pure_inv Hs :=
  unfold index, subscript, ParseFlags, Time2Internaldate, bytes_split in Hs;
  repeat case_match; unfold ret, raise in Hs; simplify_eq.

Ltac finish HD := eexists _, _; split; [exact HD | simpl; econstructor; eauto].

Lemma fetch_tuple_ok p set parts w resp data w' h lit :
  fetch p set parts w = (Ret (resp, data), w') -> data !! 0%nat = Some (ITuple h lit) -> resp = OK.
Proof.
  intros H Hd. destruct resp; [reflexivity| |].
  - apply fetch_no_data in H as [t ->]. discriminate.
  - apply fetch_inv in H as [[_ [? [=]]]|(o & sv & _ & [_ Hbad])]. by destruct Hbad.
Qed.

Lemma transfer_one_delta num w :
  exists evs d, delta w (transfer_one num w).2 evs d /\ iteration num evs d.
Proof.
  destruct (transfer_one num w) as [r w'] eqn:H. simpl. unfold transfer_one in H.
  pose proof (delta_refl w) as HD.
  qstep H HD Hs; [finish HD|]. clear Hs.
  qstep H HD Hs; [finish HD|]. clear Hs.
  apply bind_inv in H; destruct H as [(? & H & ->) | ([resp data] & w3 & Hs & H)].
  { apply fetch_inv in H as [[-> _]|(o & sv & -> & _)]; [finish HD|].
    apply (delta_event _ _ _ _ (fetch_ev num o) sv Source) in HD. finish HD. }
  pose proof Hs as Hfetch.
  apply fetch_inv in Hs as [[_ [? [=]]]|(o & sv & Hw3 & [-> Hbad])].
  apply (delta_event _ _ _ _ (fetch_ev num (Answered resp)) sv Source) in HD.
  change (add_event _ _) with
    (add_event (event Source (FETCH num "(FLAGS INTERNALDATE BODY.PEEK[])")
                  (Answered (resp, data).1)) (set_host Source sv x2)) in HD.
  rewrite <- Hw3 in HD. clear Hw3. simpl in HD, Hbad.
  (* message = data[0][1] *)
  qstep H HD Hs; [finish HD|]. pure_inv Hs.
  qstep H HD Hs; [finish HD|]. pure_inv Hs.
  (* flags *)
  all: qstep H HD Hs; [finish HD|]; clear Hs.
  all: qstep H HD Hs; [finish HD|]; pure_inv Hs.
  all: qstep H HD Hs; [finish HD|]; pure_inv Hs.
  all: qstep H HD Hs; [finish HD|]; pure_inv Hs.
  (* date *)
  all: qstep H HD Hs; [finish HD|]; clear Hs.
  all: qstep H HD Hs; [finish HD|]; pure_inv Hs.
  all: qstep H HD Hs; [finish HD|]; pure_inv Hs.
  all: qstep H HD Hs; [finish HD|]; clear Hs.
  all: qstep H HD Hs; [finish HD|]; clear Hs.
  all: qstep H HD Hs; [finish HD|]; clear Hs.
  all: assert (resp = OK) as -> by (eapply fetch_tuple_ok; eauto).
  all: apply bind_inv in H; destruct H as [(? & H & ->) | ([t dat] & w5 & Hs & H)].
  all: try (apply append_inv in H as [[-> _] | (a & sv' & -> & Ha & [Ho1 Ho2])]; [finish HD|];
            apply (delta_event _ _ _ _ a sv' Target) in HD; finish HD).
  all: apply append_inv in Hs; destruct Hs as [[_ [? ?]] | (a & sv' & -> & Ha & [Ho1 Ho2])];
       [discriminate|].
  all: apply (delta_event _ _ _ _ a sv' Target) in HD; simpl in Ho1, Ho2.
  all: destruct t; simpl in H; try (by destruct Ho2).
  all: try (unfold ret in H; injection H as <- <-; finish HD; congruence).
  (* the confirmed branch *)
  all: apply bind_inv in H; destruct H as [(? & H & ->) | (c & w6 & Hs & H)];
       [discriminate H|]; unfold gets in Hs; injection Hs as <- <-.
  all: apply bind_inv in H; destruct H as [(? & H & ->) | (? & w7 & Hs & H)];
       [discriminate H|]; unfold modify in Hs; simplify_eq.
  all: apply (delta_count _ _ _ _ 1) in HD; simpl in HD.
  all: apply bind_inv in H; destruct H as [(? & H & ->) | (? & w8 & Hs & H)].
  all: try (apply store_deleted_inv in H as [[-> _] | (o & sv2 & -> & _)]; [finish HD|];
            apply (delta_event _ _ _ _ (store_ev num o) sv2 Source) in HD; finish HD).
  all: apply store_deleted_inv in Hs; destruct Hs as [[_ [? ?]] | (o & sv2 & -> & _)];
       [discriminate|].
  all: apply (delta_event _ _ _ _ (store_ev num o) sv2 Source) in HD.
  all: unfold ret in H; injection H as <- <-; finish HD.
Qed.
(** ** The transfer loop: ordering and tally *)

Lemma transfer_loop_delta nums w :
  exists evs d, delta w (transfer_loop nums w).2 evs d /\ iterations nums evs d.
Proof.
  revert w. induction nums as [|num rest IH]; intros w; simpl.
  { exists [], 0%Z. split; [apply delta_refl | constructor]. }
  destruct (transfer_one_delta num w) as (e1 & d1 & HD1 & Hi1).
  unfold bind. destruct (transfer_one num w) as [[[]|e] w1]; simpl in *.
  - destruct (IH w1) as (e2 & d2 & HD2 & Hi2).
    exists (e1 ++ e2), (d1 + d2)%Z. split; [by eapply delta_trans | by constructor].
  - exists (e1 ++ []), (d1 + 0)%Z. split; [|by repeat constructor].
    rewrite app_nil_r, Z.add_0_r. exact HD1.
Qed.

(** C1. In the transfer loop, a STORE of [\Deleted] on an identifier is sent
    only right after the FETCH of that identifier and an APPEND to the
    target that was answered OK: whatever the servers answer and wherever
    the loop stops, every STORE among the commands it put on the wire has
    that FETCH and a confirmed APPEND immediately before it. *)
Theorem delete_mark_only_after_confirmed_append (nums : list string) (w : World) :
  exists evs,
    wire (transfer_loop nums w).2 = wire w ++ evs /\
    forall pre e post num command flags,
      evs = pre ++ e :: post -> ev_cmd e = STORE num command flags ->
      exists pre' a,
        pre = pre' ++ [fetch_ev num (Answered OK); a] /\
        is_append a /\ ev_out a = Answered OK.
Proof.
  destruct (transfer_loop_delta nums w) as (evs & d & [Hw _] & Hi).
  exists evs. split; [exact Hw|]. by eapply guarded_iterations.
Qed.


(** ** The FETCH step and its failure *)

Lemma exchange_set_logger p c l w :
  exchange p c (set_logger l w) =
  let '(r, w') := exchange p c w in (r, set_logger l w').
Proof.
  unfold exchange.
  replace (host p (set_logger l w)) with (host p w) by (by destruct p).
  destruct (sv_up (host p w)); [|reflexivity].
  destruct (next_fault (host p w)) as [f sv1].
  destruct f; try reflexivity; destruct (serve c sv1) as [r sv2]; reflexivity.
Qed.

Lemma simple_command_set_logger p c l w :
  simple_command p c (set_logger l w) =
  let '(r, w') := simple_command p c w in (r, set_logger l w').
Proof.
  unfold simple_command, bind, the_mailbox.
  replace (mailbox p (set_logger l w)) with (mailbox p w) by (by destruct p).
  destruct (mailbox p w) as [m|]; [|reflexivity].
  destruct (allowed c (state m)); [|reflexivity].
  rewrite exchange_set_logger.
  destruct (exchange p c w) as [[rep|e] w1]; [|reflexivity].
  destruct (r_typ rep); reflexivity.
Qed.

Lemma fetch_set_logger p set parts l w :
  fetch p set parts (set_logger l w) =
  let '(r, w') := fetch p set parts w in (r, set_logger l w').
Proof.
  unfold fetch, bind. rewrite simple_command_set_logger.
  destruct (simple_command p (FETCH set parts) w) as [[rep|e] w1]; reflexivity.
Qed.

(* H : bind m k w1 = (r, w'), m quiet, HL : logger_only w0 w1. *)
Ltac lstep H HL Hs :=
  apply bind_inv in H; destruct H as [(? & H & ->) | (? & ? & Hs & H)];
  [ eapply (keeps_inv logger_only) in H; [| solve [quiet]];
    apply (logger_only_trans _ _ _ HL) in H
  | pose proof Hs as Hq; eapply (keeps_inv logger_only) in Hq; [| solve [quiet]];
    apply (logger_only_trans _ _ _ HL) in Hq; clear HL; rename Hq into HL ].

Lemma transfer_one_fetch_fails num w :
  fetch_fails num w ->
  exists e l wf,
    transfer_one num w = (Raise e, set_logger l wf) /\
    (wf = w \/ wf = (fetch Source num PEEK_PARTS w).2).
Proof.
  intros Hfail. destruct (transfer_one num w) as [r w'] eqn:H. unfold transfer_one in H.
  pose proof (logger_only_refl w) as HL.
  apply bind_inv in H; destruct H as [(? & H & ->) | (cfg & w1 & Hs & H)]; [discriminate H|].
  unfold gets in Hs. injection Hs as <- <-.
  lstep H HL Hs. { destruct H as [l ->]. eauto 10. } clear Hs.
  destruct HL as [l ->].
  apply bind_inv in H. rewrite fetch_set_logger in H. unfold fetch_fails in Hfail.
  change "(FLAGS INTERNALDATE BODY.PEEK[])" with PEEK_PARTS in H.
  destruct (fetch Source num PEEK_PARTS w) as [r0 wf] eqn:Hf. simpl in Hfail.
  destruct H as [(? & H & ->) | ([resp data] & w3 & Hs & H)].
  { simplify_eq. eauto 10. }
  simplify_eq.
  assert (HL : logger_only wf (set_logger l wf)) by (by eexists).
  revert HL H. generalize (set_logger l wf). intros w3 HL H.
  lstep H HL Hs.
  { destruct H as [l' ->]. eauto 10. }
  pure_inv Hs.
  all: lstep H HL Hs; [destruct H as [l' ->]; eauto 10|]; pure_inv Hs.
  all: lstep H HL Hs; [destruct H as [l' ->]; eauto 10|]; clear Hs.
  all: lstep H HL Hs; [destruct H as [l' ->]; eauto 10|]; pure_inv Hs.
  all: lstep H HL Hs; [destruct H as [l' ->]; eauto 10|]; pure_inv Hs.
  all: lstep H HL Hs; [destruct H as [l' ->]; eauto 10|]; pure_inv Hs.
  all: contradiction.
Qed.


(** *** What the script may write to the log *)

Lemma log_grows_refl f w : log_grows f w w.
Proof.
  unfold log_grows. destruct (logger w) as [lg|]; [|exact I].
  split; [reflexivity|]. exists []. by rewrite app_nil_r.
Qed.

Lemma log_grows_trans f w1 w2 w3 : log_grows f w1 w2 -> log_grows f w2 w3 -> log_grows f w1 w3.
Proof.
  unfold log_grows.
  destruct (logger w1) as [l1|], (logger w2) as [l2|], (logger w3) as [l3|]; try tauto.
  intros (Hl1 & r1 & Hr1 & Hf1) (Hl2 & r2 & Hr2 & Hf2).
  split; [congruence|]. exists (r1 ++ r2).
  split; [by rewrite Hr2, Hr1, app_assoc | by apply Forall_app].
Qed.

Lemma log_grows_same f w w' : logger w' = logger w -> log_grows f w w'.
Proof. unfold log_grows. intros ->. apply log_grows_refl. Qed.

Lemma log_grows_record f lvl msg args w lg :
  In msg f -> logger w = Some lg ->
  log_grows f w (set_logger (Some (handle lg (record lvl msg args))) w).
Proof.
  intros Hin Hl. unfold log_grows. rewrite Hl. simpl.
  split; [reflexivity|]. eexists. split; [reflexivity|]. by repeat constructor.
Qed.

Lemma exchange_logger p c w : logger (exchange p c w).2 = logger w.
Proof.
  unfold exchange. destruct (sv_up (host p w)); [|reflexivity].
  destruct (next_fault (host p w)) as [f sv1].
  destruct f; try reflexivity; by destruct (serve c sv1).
Qed.

Lemma log_grows_exchange f p c : keeps (log_grows f) (exchange p c).
Proof. intros w. apply log_grows_same, exchange_logger. Qed.

Lemma loop_logs_progress nums : keeps (log_grows progress_formats) (transfer_loop nums).
Proof.
  apply keeps_transfer_loop with (logged := fun m => In m progress_formats);
    try (intros; apply log_grows_exchange); try (simpl; tauto).
  - apply log_grows_refl.
  - apply log_grows_trans.
  - intros. by apply log_grows_record.
  - intros. by apply log_grows_same.
Qed.

Lemma cleanup_logs_states : keeps (log_grows cleanup_formats) cleanup.
Proof.
  apply keeps_cleanup with (logged := fun m => In m cleanup_formats);
    try (intros; apply log_grows_exchange); try (simpl; tauto).
  - apply log_grows_refl.
  - apply log_grows_trans.
  - intros. by apply log_grows_record.
  - intros. by apply log_grows_same.
  - intros. by apply log_grows_same.
Qed.

(** *** The FETCH of the script *)

Lemma source_boxes_kept_refl w : source_boxes_kept w w.
Proof. reflexivity. Qed.

Lemma source_boxes_kept_trans w1 w2 w3 :
  source_boxes_kept w1 w2 -> source_boxes_kept w2 w3 -> source_boxes_kept w1 w3.
Proof. unfold source_boxes_kept. intros H1 H2. by rewrite H2. Qed.

Lemma peek_exchange_keeps_boxes num :
  keeps source_boxes_kept (exchange Source (FETCH num PEEK_PARTS)).
Proof.
  intros w. unfold source_boxes_kept.
  destruct (exchange_effect Source (FETCH num PEEK_PARTS) w) as [_ [[H _]|[H _]]].
  - exact H.
  - simpl in H. rewrite H. apply serve_fetch_peek.
Qed.


Lemma fetch_frame num w :
  let w' := (fetch Source num PEEK_PARTS w).2 in
  count w' = count w /\ target_host w' = target_host w /\
  sv_boxes (source_host w') = sv_boxes (source_host w) /\
  (wire w' = wire w \/ exists o, wire w' = wire w ++ [fetch_ev num o]).
Proof.
  assert (Hb : keeps source_boxes_kept (fetch Source num PEEK_PARTS)).
  { apply keeps_fetch; [exact source_boxes_kept_refl | exact source_boxes_kept_trans
                       | apply peek_exchange_keeps_boxes]. }
  specialize (Hb w). unfold source_boxes_kept in Hb.
  destruct (fetch Source num PEEK_PARTS w) as [x w'] eqn:H. simpl in *.
  apply fetch_inv in H as [[-> _]|(o & sv & -> & _)]; simpl in *; eauto 10.
Qed.

(** C4, as the code has it. When the FETCH of an identifier fails, that
    identifier is not appended, not delete-marked and not counted, and the
    loop stops there with the exception: nothing is sent for the identifiers
    after it, and the log gains progress records only. *)
Theorem failed_fetch_stops_the_loop (num : string) (rest : list string) (w : World) :
  fetch_fails num w ->
  let w' := (transfer_loop (num :: rest) w).2 in
  (exists e, (transfer_loop (num :: rest) w).1 = Raise e) /\
  count w' = count w /\
  target_host w' = target_host w /\
  sv_boxes (source_host w') = sv_boxes (source_host w) /\
  (wire w' = wire w \/ exists o, wire w' = wire w ++ [fetch_ev num o]) /\
  log_grows progress_formats w w'.
Proof.
  intros Hfail w'.
  pose proof (loop_logs_progress (num :: rest) w) as Hlog. fold w' in Hlog.
  destruct (transfer_one_fetch_fails num w Hfail) as (e & l & wf & Hone & Hwf).
  assert (Hloop : transfer_loop (num :: rest) w = (Raise e, set_logger l wf)).
  { simpl. by apply bind_raise_eq. }
  subst w'. rewrite Hloop in *. simpl.
  split; [eauto|].
  destruct Hwf as [->| ->].
  - repeat split; auto.
  - destruct (fetch_frame num w) as (Hc & Ht & Hb & Hw). repeat split; auto.
Qed.

(** At the sample world whose source answers NO to the first FETCH. *)
Lemma failed_fetch_stops_the_loop_witness :
  fetch_fails "1" (demo_selected [FNo "no such message"]) /\
  let w' := (transfer_loop ["1"; "2"] (demo_selected [FNo "no such message"])).2 in
  (exists e, (transfer_loop ["1"; "2"] (demo_selected [FNo "no such message"])).1 = Raise e) /\
  count w' = count (demo_selected [FNo "no such message"]) /\
  target_host w' = target_host (demo_selected [FNo "no such message"]) /\
  sv_boxes (source_host w') = sv_boxes (source_host (demo_selected [FNo "no such message"])) /\
  (wire w' = wire (demo_selected [FNo "no such message"]) \/
   exists o, wire w' = wire (demo_selected [FNo "no such message"]) ++ [fetch_ev "1" o]) /\
  log_grows progress_formats (demo_selected [FNo "no such message"]) w'.
Proof.
  assert (H : fetch_fails "1" (demo_selected [FNo "no such message"])) by (vm_compute; exact I).
  split; [exact H|].
  exact (failed_fetch_stops_the_loop "1" ["2"] (demo_selected [FNo "no such message"]) H).
Defined.

(** C4 as stated fails: the source answers NO to the FETCH of message 1;
    the loop ends with [TypeError], nothing is sent for message 2, and the
    log holds the progress record of message 1 and nothing about a
    failure. *)
Lemma failed_fetch_is_neither_logged_nor_skipped :
  (transfer_loop ["1"; "2"] (demo_selected [FNo "no such message"])).1 = Raise TypeError /\
  wire (transfer_loop ["1"; "2"] (demo_selected [FNo "no such message"])).2
    = [fetch_ev "1" (Answered NO)] /\
  logger (transfer_loop ["1"; "2"] (demo_selected [FNo "no such message"])).2
    = Some {| level := INFO; records := [record INFO "Fetching message: %s" ["b'1'"]] |}.
Proof. vm_compute. repeat split. Qed.
(** ** Teardown *)


Lemma sent_step p c t sv w :
  session_step p [c] w (add_event (event p c (Answered t)) (set_host p sv w)).
Proof.
  repeat split; try (by destruct p).
  eexists [_]. repeat split; [repeat constructor]. by exists t.
Qed.

Lemma session_step_mailbox p cs m w w' :
  session_step p cs w w' -> session_step p cs w (set_mailbox p m w').
Proof.
  intros (Hm & Hh & evs & Hw & Hc & Hd).
  repeat split; try (by destruct p). exists evs. by destruct p.
Qed.


Lemma method_ret p c (f : Reply -> Typ * list Item) w x w' :
  (forall rep, (f rep).1 = r_typ rep) ->
  (let* r := simple_command p c in ret (f r)) w = (Ret x, w') ->
  session_step p [c] w w' /\ mailbox p w' = mailbox p w.
Proof.
  intros Hf H. apply method_inv in H; [|exact Hf].
  destruct H as [[_ [e He]]|(o & sv & -> & [-> _])]; [discriminate|].
  split; [apply sent_step | by destruct p].
Qed.

Lemma expunge_ret p w x w' :
  expunge p w = (Ret x, w') -> session_step p [EXPUNGE] w w' /\ mailbox p w' = mailbox p w.
Proof. apply method_ret, untagged_typ. Qed.

Lemma close_ret p w x w' :
  close p w = (Ret x, w') ->
  session_step p [CLOSE] w w' /\ mailbox p w' = Some {| state := St_AUTH |}.
Proof.
  unfold close. intros H.
  apply bind_inv in H; destruct H as [(? & H & ?) | (m & w1 & Hs & H)]; [discriminate|].
  unfold the_mailbox in Hs. destruct (mailbox p w); [|discriminate]. injection Hs as <- <-.
  unfold finally in H.
  destruct ((let* r := simple_command p CLOSE in ret (tagged r)) w) as [r w2] eqn:Hm.
  unfold set_state, modify in H. injection H as -> <-.
  apply method_ret in Hm as [Hstep _]; [|apply tagged_typ].
  split; [by apply session_step_mailbox | by destruct p].
Qed.




Lemma selected_session_logger p l w : selected_session p (set_logger l w) = selected_session p w.
Proof. by destruct p. Qed.



(** A branch of [cleanup] whose session is not SELECTED only logs. *)
Lemma cleanup_session_idle p label w :
  selected_session p w = false ->
  exists l, cleanup_session p label w = (Ret tt, set_logger l w).
Proof.
  unfold selected_session, cleanup_session, bind, gets. intros Hsel.
  destruct (mailbox p w) as [m|] eqn:Hm.
  2:{ exists (logger w). by rewrite set_logger_id. }
  destruct (logger w) as [lg|] eqn:Hl.
  - unfold the_mailbox at 1. rewrite Hm. unfold log. rewrite Hl.
    destruct (level lg <=? INFO)%Z.
    + unfold the_mailbox.
      replace (mailbox p (set_logger _ w)) with (mailbox p w) by (by destruct p).
      rewrite Hm, Hsel. by eexists.
    + unfold the_mailbox. rewrite Hm, Hsel. exists (logger w). by rewrite set_logger_id.
  - unfold ret at 1. unfold the_mailbox. rewrite Hm, Hsel.
    exists (logger w). by rewrite set_logger_id.
Qed.





Lemma log_grows_some f w w' : log_grows f w w' -> is_Some (logger w) -> is_Some (logger w').
Proof.
  unfold log_grows. intros H [lg Hl]. rewrite Hl in H.
  destruct (logger w'); [by eexists | contradiction].
Qed.


(** [cleanup] in a world that is torn down only logs. *)
Lemma cleanup_torn_down w :
  torn_down w ->
  exists l, cleanup w = (Ret tt, set_logger l w) /\ torn_down (set_logger l w).
Proof.
  intros (HS & HT & [lg Hl]).
  pose proof (cleanup_logs_states w) as Hgrow.
  assert (Hrun : exists l, cleanup w = (Ret tt, set_logger l w)).
  { unfold cleanup, bind.
    assert (Hlog : exists l1, log INFO "Cleaning..." [] w = (Ret tt, set_logger l1 w)).
    { unfold log. rewrite Hl. destruct (level lg <=? INFO)%Z; [by eexists|].
      exists (logger w). by rewrite set_logger_id. }
    destruct Hlog as [l1 ->].
    destruct (cleanup_session_idle Source "Source IMAP session state: %s"
                (set_logger l1 w)) as [l2 ->]; [exact HS|].
    destruct (cleanup_session_idle Target "Target IMAP session state: %s"
                (set_logger l2 (set_logger l1 w))) as [l3 ->]; [exact HT|].
    by exists l3. }
  destruct Hrun as [l Hrun]. exists l. split; [exact Hrun|].
  rewrite Hrun in Hgrow. simpl in Hgrow.
  split; [exact HS | split; [exact HT|]].
  eapply log_grows_some; [exact Hgrow | by eexists].
Qed.


(** *** Sessions that are not SELECTED *)









(** *** Teardown of a healthy session *)

Lemma exchange_served p c w :
  sv_up (host p w) = true -> sv_faults (host p w) = [] ->
  exchange p c w =
  (Ret (serve c (host p w)).1,
   add_event (event p c (Answered (r_typ (serve c (host p w)).1)))
             (set_host p (serve c (host p w)).2 w)).
Proof.
  intros Hup Hf. unfold exchange, next_fault. rewrite Hup, Hf.
  by destruct (serve c (host p w)).
Qed.

Lemma simple_command_served p c w m :
  mailbox p w = Some m -> allowed c (state m) = true ->
  sv_up (host p w) = true -> sv_faults (host p w) = [] ->
  r_typ (serve c (host p w)).1 <> BAD ->
  simple_command p c w =
  (Ret (serve c (host p w)).1,
   add_event (event p c (Answered (r_typ (serve c (host p w)).1)))
             (set_host p (serve c (host p w)).2 w)).
Proof.
  intros Hm Ha Hup Hf Hbad. unfold simple_command, bind, the_mailbox.
  rewrite Hm, Ha, (exchange_served _ _ _ Hup Hf).
  destruct (r_typ (serve c (host p w)).1); [reflexivity | reflexivity | by destruct Hbad].
Qed.


Lemma host_set_host p sv w : host p (set_host p sv w) = sv.
Proof. by destruct p. Qed.

Lemma mailbox_set_mailbox p m w : mailbox p (set_mailbox p m w) = m.
Proof. by destruct p. Qed.


Lemma log_returns lvl msg args w :
  is_Some (logger w) -> exists l, log lvl msg args w = (Ret tt, set_logger (Some l) w).
Proof.
  intros [lg Hl]. unfold log. rewrite Hl.
  destruct (level lg <=? lvl)%Z; [by eexists|].
  exists lg. by rewrite <- Hl, set_logger_id.
Qed.







(** ** The trash purge and the teardown after it *)

Lemma serve_in_place c sv :
  in_place c ->
  (sv_selected (serve c sv).2 = sv_selected sv \/ sv_selected (serve c sv).2 = None) /\
  forall f, sv_selected sv <> Some f -> sv_boxes (serve c sv).2 !! f = sv_boxes sv !! f.
Proof.
  intros Hc. destruct c; try contradiction; simpl; unfold in_selected;
    try (split; [by auto | reflexivity]).
  { destruct (_ && _); split; auto. }
  all: destruct (sv_selected sv) as [mb|] eqn:Hs; [|split; [by auto | reflexivity]].
  all: destruct (sv_boxes sv !! mb) as [msgs|] eqn:Hb; [|split; [by auto | reflexivity]].
  all: repeat (match goal with |- context [match ?x with _ => _ end] => destruct x eqn:? end);
       simpl; (split; [by auto|]); try reflexivity.
  all: intros f Hf; apply lookup_insert_ne; congruence.
Qed.

Lemma next_fault_mail sv : same_mail (next_fault sv).2 sv.
Proof. unfold next_fault. destruct (sv_faults sv); split; reflexivity. Qed.

(** A command that returned with OK was served. *)
Lemma exchange_ok p c w rep w' :
  exchange p c w = (Ret rep, w') -> r_typ rep = OK ->
  exists sv1, same_mail sv1 (host p w) /\ serve c sv1 = (rep, host p w').
Proof.
  unfold exchange. destruct (sv_up (host p w)); [|discriminate].
  pose proof (next_fault_mail (host p w)) as Hm.
  destruct (next_fault (host p w)) as [f sv1]. simpl in Hm.
  destruct f; try discriminate.
  - destruct (serve c sv1) as [r sv2] eqn:Hs. intros [= <- <-] _.
    exists sv1. split; [exact Hm|]. rewrite Hs. f_equal. by destruct p.
  - intros [= <- <-]. discriminate.
  - intros [= <- <-]. discriminate.
  - destruct (serve c sv1). discriminate.
Qed.

Lemma serve_select_ok mb sv rep sv' :
  serve (SELECT mb) sv = (rep, sv') -> r_typ rep = OK ->
  sv_selected sv' = Some mb /\ sv_boxes sv' = sv_boxes sv /\ is_Some (sv_boxes sv !! mb).
Proof.
  simpl. destruct (is_astring mb); [|intros [= <- <-]; discriminate].
  destruct (sv_boxes sv !! mb) as [msgs|]; intros [= <- <-]; [|discriminate].
  intros _. repeat split. by eexists.
Qed.

Lemma serve_store_selected set command flags sv :
  sv_selected (serve (STORE set command flags) sv).2 = sv_selected sv.
Proof.
  simpl. unfold in_selected.
  repeat (match goal with |- context [match ?x with _ => _ end] => destruct x eqn:? end);
    simpl; congruence.
Qed.

Lemma simple_command_ret p c w rep w' :
  simple_command p c w = (Ret rep, w') ->
  exchange p c w = (Ret rep, w') /\ r_typ rep <> BAD /\
  exists m, mailbox p w = Some m /\ allowed c (state m) = true.
Proof.
  unfold simple_command, bind, the_mailbox.
  destruct (mailbox p w) as [m|]; [|discriminate].
  destruct (allowed c (state m)) eqn:Ha; [|discriminate].
  destruct (exchange p c w) as [[r|e] w1]; [|discriminate].
  destruct (r_typ r) eqn:Ht; intros [= <- <-]; (split; [reflexivity|]);
    (split; [congruence | eauto]).
Qed.

Lemma simple_command_raises p c w e w' :
  simple_command p c w = (Raise e, w') -> imap_exn p e.
Proof.
  unfold simple_command, bind, the_mailbox, imap_exn.
  destruct (mailbox p w) as [m|]; [|intros [= <- _]; auto].
  destruct (allowed c (state m)); [|intros [= <- _]; eauto].
  unfold exchange. destruct (sv_up (host p w)); [|intros [= <- _]; auto].
  destruct (next_fault (host p w)) as [f sv1].
  destruct f; try destruct (serve c sv1) as [r sv2]; try destruct (r_typ r);
    intros [= <- _]; eauto.
Qed.

Lemma imap_exn_not_exit p e code : imap_exn p e -> e <> SystemExit code.
Proof. intros [->|[[why ->]| ->]]; discriminate. Qed.

Lemma select_raises p mb w e w' : select p mb w = (Raise e, w') -> imap_exn p e.
Proof.
  unfold select. intros H.
  apply bind_inv in H; destruct H as [(e' & H & [= ->]) | (rep & w1 & Hs & H)].
  - by eapply simple_command_raises.
  - destruct (r_typ rep); cbv in H; discriminate.
Qed.

Lemma store_raises p set command flags w e w' :
  store p set command flags w = (Raise e, w') -> imap_exn p e.
Proof.
  unfold store. intros H.
  apply bind_inv in H; destruct H as [(e' & H & [= ->]) | (rep & w1 & Hs & H)].
  - by eapply simple_command_raises.
  - discriminate.
Qed.

Lemma exchange_globals p c w :
  source_mailbox (exchange p c w).2 = source_mailbox w /\
  target_mailbox (exchange p c w).2 = target_mailbox w /\
  count (exchange p c w).2 = count w /\
  settings (exchange p c w).2 = settings w.
Proof.
  unfold exchange.
  destruct (sv_up (host p w)); [|simpl; auto].
  destruct (next_fault (host p w)) as [f sv1].
  destruct f; simpl; auto; destruct (serve c sv1) as [r sv2]; simpl; auto.
Qed.

Lemma exchange_mailbox p c q w : mailbox q (exchange p c w).2 = mailbox q w.
Proof. destruct (exchange_globals p c w) as (H1 & H2 & _). by destruct q. Qed.

(** A SELECT that returned either was answered OK, and then the session is
    SELECTED and the server has the mailbox selected, or left the session
    in state AUTH; it changes no mailbox. *)
Lemma select_ret p mb w x w' :
  select p mb w = (Ret x, w') ->
  host (other p) w' = host (other p) w /\
  sv_boxes (host p w') = sv_boxes (host p w) /\
  ((mailbox p w' = Some {| state := St_SELECTED |} /\ sv_selected (host p w') = Some mb /\
    is_Some (sv_boxes (host p w) !! mb) /\
    wire w' = wire w ++ [event p (SELECT mb) (Answered OK)]) \/
   mailbox p w' = Some {| state := St_AUTH |}).
Proof.
  unfold select. intros H.
  apply bind_inv in H; destruct H as [(? & H & ?) | (rep & w1 & Hs & H)]; [discriminate|].
  apply simple_command_ret in Hs as (Hex & Hbad & m & Hm & Ha).
  pose proof (exchange_effect p (SELECT mb) w) as [Hother Hmail].
  assert (Hboxes : sv_boxes (host p w1) = sv_boxes (host p w)).
  { rewrite Hex in Hmail. simpl in Hmail.
    destruct Hmail as [[Hb _]|[Hb _]]; [exact Hb|]. rewrite Hb. simpl.
    destruct (is_astring mb); [|reflexivity].
    by destruct (sv_boxes (host p w) !! mb). }
  rewrite Hex in Hother. simpl in Hother.
  destruct (r_typ rep) eqn:Ht.
  - cbv [bind set_state modify ret] in H. injection H as <- <-.
    split; [by destruct p|]. split; [by destruct p|]. left.
    pose proof Hex as Hex'.
    apply exchange_ok in Hex as (sv1 & [Hb1 Hs1] & Hserve); [|exact Ht].
    apply serve_select_ok in Hserve as (Hsel & Hb2 & Hex2); [|exact Ht].
    split; [by destruct p|]. split; [by destruct p|]. split; [by rewrite <- Hb1|].
    destruct (exchange_wire p (SELECT mb) w) as (o & Hw & Ho). rewrite Hex' in Hw, Ho.
    simpl in Hw, Ho. subst o. rewrite Ht in Hw. by destruct p.
  - cbv [bind set_state modify ret] in H. injection H as <- <-.
    split; [by destruct p|]. split; [by destruct p|]. right. by destruct p.
  - by destruct Hbad.
Qed.

Lemma store_ret p set command flags w x w' :
  store p set command flags w = (Ret x, w') ->
  mailbox p w = Some {| state := St_SELECTED |} /\
  mailbox p w' = mailbox p w /\
  host (other p) w' = host (other p) w /\
  sv_selected (host p w') = sv_selected (host p w) /\
  (forall f, sv_selected (host p w) <> Some f ->
             sv_boxes (host p w') !! f = sv_boxes (host p w) !! f).
Proof.
  unfold store. intros H.
  apply bind_inv in H; destruct H as [(? & H & ?) | (rep & w1 & Hs & H)]; [discriminate|].
  unfold ret in H. injection H as _ <-.
  set (fl := if Text.ends_are "("%char ")"%char flags then flags
             else String.append "(" (String.append flags ")")) in *.
  apply simple_command_ret in Hs as (Hex & Hbad & [[]] & Hm & Ha); try discriminate.
  split; [exact Hm|].
  pose proof (exchange_effect p (STORE set command fl) w) as [Hother Hmail].
  pose proof (serve_in_place (STORE set command fl) (host p w) I) as [_ Hplace].
  pose proof (serve_store_selected set command fl (host p w)) as Hsel.
  pose proof (exchange_mailbox p (STORE set command fl) p w) as Hmb.
  rewrite Hex in Hother, Hmail, Hmb. cbn [snd] in Hother, Hmail, Hmb.
  split; [exact Hmb|]. split; [exact Hother|].
  destruct Hmail as [[Hb Hs]|[Hb Hs]].
  - split; [exact Hs|]. intros f _. by rewrite Hb.
  - split; [by rewrite Hs|]. intros f Hf. rewrite Hb. by apply Hplace.
Qed.

(** *** The teardown after the purge *)

Lemma only_trash_refl t f w : only_trash t f w w.
Proof. by intros H. Qed.

Lemma only_trash_trans t f w1 w2 w3 :
  only_trash t f w1 w2 -> only_trash t f w2 w3 -> only_trash t f w1 w3.
Proof.
  intros H1 H2 Ht. destruct (H1 Ht) as [Ht2 Hb2]. destruct (H2 Ht2) as [Ht3 Hb3].
  split; [exact Ht3 | by rewrite Hb3].
Qed.

Lemma only_trash_mail t f w w' :
  same_mail (source_host w') (source_host w) -> only_trash t f w w'.
Proof. intros [Hb Hs] Ht. unfold trash_or_none. by rewrite Hb, Hs. Qed.

Lemma only_trash_exchange t f p c :
  f <> t -> in_place c -> keeps (only_trash t f) (exchange p c).
Proof.
  intros Hne Hc w.
  destruct (exchange_effect p c w) as [Hother Hmail].
  destruct p; simpl in Hother, Hmail.
  - destruct Hmail as [Hm|[Hb Hs]]; [by apply only_trash_mail|].
    intros Ht. destruct (serve_in_place c (source_host w) Hc) as [Hsel Hplace].
    unfold trash_or_none in *. rewrite Hb, Hs. split.
    + destruct Hsel as [-> | ->]; auto.
    + apply Hplace. destruct Ht as [-> | ->]; congruence.
  - apply only_trash_mail. rewrite Hother. split; reflexivity.
Qed.

Lemma cleanup_touches_trash_only t f : f <> t -> keeps (only_trash t f) cleanup.
Proof.
  intros Hne.
  apply keeps_cleanup with (logged := fun _ => True); try exact I.
  - apply only_trash_refl.
  - apply only_trash_trans.
  - intros. apply only_trash_mail. split; reflexivity.
  - intros. apply only_trash_mail. by destruct p.
  - intros. apply only_trash_mail. by destruct p.
  - intros. by apply only_trash_exchange.
  - intros. by apply only_trash_exchange.
  - intros. by apply only_trash_exchange.
Qed.

(** When the purge ends in [sys.exit(0)], the SELECT of the trash folder was
    answered OK and the STORE returned. *)
Lemma purge_exit w w' :
  purge w = (Raise (SystemExit 0), w') ->
  exists w1 x y,
    select Source (trash (source_server (settings w))) w = (Ret x, w1) /\
    store Source "1:*" "+FLAGS" Deleted w1 = (Ret y, w').
Proof.
  unfold purge. intros H.
  apply bind_inv in H; destruct H as [(? & H & ?) | (cfg & w0 & Hs & H)]; [discriminate|].
  unfold gets in Hs. injection Hs as <- <-.
  apply bind_inv in H; destruct H as [(e & H & He) | (x & w1 & Hs & H)].
  { apply select_raises in H. injection He as <-. by apply (imap_exn_not_exit _ _ 0%Z) in H. }
  apply bind_inv in H; destruct H as [(e & H & He) | (y & w2 & Hst & H)].
  { apply store_raises in H. injection He as <-. by apply (imap_exn_not_exit _ _ 0%Z) in H. }
  unfold raise in H. injection H as <-. eauto.
Qed.

(** C10. When the script reaches [sys.exit(0)], the source session is
    SELECTED on the trash folder, so the EXPUNGE and CLOSE of the teardown
    act on the trash folder only: every other mailbox of the source, the
    working folder among them, holds after the teardown what it held when
    the loop ended; the messages the loop marked [\Deleted] are still in
    it, with the flag. *)
Theorem teardown_expunges_trash_only (f : string) (w : World) :
  f <> trash (source_server (settings w)) ->
  (purge w).1 = Raise (SystemExit 0) ->
  selected_session Source (purge w).2 = true /\
  sv_selected (source_host (purge w).2) = Some (trash (source_server (settings w))) /\
  sv_boxes (source_host (cleanup (purge w).2).2) !! f = sv_boxes (source_host w) !! f /\
  forall msgs m,
    sv_boxes (source_host w) !! f = Some msgs -> m ∈ msgs ->
    has_flag Deleted (msg_flags m) = true ->
    exists msgs', sv_boxes (source_host (cleanup (purge w).2).2) !! f = Some msgs' /\
                  m ∈ msgs'.
Proof.
  intros Hne Hexit. destruct (purge w) as [r w2] eqn:Hp. simpl in *. subst r.
  apply purge_exit in Hp as (w1 & x & y & Hsel & Hst).
  apply select_ret in Hsel as (_ & Hb1 & Hcase). simpl in Hb1.
  apply store_ret in Hst as (Hm1 & Hm2 & _ & Hs2 & Hb2). simpl in *.
  destruct Hcase as [(_ & Hs1 & _ & _)|Hauth]; [|congruence].
  assert (Hsel2 : sv_selected (source_host w2) = Some (trash (source_server (settings w))))
    by congruence.
  assert (Hbox : sv_boxes (source_host (cleanup w2).2) !! f = sv_boxes (source_host w) !! f).
  { destruct (cleanup_touches_trash_only _ f Hne w2) as [_ Hb3]; [by left|].
    rewrite Hb3, Hb2, Hb1; [reflexivity | congruence]. }
  split; [unfold selected_session; simpl; by rewrite Hm2, Hm1|].
  split; [exact Hsel2|]. split; [exact Hbox|].
  intros msgs m Hmsgs Hin _. exists msgs. by rewrite Hbox.
Qed.

(** *** The purge itself *)














(** At the sample world, after the loop, for the working folder. *)
Lemma teardown_expunges_trash_only_witness :
  "Sent" <> trash (source_server (settings demo_after_loop)) /\
  (purge demo_after_loop).1 = Raise (SystemExit 0) /\
  selected_session Source (purge demo_after_loop).2 = true /\
  sv_selected (source_host (purge demo_after_loop).2)
    = Some (trash (source_server (settings demo_after_loop))) /\
  sv_boxes (source_host (cleanup (purge demo_after_loop).2).2) !! "Sent"
    = sv_boxes (source_host demo_after_loop) !! "Sent" /\
  forall msgs m,
    sv_boxes (source_host demo_after_loop) !! "Sent" = Some msgs -> m ∈ msgs ->
    has_flag Deleted (msg_flags m) = true ->
    exists msgs', sv_boxes (source_host (cleanup (purge demo_after_loop).2).2) !! "Sent"
                    = Some msgs' /\ m ∈ msgs'.
Proof.
  assert (H1 : "Sent" <> trash (source_server (settings demo_after_loop)))
    by (vm_compute; discriminate).
  assert (H2 : (purge demo_after_loop).1 = Raise (SystemExit 0)) by (vm_compute; reflexivity).
  split; [exact H1|]. split; [exact H2|].
  exact (teardown_expunges_trash_only "Sent" demo_after_loop H1 H2).
Defined.

(** The working folder of the sample source after a whole run: both
    messages are still there, marked [\Deleted]. *)
Example demo_run_leaves_marked_messages :
  sv_boxes (source_host (run demo_start).2) !! "Sent"
  = Some [add_flags [Deleted] msg_a; add_flags [Deleted] msg_b].
Proof. vm_compute. reflexivity. Qed.

(** ** Flags and dates across the transfer *)

Lemma chop_last_snoc s c : Text.chop_last (String.append s (String c EmptyString)) = Some (s, c).
Proof. induction s as [|a s IH]; simpl; [reflexivity|]. by rewrite IH. Qed.












Lemma fetch_replies_none zone items r k l :
  (forall i, (k <= i)%nat -> covers r i = false) -> fetch_replies zone items r k l = [].
Proof.
  revert k. induction l as [|m l IH]; intros k Hc; simpl; [reflexivity|].
  rewrite Hc by lia. simpl. apply IH. intros i Hi. apply Hc. lia.
Qed.

Lemma covers_one a i : covers (S a, S a) i = bool_decide (i = a).
Proof.
  unfold covers. cbn [fst snd].
  destruct (bool_decide_reflect (i = a)) as [->|Hne].
  - apply andb_true_intro. split; apply Nat.leb_le; lia.
  - apply andb_false_iff.
    destruct (Nat.leb_spec (S a) (S i)); [|by left]. right. apply Nat.leb_gt. lia.
Qed.

Lemma fetch_replies_one zone items k n msgs m :
  msgs !! n = Some m ->
  fetch_replies zone items (S (k + n), S (k + n)) k msgs = fetch_reply zone items (k + n) m.
Proof.
  revert k n. induction msgs as [|m0 msgs IH]; intros k n Hm; [discriminate|].
  simpl. rewrite covers_one. destruct n as [|n]; simpl in Hm.
  - injection Hm as ->. rewrite Nat.add_0_r, bool_decide_eq_true_2 by reflexivity.
    rewrite fetch_replies_none; [by rewrite app_nil_r|].
    intros i Hi. rewrite covers_one. apply bool_decide_eq_false_2. lia.
  - rewrite bool_decide_eq_false_2 by lia. simpl.
    replace (k + S n)%nat with (S k + n)%nat by lia. by apply IH.
Qed.

Lemma serve_fetch_one num n m msgs sbox sv :
  sv_selected sv = Some sbox -> sv_boxes sv !! sbox = Some msgs ->
  parse_set (length msgs) num = Some (S n, S n) -> msgs !! n = Some m ->
  serve (FETCH num PEEK_PARTS) sv =
  (reply OK "FETCH completed"
     [ITuple {| h_seq := S n; h_flags := Some (msg_flags m);
                h_date := Some (render_date (sv_zone sv) (msg_date m)) |} (msg_body m);
      IBytes ")"],
   with_boxes (<[sbox := msgs]> (sv_boxes sv)) sv).
Proof.
  intros Hs Hb Hp Hm. unfold serve, in_selected. rewrite Hs, Hb, peek_items, Hp.
  cbn [forallb fetch_item_known wants_body wants sets_seen existsb String.eqb Ascii.eqb
       Bool.eqb andb orb].
  pose proof (fetch_replies_one (sv_zone sv) ["FLAGS"; "INTERNALDATE"; "BODY.PEEK[]"]
                0 n msgs m Hm) as Hr.
  simpl plus in Hr. rewrite Hr. reflexivity.
Qed.


(** *** Flags and dates a server accepts *)









(** *** One pass of the loop on healthy sessions *)








(** C7 as stated fails: a message that arrived in the last hour of the
    year 9999 by the clock of the server, read by a client one hour further
    east.  The FETCH is answered; [Internaldate2tuple] gives a local time in
    the year 10000, [Time2Internaldate] raises [ValueError], and no APPEND
    is sent: the target folder stays empty. *)
Lemma late_message_is_not_appended :
  sv_boxes (source_host demo_late) !! "Sent" = Some [msg_late] /\
  (serve (FETCH "1" PEEK_PARTS) (source_host demo_late)).1
    = reply OK "FETCH completed"
        [ITuple {| h_seq := 1; h_flags := Some [Seen];
                   h_date := Some {| id_wall := YEAR_10000 - 1; id_zone := 3600 |} |}
                "Subject: late"; IBytes ")"] /\
  (transfer_one "1" demo_late).1 = Raise ValueError /\
  wire (transfer_one "1" demo_late).2 = [fetch_ev "1" (Answered OK)] /\
  sv_boxes (target_host (transfer_one "1" demo_late).2) !! "Archive" = Some [].
Proof. vm_compute. repeat split. Qed.

(** The copy read back from the sample target is the reply the source
    gave for the original: same flags, same internal date, same text. *)
Example demo_copy_read_back :
  (serve (FETCH "1" PEEK_PARTS)
         (target_host (transfer_one "1" (demo_selected [])).2)).1
  = (serve (FETCH "1" PEEK_PARTS) (source_host (demo_selected []))).1.
Proof. vm_compute. reflexivity. Qed.

(** ** A second run on the same servers *)

(** C3 does not hold of the script.  The first run of the sample process
    moves both messages and leaves them in the working folder of the source,
    marked [\Deleted] (the teardown expunges the trash folder, which is the
    one selected by then).  The second run searches with [ALL], is given both
    identifiers again, appends both messages to the target a second time and
    reports a tally of 2. *)
Theorem second_run_transfers_again :
  (run demo_start).1 = 0%Z /\
  count (run demo_start).2 = 2%Z /\
  (search Source "ALL"
     (set_host Source
        (with_selected (Some "Sent") (with_up true (source_host (run demo_start).2)))
        (set_mailbox Source (Some {| state := St_SELECTED |}) (run demo_start).2))).1
    = Ret (OK, [IBytes "1 2"]) /\
  (rerun (run demo_start).2).1 = 0%Z /\
  count (rerun (run demo_start).2).2 = 2%Z /\
  appends (wire (rerun (run demo_start).2).2)
    = [APPEND "Archive" (Some "(\Seen \Flagged \Deleted)")
         (Some {| id_wall := -6200; id_zone := -7200 |}) "Subject: a";
       APPEND "Archive" (Some "(\Deleted)")
         (Some {| id_wall := -5200; id_zone := -7200 |}) "Subject: b"] /\
  (exists lg, logger (rerun (run demo_start).2).2 = Some lg /\
              In (tally_record 2) (records lg)).
Proof.
  do 6 (split; [vm_compute; reflexivity|]).
  eexists. split; [vm_compute; reflexivity|].
  vm_compute. tauto.
Qed.

(** ** The loop on the sample worlds *)

(** Both appends confirmed: each is followed by the STORE of its message. *)
Example demo_transfer_trace :
  cmds (wire (transfer (demo_selected [])).2)
  = [(Source, SEARCH "ALL");
     (Source, FETCH "1" PEEK_PARTS);
     (Target, APPEND "Archive" (Some "(\Seen \Flagged)")
                (Some {| id_wall := -6200; id_zone := -7200 |}) "Subject: a");
     (Source, STORE "1" "+FLAGS" "(\Deleted)");
     (Source, FETCH "2" PEEK_PARTS);
     (Target, APPEND "Archive" None
                (Some {| id_wall := -5200; id_zone := -7200 |}) "Subject: b");
     (Source, STORE "2" "+FLAGS" "(\Deleted)")]
  /\ count (transfer (demo_selected [])).2 = 2%Z.
Proof. vm_compute. split; reflexivity. Qed.

(** The first append refused: message 1 is neither marked nor counted, and
    the loop goes on to message 2. *)
Example demo_refused_append_trace :
  wire (transfer demo_full_target).2
  = [event Source (SEARCH "ALL") (Answered OK);
     fetch_ev "1" (Answered OK);
     event Target (APPEND "Archive" (Some "(\Seen \Flagged)")
                     (Some {| id_wall := -6200; id_zone := -7200 |}) "Subject: a")
           (Answered NO);
     fetch_ev "2" (Answered OK);
     event Target (APPEND "Archive" None
                     (Some {| id_wall := -5200; id_zone := -7200 |}) "Subject: b")
           (Answered OK);
     store_ev "2" (Answered OK)]
  /\ count (transfer demo_full_target).2 = 1%Z
  /\ (transfer demo_full_target).1 = Ret tt.
Proof. vm_compute. repeat split; reflexivity. Qed.

(** ** The text helpers on sample inputs *)

Example split_search_reply : Text.split "1 2  13 " = ["1"; "2"; "13"].
Proof. reflexivity. Qed.

Example split_on_list_line :
  Text.split_on Text.list_delimiter
    (String.append "(\HasNoChildren)" (String.append Text.list_delimiter "INBOX"))
  = ["(\HasNoChildren)"; "INBOX"].
Proof. reflexivity. Qed.

Example upper_ok : Text.upper "Ok" = "OK".
Proof. reflexivity. Qed.

Example crlf_example :
  Text.MapCRLF_sub (String "a" (String Text.LF (String "b" (String Text.CR EmptyString))))
  = String "a" (String Text.CR (String Text.LF (String "b"
      (String Text.CR (String Text.LF EmptyString))))).
Proof. reflexivity. Qed.

(** ** The configuration file *)

Lemma add_account_lookup accounts node k :
  Config.add_account accounts node !! k =
  if defines_account k node then credentials node else accounts !! k.
Proof.
  unfold Config.add_account, defines_account, credentials, Config.Accounts in *.
  destruct (Config.get node "user") as [u|]; [|reflexivity].
  destruct (Config.get node "password") as [p|]; [|reflexivity].
  destruct (Config.get node "id") as [i|]; [|reflexivity].
  rewrite !(bool_decide_eq_true_2 (is_Some _)) by (by eexists).
  destruct (decide (i = k)) as [->|Hne].
  - rewrite lookup_insert_eq. by rewrite bool_decide_eq_true_2.
  - rewrite lookup_insert_ne by done. rewrite bool_decide_eq_false_2; [done|]. congruence.
Qed.

Lemma fold_accounts_lookup l accounts k :
  fold_left Config.add_account l accounts !! k =
  match last (List.filter (defines_account k) l) with
  | Some node => credentials node
  | None => accounts !! k
  end.
Proof.
  induction l as [|x l IH] using rev_ind; [reflexivity|].
  rewrite fold_left_app, List.filter_app. simpl.
  rewrite add_account_lookup.
  destruct (defines_account k x); simpl.
  - by rewrite last_snoc.
  - by rewrite app_nil_r.
Qed.

Lemma defines_account_credentials k node :
  defines_account k node = true -> is_Some (credentials node).
Proof.
  unfold defines_account, credentials. intros H.
  apply andb_prop in H as [H _]. apply andb_prop in H as [H1 H2].
  apply bool_decide_eq_true_1 in H1 as [u ->]. apply bool_decide_eq_true_1 in H2 as [p ->].
  by eexists.
Qed.

Lemma account_element_defines k root node :
  account_element k root = Some node -> defines_account k node = true.
Proof.
  unfold account_element. intros H. apply last_Some in H as [l' H].
  assert (Hin : In node (List.filter (defines_account k) (account_elements root))).
  { rewrite H. apply in_or_app. right. by left. }
  apply List.filter_In in Hin. tauto.
Qed.

Lemma accounts_of_lookup root k :
  Config.accounts_of root !! k = account_element k root ≫= credentials.
Proof.
  unfold Config.accounts_of, account_element, account_elements.
  rewrite fold_accounts_lookup.
  destruct (last _); [reflexivity|]. apply lookup_empty.
Qed.

Lemma accounts_of_is_Some root k :
  is_Some (Config.accounts_of root !! k) <-> is_Some (account_element k root).
Proof.
  rewrite accounts_of_lookup. split.
  - intros [c H]. destruct (account_element k root); [by eexists | discriminate].
  - intros [node H]. rewrite H. simpl.
    apply (defines_account_credentials k). by apply (account_element_defines k root).
Qed.

(** What [ImapSettings.parse] returns on the table of a document. *)
Lemma imap_parse_ok int self node root s :
  Config.ImapSettings_parse int self node (Config.accounts_of root) = Config.Ok s <->
  exists n k el u p,
    match Config.get node "port" with Some v => int v = Some n | None => n = 143%Z end /\
    Config.get node "account-id" = Some k /\
    account_element k root = Some el /\ credentials el = Some (u, p) /\
    s = {| Config.server := Config.get node "server";
           Config.use_ssl := bool_decide (Config.get node "ssl" = Some "True")
                             || bool_decide (Config.get node "ssl" = Some "true");
           Config.port := n;
           Config.user := Some u; Config.password := Some p;
           Config.folder := Some (default Config.DEFAULT_FOLDER (Config.get node "folder"));
           Config.trash := Some (default Config.DEFAULT_TRASH (Config.get node "trash")) |}.
Proof.
  unfold Config.ImapSettings_parse. split.
  - intros H.
    assert (Hrest : forall n,
      match Config.get node "account-id" with
      | Some account_id =>
        match Config.accounts_of root !! account_id with
        | Some (u, p) =>
          Config.Ok {| Config.server := Config.get node "server";
                       Config.use_ssl := bool_decide (Config.get node "ssl" = Some "True")
                                         || bool_decide (Config.get node "ssl" = Some "true");
                       Config.port := n;
                       Config.user := Some u; Config.password := Some p;
                       Config.folder := Some match Config.get node "folder" with
                                             | Some v => v | None => Config.DEFAULT_FOLDER end;
                       Config.trash := Some match Config.get node "trash" with
                                            | Some v => v | None => Config.DEFAULT_TRASH end |}
        | None => Config.Fail (Config.KeyError (Some account_id))
        end
      | None => Config.Fail (Config.KeyError None)
      end = Config.Ok s ->
      exists k el u p,
        Config.get node "account-id" = Some k /\
        account_element k root = Some el /\ credentials el = Some (u, p) /\
        s = {| Config.server := Config.get node "server";
               Config.use_ssl := bool_decide (Config.get node "ssl" = Some "True")
                                 || bool_decide (Config.get node "ssl" = Some "true");
               Config.port := n;
               Config.user := Some u; Config.password := Some p;
               Config.folder := Some (default Config.DEFAULT_FOLDER (Config.get node "folder"));
               Config.trash := Some (default Config.DEFAULT_TRASH (Config.get node "trash")) |}).
    { intros n Hn.
      destruct (Config.get node "account-id") as [k|]; [|discriminate].
      rewrite accounts_of_lookup in Hn.
      destruct (account_element k root) as [el|] eqn:Hel; [|discriminate]. simpl in Hn.
      destruct (credentials el) as [[u p]|] eqn:Hc; [|discriminate].
      injection Hn as <-. exists k, el, u, p.
      split; [reflexivity|]. split; [exact Hel|]. split; [exact Hc|].
      by destruct (Config.get node "folder"), (Config.get node "trash"). }
    destruct (Config.get node "port") as [v|].
    + destruct (int v) as [n|] eqn:Hn; [|discriminate].
      destruct (Hrest n H) as (k & el & u & p & Hk & Hel & Hc & Hs).
      by exists n, k, el, u, p.
    + destruct (Hrest 143%Z H) as (k & el & u & p & Hk & Hel & Hc & Hs).
      by exists 143%Z, k, el, u, p.
  - intros (n & k & el & u & p & Hp & -> & Hel & Hc & ->).
    rewrite accounts_of_lookup, Hel. simpl. rewrite Hc.
    destruct (Config.get node "port") as [v|]; [rewrite Hp|subst n];
      by destruct (Config.get node "folder"), (Config.get node "trash").
Qed.

Lemma imap_parse_accepts int self node root :
  (exists s, Config.ImapSettings_parse int self node (Config.accounts_of root) = Config.Ok s)
  <-> server_element_ok int root node.
Proof.
  unfold server_element_ok. split.
  - intros [s H]. apply imap_parse_ok in H as (n & k & el & u & p & Hp & Hk & Hel & Hc & _).
    split; [|by eauto].
    intros v Hv. rewrite Hv in Hp. by eexists.
  - intros [Hport (k & Hk & [el Hel])].
    destruct (defines_account_credentials k el (account_element_defines _ _ _ Hel))
      as [[u p] Hc].
    destruct (Config.get node "port") as [v|] eqn:Hv.
    + destruct (Hport v eq_refl) as [n Hn].
      eexists. apply imap_parse_ok. exists n, k, el, u, p. by rewrite Hv.
    + eexists. apply imap_parse_ok. exists 143%Z, k, el, u, p. by rewrite Hv.
Qed.

(** X1. The documents [Settings.parse] accepts: it returns if and only if
    the file could be read, the root has a [source] and a [target] child,
    and each of the two (the first with that tag) has a port, when it has
    one, that [int] reads and an [account-id] naming an [account] element
    with the three attributes [id], [user] and [password]. *)
Theorem settings_parse_accepts (int : string -> option Z) (dirname : string -> string)
  (self : Config.Settings) (path : string) (document : option Config.Element) :
  (exists s, Config.Settings_parse int dirname self path document = Config.Ok s) <->
  exists root src tgt,
    document = Some root /\
    Config.find "source" root = Some src /\ Config.find "target" root = Some tgt /\
    server_element_ok int root src /\ server_element_ok int root tgt.
Proof.
  unfold Config.Settings_parse. split.
  - intros [s H]. destruct document as [root|]; [|discriminate].
    destruct (Config.find "source" root) as [src|] eqn:Hsrc; [|discriminate].
    destruct (Config.ImapSettings_parse int _ src _) as [a|] eqn:Ha; [|discriminate].
    destruct (Config.find "target" root) as [tgt|] eqn:Htgt; [|discriminate].
    destruct (Config.ImapSettings_parse int _ tgt _) as [b|] eqn:Hb; [|discriminate].
    exists root, src, tgt. split; [reflexivity|]. do 2 (split; [assumption|]). split.
    + apply (imap_parse_accepts int Config.ImapSettings_new). eauto.
    + apply (imap_parse_accepts int Config.ImapSettings_new). eauto.
  - intros (root & src & tgt & -> & -> & -> & Hs & Ht).
    apply (imap_parse_accepts int Config.ImapSettings_new) in Hs as [a ->].
    apply (imap_parse_accepts int Config.ImapSettings_new) in Ht as [b ->].
    by eexists.
Qed.

Lemma settings_parse_ok int dirname self path root s :
  Config.Settings_parse int dirname self path (Some root) = Config.Ok s <->
  exists src a tgt b,
    Config.find "source" root = Some src /\
    Config.ImapSettings_parse int Config.ImapSettings_new src (Config.accounts_of root)
      = Config.Ok a /\
    Config.find "target" root = Some tgt /\
    Config.ImapSettings_parse int Config.ImapSettings_new tgt (Config.accounts_of root)
      = Config.Ok b /\
    s = {| Config.source_server := Some a; Config.target_server := Some b;
           Config.path := Some (dirname path);
           Config.log_path := Config.log_path (Config.read_log self root);
           Config.log_level := Config.log_level (Config.read_log self root) |}.
Proof.
  unfold Config.Settings_parse. split.
  - intros H.
    destruct (Config.find "source" root) as [src|] eqn:Hsrc; [|discriminate].
    destruct (Config.ImapSettings_parse int _ src _) as [a|] eqn:Ha; [|discriminate].
    destruct (Config.find "target" root) as [tgt|] eqn:Htgt; [|discriminate].
    destruct (Config.ImapSettings_parse int _ tgt _) as [b|] eqn:Hb; [|discriminate].
    injection H as <-. by exists src, a, tgt, b.
  - by intros (src & a & tgt & b & -> & -> & -> & -> & ->).
Qed.

Lemma settings_parse_server int dirname self path root s p :
  Config.Settings_parse int dirname self path (Some root) = Config.Ok s ->
  exists node cfg,
    Config.find (element_tag p) root = Some node /\
    parsed_server p s = Some cfg /\
    Config.ImapSettings_parse int Config.ImapSettings_new node (Config.accounts_of root)
      = Config.Ok cfg.
Proof.
  intros H. apply settings_parse_ok in H as (src & a & tgt & b & Hs & Ha & Ht & Hb & ->).
  destruct p; simpl; eauto.
Qed.

Lemma credentials_get el u p :
  credentials el = Some (u, p) ->
  Config.get el "user" = Some u /\ Config.get el "password" = Some p.
Proof.
  unfold credentials.
  destruct (Config.get el "user"), (Config.get el "password"); intros; simplify_eq; done.
Qed.

(** X2. The credentials of an accepted document: the user and password of
    each server are those of the last [account] element, in document order,
    that has the three attributes and the id the server element names.  An
    earlier definition of the same id, and an element lacking an attribute,
    play no part. *)
Theorem credentials_come_from_last_definition (int : string -> option Z)
  (dirname : string -> string) (self s : Config.Settings) (path : string)
  (root : Config.Element) (p : Who) :
  Config.Settings_parse int dirname self path (Some root) = Config.Ok s ->
  exists node k el u pw cfg,
    Config.find (element_tag p) root = Some node /\
    Config.get node "account-id" = Some k /\
    account_element k root = Some el /\
    Config.get el "user" = Some u /\ Config.get el "password" = Some pw /\
    parsed_server p s = Some cfg /\
    Config.user cfg = Some u /\ Config.password cfg = Some pw.
Proof.
  intros H. destruct (settings_parse_server _ _ _ _ _ _ p H) as (node & cfg & Hn & Hp & Hc).
  apply imap_parse_ok in Hc as (n & k & el & u & pw & _ & Hk & Hel & Hcr & ->).
  destruct (credentials_get _ _ _ Hcr).
  exists node, k, el, u, pw. eexists. repeat split; eauto.
Qed.

(** At the sample document: the second definition of [a1] is the one used. *)
Lemma credentials_come_from_last_definition_witness :
  exists s,
    Config.Settings_parse int_of_digits Posix.dirname demo_settings_object
      "/etc/imap_move/conf.xml" (Some demo_document) = Config.Ok s /\
    exists node k el u pw cfg,
      Config.find (element_tag Source) demo_document = Some node /\
      Config.get node "account-id" = Some k /\
      account_element k demo_document = Some el /\
      Config.get el "user" = Some u /\ Config.get el "password" = Some pw /\
      parsed_server Source s = Some cfg /\
      Config.user cfg = Some u /\ Config.password cfg = Some pw.
Proof.
  eexists. split; [vm_compute; reflexivity|].
  apply (credentials_come_from_last_definition int_of_digits Posix.dirname
           demo_settings_object _ "/etc/imap_move/conf.xml" demo_document Source).
  vm_compute. reflexivity.
Defined.

Example demo_document_credentials :
  (Config.accounts_of demo_document !! "a1", Config.accounts_of demo_document !! "a2")
  = (Some ("alice", "second"), None).
Proof. vm_compute. reflexivity. Qed.

Lemma imap_parse_fail int self node accounts e :
  Config.ImapSettings_parse int self node accounts = Config.Fail e ->
  (exists v, Config.get node "port" = Some v /\ int v = None /\ e = Config.ValueError v) \/
  ((forall v, Config.get node "port" = Some v -> is_Some (int v)) /\
   e = Config.KeyError (Config.get node "account-id") /\
   forall k, Config.get node "account-id" = Some k -> accounts !! k = None).
Proof.
  unfold Config.ImapSettings_parse.
  destruct (Config.get node "port") as [v|].
  - destruct (int v) as [n|] eqn:Hn.
    + intros H. right. split; [intros ? [= <-]; by eexists|].
      destruct (Config.get node "account-id") as [k|]; [|by simplify_eq].
      destruct (accounts !! k) as [[u pw]|] eqn:Hk; [discriminate|].
      injection H as <-. split; [reflexivity|]. by intros ? [= <-].
    + intros [= <-]. left. by exists v.
  - intros H. right. split; [discriminate|].
    destruct (Config.get node "account-id") as [k|]; [|by simplify_eq].
    destruct (accounts !! k) as [[u pw]|] eqn:Hk; [discriminate|].
    injection H as <-. split; [reflexivity|]. by intros ? [= <-].
Qed.


(** X4. The [KeyError] of [parse] names an account that is not there: when
    [parse] ends with [KeyError key], one of the two server elements has
    [key] as its [account-id] (no such attribute when [key] is [None]), and
    no [account] element with the three attributes has that id. *)
Theorem key_error_names_a_missing_account (int : string -> option Z)
  (dirname : string -> string) (self : Config.Settings) (path : string)
  (root : Config.Element) (key : option string) :
  Config.Settings_parse int dirname self path (Some root) = Config.Fail (Config.KeyError key) ->
  exists p node,
    Config.find (element_tag p) root = Some node /\
    Config.get node "account-id" = key /\
    forall k, key = Some k -> account_element k root = None.
Proof.
  assert (Hone : forall node,
    Config.ImapSettings_parse int Config.ImapSettings_new node (Config.accounts_of root)
      = Config.Fail (Config.KeyError key) ->
    Config.get node "account-id" = key /\
    forall k, key = Some k -> account_element k root = None).
  { intros node Hf.
    apply imap_parse_fail in Hf as [(? & _ & _ & ?) | (_ & [= ->] & Hk)]; [discriminate|].
    split; [reflexivity|]. intros k Hkey. specialize (Hk k Hkey).
    destruct (account_element k root) eqn:Hel; [|reflexivity].
    assert (His : is_Some (Config.accounts_of root !! k)) by (apply accounts_of_is_Some; eauto).
    rewrite Hk in His. by destruct His. }
  unfold Config.Settings_parse. intros H.
  destruct (Config.find "source" root) as [src|] eqn:Hsrc; [|discriminate].
  destruct (Config.ImapSettings_parse int _ src _) as [a|e] eqn:Ha.
  - destruct (Config.find "target" root) as [tgt|] eqn:Htgt; [|discriminate].
    destruct (Config.ImapSettings_parse int _ tgt _) as [b|e] eqn:Hb; [discriminate|].
    injection H as ->. exists Target, tgt. split; [exact Htgt|]. by apply Hone.
  - injection H as ->. exists Source, src. split; [exact Hsrc|]. by apply Hone.
Qed.

(** At the sample document whose source names the account without a
    password. *)
Lemma key_error_names_a_missing_account_witness :
  Config.Settings_parse int_of_digits Posix.dirname demo_settings_object
    "/etc/imap_move/conf.xml" (Some demo_document_incomplete)
    = Config.Fail (Config.KeyError (Some "a2")) /\
  exists p node,
    Config.find (element_tag p) demo_document_incomplete = Some node /\
    Config.get node "account-id" = Some "a2" /\
    forall k, Some "a2" = Some k -> account_element k demo_document_incomplete = None.
Proof.
  assert (H : Config.Settings_parse int_of_digits Posix.dirname demo_settings_object
                "/etc/imap_move/conf.xml" (Some demo_document_incomplete)
              = Config.Fail (Config.KeyError (Some "a2"))) by (vm_compute; reflexivity).
  split; [exact H|].
  exact (key_error_names_a_missing_account int_of_digits Posix.dirname demo_settings_object
           "/etc/imap_move/conf.xml" demo_document_incomplete (Some "a2") H).
Defined.

(** X5. The [log] element has the last word: after an accepted [parse],
    the log level (and the log path) of the settings is the [level]
    ([path]) attribute of the first [log] child of the root when there is
    one with that attribute, and otherwise what the attribute held before
    the call, which is what the script put there from the command line. *)
Theorem log_element_overrides_the_command_line (int : string -> option Z)
  (dirname : string -> string) (self s : Config.Settings) (path : string)
  (root : Config.Element) :
  Config.Settings_parse int dirname self path (Some root) = Config.Ok s ->
  Config.log_level s
    = match Config.find "log" root ≫= (fun n => Config.get n "level") with
      | Some v => Some v
      | None => Config.log_level self
      end /\
  Config.log_path s
    = match Config.find "log" root ≫= (fun n => Config.get n "path") with
      | Some v => Some v
      | None => Config.log_path self
      end.
Proof.
  intros H. apply settings_parse_ok in H as (src & a & tgt & b & _ & _ & _ & _ & ->).
  unfold Config.read_log. simpl.
  destruct (Config.find "log" root) as [n|]; simpl; [|done].
  by destruct (Config.get n "level"), (Config.get n "path").
Qed.

(** At the sample document: [-l INFO] on the command line, DEBUG in the
    file. *)
Lemma log_element_overrides_the_command_line_witness :
  exists s,
    Config.Settings_parse int_of_digits Posix.dirname demo_settings_object
      "/etc/imap_move/conf.xml" (Some demo_document) = Config.Ok s /\
    Config.log_level s = Some "DEBUG" /\
    Config.log_path s = Some "/etc/imap_move/conf.log".
Proof.
  eexists. split; [vm_compute; reflexivity|].
  apply (log_element_overrides_the_command_line int_of_digits Posix.dirname
           demo_settings_object _ "/etc/imap_move/conf.xml" demo_document).
  vm_compute. reflexivity.
Defined.

(** X6. What an accepted server element gives: the [server] attribute as
    it is ([None] when absent); SSL only for the values [True] and [true]
    of the [ssl] attribute; the port [int] reads, 143 without the
    attribute; the [folder] and [trash] attributes, and the two Gmail names,
    each within double quotes, without them. *)
Theorem server_attributes_and_defaults (int : string -> option Z)
  (dirname : string -> string) (self s : Config.Settings) (path : string)
  (root : Config.Element) (p : Who) :
  Config.Settings_parse int dirname self path (Some root) = Config.Ok s ->
  exists node cfg,
    Config.find (element_tag p) root = Some node /\
    parsed_server p s = Some cfg /\
    Config.server cfg = Config.get node "server" /\
    (Config.use_ssl cfg = true <->
     Config.get node "ssl" = Some "True" \/ Config.get node "ssl" = Some "true") /\
    match Config.get node "port" with
    | Some v => int v = Some (Config.port cfg)
    | None => Config.port cfg = 143%Z
    end /\
    Config.folder cfg
      = Some (default (Text.quoted "[Gmail]/Sent Mail") (Config.get node "folder")) /\
    Config.trash cfg
      = Some (default (Text.quoted "[Gmail]/Trash") (Config.get node "trash")).
Proof.
  intros H. destruct (settings_parse_server _ _ _ _ _ _ p H) as (node & cfg & Hn & Hp & Hc).
  apply imap_parse_ok in Hc as (n & k & el & u & pw & Hport & Hk & Hel & Hcr & ->).
  exists node. eexists. split; [exact Hn|]. split; [exact Hp|]. simpl.
  split; [reflexivity|]. split; [|by repeat split].
  rewrite orb_true_iff, !bool_decide_eq_true. tauto.
Qed.

(** At the sample document, for the target: SSL, port 993, its own folder
    and the default trash. *)
Lemma server_attributes_and_defaults_witness :
  exists s,
    Config.Settings_parse int_of_digits Posix.dirname demo_settings_object
      "/etc/imap_move/conf.xml" (Some demo_document) = Config.Ok s /\
    exists node cfg,
      Config.find (element_tag Target) demo_document = Some node /\
      parsed_server Target s = Some cfg /\
      Config.server cfg = Config.get node "server" /\
      (Config.use_ssl cfg = true <->
       Config.get node "ssl" = Some "True" \/ Config.get node "ssl" = Some "true") /\
      match Config.get node "port" with
      | Some v => int_of_digits v = Some (Config.port cfg)
      | None => Config.port cfg = 143%Z
      end /\
      Config.folder cfg
        = Some (default (Text.quoted "[Gmail]/Sent Mail") (Config.get node "folder")) /\
      Config.trash cfg
        = Some (default (Text.quoted "[Gmail]/Trash") (Config.get node "trash")).
Proof.
  eexists. split; [vm_compute; reflexivity|].
  apply (server_attributes_and_defaults int_of_digits Posix.dirname
           demo_settings_object _ "/etc/imap_move/conf.xml" demo_document Target).
  vm_compute. reflexivity.
Defined.

(** What [parse] makes of the sample document. *)
Example demo_document_settings :
  Config.Settings_parse int_of_digits Posix.dirname demo_settings_object
    "/etc/imap_move/conf.xml" (Some demo_document)
  = Config.Ok
      {| Config.source_server :=
           Some {| Config.server := Some "imap.source.example"; Config.use_ssl := false;
                   Config.port := 143; Config.user := Some "alice";
                   Config.password := Some "second";
                   Config.folder := Some (Text.quoted "[Gmail]/Sent Mail");
                   Config.trash := Some (Text.quoted "[Gmail]/Trash") |};
         Config.target_server :=
           Some {| Config.server := Some "imap.target.example"; Config.use_ssl := true;
                   Config.port := 993; Config.user := Some "alice";
                   Config.password := Some "second";
                   Config.folder := Some "Archive";
                   Config.trash := Some (Text.quoted "[Gmail]/Trash") |};
         Config.path := Some "/etc/imap_move";
         Config.log_path := Some "/etc/imap_move/conf.log";
         Config.log_level := Some "DEBUG" |}.
Proof. vm_compute. reflexivity. Qed.

(** ** The command line *)

Lemma ends_are_wrapped q s :
  Text.ends_are q q (String q (String.append s (String q EmptyString))) = true.
Proof.
  unfold Text.ends_are.
  change (String q (String.append s (String q EmptyString)))
    with (String.append (String q s) (String q EmptyString)).
  rewrite chop_last_snoc. simpl. by rewrite Ascii.eqb_refl.
Qed.

Lemma strip_quotes_wrapped q s :
  strip_quotes q (String q (String.append s (String q EmptyString))) = s.
Proof. unfold strip_quotes. by rewrite ends_are_wrapped, chop_last_snoc. Qed.

Lemma strip_quotes_other q c s : c <> q -> strip_quotes q (String c s) = String c s.
Proof.
  intros Hc. unfold strip_quotes, Text.ends_are.
  destruct (Text.chop_last (String c s)) as [[t l]|]; [|reflexivity].
  apply Ascii.eqb_neq in Hc. by rewrite Hc.
Qed.

(** X7. Quotes around the value of [-f] or [-l] come off by layers, double
    quotes first: a value in single quotes inside double quotes loses both
    pairs, a value in double quotes inside single quotes loses the single
    quotes only; a value that starts with neither quote character is taken
    as it is; and a value that is one quote character alone becomes the
    empty string. *)
Theorem quotes_come_off_double_then_single :
  (forall s, unquoted (Text.quoted (single_quoted s)) = s) /\
  (forall s, unquoted (single_quoted (Text.quoted s)) = Text.quoted s) /\
  (forall s, unquoted (Text.quoted s) = strip_quotes "'" s) /\
  (forall c s, c <> Text.DQUOTE -> c <> "'"%char -> unquoted (String c s) = String c s) /\
  unquoted (String Text.DQUOTE EmptyString) = EmptyString /\
  unquoted "'" = EmptyString.
Proof.
  unfold unquoted, Text.quoted, single_quoted.
  split; [|split; [|split; [|split; [|split; reflexivity]]]].
  - intros s. by rewrite !strip_quotes_wrapped.
  - intros s. rewrite strip_quotes_other by discriminate.
    apply (strip_quotes_wrapped "'"%char).
  - intros s. by rewrite strip_quotes_wrapped.
  - intros c s H1 H2. by rewrite !strip_quotes_other.
Qed.

Lemma quotes_come_off_double_then_single_witness :
  "a"%char <> Text.DQUOTE /\ "a"%char <> "'"%char /\
  unquoted (String "a" "bc") = String "a" "bc".
Proof.
  assert (H1 : "a"%char <> Text.DQUOTE) by discriminate.
  assert (H2 : "a"%char <> "'"%char) by discriminate.
  refine (conj H1 (conj H2 _)).
  exact (proj1 (proj2 (proj2 (proj2 quotes_come_off_double_then_single))) "a"%char "bc" H1 H2).
Defined.

Lemma rfind_bounds c s : (-1 <= Posix.rfind c s < Z.of_nat (String.length s))%Z.
Proof.
  induction s as [|a s IH]; simpl; [lia|].
  destruct (0 <=? Posix.rfind c s)%Z eqn:E; [lia|].
  destruct (Ascii.eqb a c); lia.
Qed.

Lemma rfind_app c a b :
  Posix.rfind c (String.append a b) =
  if (0 <=? Posix.rfind c b)%Z then (Z.of_nat (String.length a) + Posix.rfind c b)%Z
  else Posix.rfind c a.
Proof.
  induction a as [|x a IH];
    [change (String.append EmptyString b) with b
    |change (String.append (String x a) b) with (String x (String.append a b))];
    simpl String.length.
  - destruct (0 <=? Posix.rfind c b)%Z eqn:E; [reflexivity|].
    pose proof (rfind_bounds c b). apply Z.leb_gt in E.
    change (Posix.rfind c EmptyString) with (-1)%Z. lia.
  - cbn [Posix.rfind]. rewrite IH.
    destruct (0 <=? Posix.rfind c b)%Z eqn:E.
    + apply Z.leb_le in E.
      replace (0 <=? Z.of_nat (String.length a) + Posix.rfind c b)%Z with true
        by (symmetry; apply Z.leb_le; lia).
      lia.
    + reflexivity.
Qed.

Lemma rfind_absent c s :
  all_chars (fun a => negb (Ascii.eqb a c)) s = true -> Posix.rfind c s = (-1)%Z.
Proof.
  induction s as [|a s IH]; simpl; [reflexivity|].
  intros H. apply andb_prop in H as [Ha Hs]. rewrite (IH Hs). simpl.
  by destruct (Ascii.eqb a c).
Qed.

Lemma only_dots_shift n i a s :
  Posix.only_dots n (S i) (String a s) = Posix.only_dots n i s.
Proof. revert i. induction n as [|n IH]; intros i; simpl; [reflexivity|]. by rewrite IH. Qed.

Lemma only_dots_app n i a b :
  (i + n <= String.length a)%nat ->
  Posix.only_dots n i (String.append a b) = Posix.only_dots n i a.
Proof.
  revert n i. induction a as [|x a IH]; intros n i Hn; simpl in Hn.
  - by replace n with 0%nat by lia.
  - change (String.append (String x a) b) with (String x (String.append a b)).
    destruct i as [|i].
    + destruct n as [|n]; [reflexivity|]. simpl.
      destruct (Ascii.eqb x "."%char); [|reflexivity].
      rewrite !only_dots_shift. apply IH. lia.
    + rewrite !only_dots_shift. apply IH. lia.
Qed.

Lemma only_dots_from i s :
  (i <= String.length s)%nat ->
  Posix.only_dots (String.length s - i) i s
  = all_chars (Ascii.eqb "."%char) (Posix.from i s).
Proof.
  unfold Posix.from. revert i. induction s as [|a s IH]; intros i Hi; simpl in Hi.
  - replace i with 0%nat by lia. reflexivity.
  - destruct i as [|i].
    + cbn [String.length Nat.sub Posix.only_dots String.get substring all_chars].
      rewrite (Ascii.eqb_sym a). destruct (Ascii.eqb "."%char a); [|reflexivity].
      rewrite only_dots_shift. specialize (IH 0%nat). rewrite Nat.sub_0_r in IH.
      apply IH. lia.
    + cbn [String.length Nat.sub substring]. rewrite only_dots_shift. apply IH. lia.
Qed.

Lemma upto_app a b : Posix.upto (String.length a) (String.append a b) = a.
Proof.
  unfold Posix.upto. induction a as [|x a IH].
  - by destruct b.
  - change (String.append (String x a) b) with (String x (String.append a b)).
    simpl. by rewrite IH.
Qed.

Lemma length_append a b :
  String.length (String.append a b) = (String.length a + String.length b)%nat.
Proof.
  induction a as [|x a IH]; [reflexivity|].
  change (String.append (String x a) b) with (String x (String.append a b)).
  simpl. by rewrite IH.
Qed.

(** X8. The log file lies beside the configuration file: when the last
    component of the path has a name that is not made of dots alone,
    followed by a dot and an extension without dot or slash, the log path is
    the path with the extension replaced by [log]. *)
Theorem log_path_replaces_the_extension (stem ext : string) :
  all_chars plain_char ext = true ->
  all_chars (Ascii.eqb "."%char) (Posix.basename stem) = false ->
  LOG_PATH (String.append stem (String "." ext)) = String.append stem ".log".
Proof.
  intros Hext Hname. unfold LOG_PATH, Posix.splitext.
  assert (Hdot : Posix.rfind "."%char (String "." ext) = 0%Z).
  { simpl. rewrite rfind_absent; [reflexivity|].
    clear Hname. induction ext as [|a e IH]; [reflexivity|]. simpl in *.
    apply andb_prop in Hext as [Ha He]. apply andb_prop in Ha as [Ha _].
    by rewrite Ha, IH. }
  assert (Hsep : Posix.rfind "/"%char (String "." ext) = (-1)%Z).
  { simpl. rewrite rfind_absent; [reflexivity|].
    clear Hname Hdot. induction ext as [|a e IH]; [reflexivity|]. simpl in *.
    apply andb_prop in Hext as [Ha He]. apply andb_prop in Ha as [_ Ha].
    by rewrite Ha, IH. }
  rewrite !rfind_app, Hdot, Hsep.
  change (0 <=? 0)%Z with true. change (0 <=? -1)%Z with false. cbv iota.
  pose proof (rfind_bounds "/"%char stem) as Hb.
  replace (Posix.rfind "/" stem <? Z.of_nat (String.length stem) + 0)%Z with true
    by (symmetry; apply Z.ltb_lt; lia).
  replace (Z.to_nat (Z.of_nat (String.length stem) + 0)) with (String.length stem) by lia.
  replace (Z.to_nat (Z.of_nat (String.length stem) + 0 - (Posix.rfind "/" stem + 1)))
    with (String.length stem - Z.to_nat (Posix.rfind "/" stem + 1))%nat by lia.
  rewrite only_dots_app by lia.
  rewrite only_dots_from by lia.
  unfold Posix.basename in Hname. rewrite Hname. simpl fst.
  by rewrite upto_app.
Qed.

(** For [/etc/imap_move/conf.xml]. *)
Lemma log_path_replaces_the_extension_witness :
  LOG_PATH (String.append "/etc/imap_move/conf" (String "." "xml"))
  = String.append "/etc/imap_move/conf" ".log".
Proof.
  apply (log_path_replaces_the_extension "/etc/imap_move/conf" "xml"); reflexivity.
Defined.

(** Paths for which nothing is replaced: a dot in a directory name only, a
    name of leading dots. *)
Example log_path_without_extension :
  (LOG_PATH "conf.d/settings", LOG_PATH ".imap_move", LOG_PATH "backup/..conf")
  = ("conf.d/settings.log", ".imap_move.log", "backup/..conf.log").
Proof. reflexivity. Qed.

(** ** What the script keeps, whatever the servers answer *)

Section ScriptKeeps.

Variable R : World -> World -> Prop.
Hypothesis R_refl : forall w, R w w.
Hypothesis R_trans : forall w1 w2 w3, R w1 w2 -> R w2 w3 -> R w1 w3.
Hypothesis R_log : forall lvl msg args w lg,
  logger w = Some lg -> R w (set_logger (Some (handle lg (record lvl msg args))) w).
Hypothesis R_mailbox : forall p m w, R w (set_mailbox p m w).
Hypothesis R_count : forall c w, R w (set_count c w).
Hypothesis R_connect : forall p ssl, keeps R (connect p ssl).
Hypothesis R_listing : forall p title, keeps R (debug_folders p title).
Hypothesis R_login : forall p u pw, keeps R (exchange p (LOGIN u pw)).
Hypothesis R_select : forall p mb, keeps R (exchange p (SELECT mb)).
Hypothesis R_search : keeps R (exchange Source (SEARCH "ALL")).
Hypothesis R_fetch : forall set, keeps R (exchange Source (FETCH set PEEK_PARTS)).
Hypothesis R_append : forall mb fl d lit, keeps R (exchange Target (APPEND mb fl d lit)).
Hypothesis R_store : forall set, keeps R (exchange Source (STORE set "+FLAGS" "(\Deleted)")).

Lemma script_log lvl msg args : keeps R (log lvl msg args).
Proof. apply (keeps_log R R_refl). intros w lg. apply R_log. Qed.

Lemma script_login p u pw : keeps R (login p u pw).
Proof.
  unfold login. destruct u as [u|]; [|apply (keeps_raise R R_refl)].
  destruct pw as [pw|]; [|apply (keeps_raise R R_refl)].
  apply (keeps_bind R R_trans); [apply (keeps_simple_command R R_refl R_trans), R_login|].
  intros r. destruct (r_typ r); try (apply (keeps_raise R R_refl)).
  apply (keeps_bind R R_trans); [apply (keeps_set_state R R_mailbox)|].
  intros _. apply (keeps_ret R R_refl).
Qed.

Lemma script_open_session p cfg msg : keeps R (open_session p cfg msg).
Proof.
  unfold open_session.
  apply (keeps_bind R R_trans); [apply script_log|]. intros _.
  apply (keeps_bind R R_trans).
  { destruct (use_ssl cfg);
      (apply (keeps_bind R R_trans); [apply R_connect|]; intros m;
       apply keeps_modify; intros w; apply R_mailbox). }
  intros _. apply (keeps_bind R R_trans); [apply script_login|].
  intros _. apply (keeps_ret R R_refl).
Qed.

Lemma script_store_deleted set : keeps R (store Source set "+FLAGS" Deleted).
Proof. apply (keeps_method R R_refl R_trans Source _ untagged_response), R_store. Qed.

Lemma script_transfer_one num : keeps R (transfer_one num).
Proof.
  unfold transfer_one.
  apply (keeps_bind R R_trans); [apply (keeps_gets R R_refl)|]. intros cfg.
  apply (keeps_bind R R_trans); [apply script_log|]. intros _.
  apply (keeps_bind R R_trans); [apply (keeps_fetch R R_refl R_trans), R_fetch|].
  intros [resp data].
  apply (keeps_bind R R_trans); [apply (keeps_index R R_refl)|]. intros d0.
  apply (keeps_bind R R_trans); [apply (keeps_subscript R R_refl)|]. intros message.
  apply (keeps_bind R R_trans); [apply script_log|]. intros _.
  apply (keeps_bind R R_trans); [apply (keeps_index R R_refl)|]. intros d0'.
  apply (keeps_bind R R_trans); [apply (keeps_subscript R R_refl)|]. intros line.
  apply (keeps_bind R R_trans); [apply (keeps_ParseFlags R R_refl)|]. intros flags.
  apply (keeps_bind R R_trans); [apply script_log|]. intros _.
  apply (keeps_bind R R_trans); [apply (keeps_index R R_refl)|]. intros d0''.
  apply (keeps_bind R R_trans); [apply (keeps_subscript R R_refl)|]. intros line'.
  apply (keeps_bind R R_trans); [apply (keeps_Internaldate2tuple R R_refl R_trans)|]. intros tl.
  apply (keeps_bind R R_trans); [apply (keeps_Time2Internaldate R R_refl)|]. intros date.
  apply (keeps_bind R R_trans); [apply script_log|]. intros _.
  apply (keeps_bind R R_trans); [apply (keeps_append R R_refl R_trans), R_append|].
  intros result.
  destruct (String.eqb _ _); [|apply (keeps_ret R R_refl)].
  apply (keeps_bind R R_trans); [apply (keeps_gets R R_refl)|]. intros c.
  apply (keeps_bind R R_trans); [apply keeps_modify; intros w; apply R_count|]. intros _.
  apply (keeps_bind R R_trans); [apply script_store_deleted|]. intros _.
  apply (keeps_ret R R_refl).
Qed.

Lemma script_transfer_loop nums : keeps R (transfer_loop nums).
Proof.
  induction nums as [|num rest IH]; simpl; [apply (keeps_ret R R_refl)|].
  apply (keeps_bind R R_trans); [apply script_transfer_one|]. intros _. exact IH.
Qed.

Lemma script_transfer : keeps R transfer.
Proof.
  unfold transfer.
  apply (keeps_bind R R_trans); [apply (keeps_search R R_refl R_trans), R_search|].
  intros [typ data].
  apply (keeps_bind R R_trans); [apply keeps_modify; intros w; apply R_count|]. intros _.
  apply (keeps_bind R R_trans); [apply (keeps_index R R_refl)|]. intros d0.
  apply (keeps_bind R R_trans); [apply (keeps_bytes_split R R_refl)|]. intros nums.
  apply (keeps_bind R R_trans); [apply script_transfer_loop|]. intros _.
  apply (keeps_bind R R_trans); [apply (keeps_gets R R_refl)|]. intros c.
  apply script_log.
Qed.

Lemma script_select p mb : keeps R (select p mb).
Proof. apply (keeps_select R R_refl R_trans R_mailbox), R_select. Qed.

Lemma script_purge : keeps R purge.
Proof.
  unfold purge.
  apply (keeps_bind R R_trans); [apply (keeps_gets R R_refl)|]. intros cfg.
  apply (keeps_bind R R_trans); [apply script_select|]. intros _.
  apply (keeps_bind R R_trans); [apply script_store_deleted|]. intros _.
  apply (keeps_raise R R_refl).
Qed.

Lemma keeps_script : keeps R script.
Proof.
  unfold script.
  apply (keeps_bind R R_trans); [apply (keeps_gets R R_refl)|]. intros cfg.
  apply (keeps_bind R R_trans); [apply script_open_session|]. intros _.
  apply (keeps_bind R R_trans); [apply R_listing|]. intros _.
  apply (keeps_bind R R_trans); [apply script_open_session|]. intros _.
  apply (keeps_bind R R_trans); [apply R_listing|]. intros _.
  apply (keeps_bind R R_trans); [apply script_log|]. intros _.
  apply (keeps_bind R R_trans); [apply script_select|]. intros _.
  apply (keeps_bind R R_trans); [apply script_log|]. intros _.
  apply (keeps_bind R R_trans); [apply script_select|]. intros _.
  apply (keeps_bind R R_trans); [apply script_transfer|]. intros _.
  apply script_purge.
Qed.

End ScriptKeeps.

(** The debug listing, for a relation the LIST command keeps. *)
Lemma keeps_folder_lines R (R_refl : forall w, R w w)
  (R_trans : forall w1 w2 w3, R w1 w2 -> R w2 w3 -> R w1 w3) items buffer :
  keeps R (folder_lines items buffer).
Proof.
  revert buffer. induction items as [|i rest IH]; intros buffer; simpl.
  - apply (keeps_ret R R_refl).
  - apply (keeps_bind R R_trans); [apply (keeps_decode R R_refl)|]. intros s.
    apply (keeps_bind R R_trans); [apply (keeps_index R R_refl)|]. intros p0.
    apply (keeps_bind R R_trans); [apply (keeps_index R R_refl)|]. intros p1.
    apply IH.
Qed.

Lemma keeps_debug_folders R (R_refl : forall w, R w w)
  (R_trans : forall w1 w2 w3, R w1 w2 -> R w2 w3 -> R w1 w3)
  (R_log : forall lvl msg args w lg,
     logger w = Some lg -> R w (set_logger (Some (handle lg (record lvl msg args))) w))
  p title :
  keeps R (exchange p LIST) -> keeps R (debug_folders p title).
Proof.
  intros Hl. unfold debug_folders.
  apply (keeps_bind R R_trans); [apply (keeps_isEnabledFor R R_refl)|]. intros [|].
  - apply (keeps_bind R R_trans); [by apply (keeps_imap_list R R_refl R_trans)|].
    intros [t items].
    apply (keeps_bind R R_trans); [by apply keeps_folder_lines|]. intros buffer.
    apply (keeps_log R R_refl). intros w lg. apply R_log.
  - apply (keeps_ret R R_refl).
Qed.




(** *** The source keeps its messages *)














(** *** The target only grows *)











(** *** The folder listing *)

Lemma run_world w : (run w).2 = (cleanup (script w).2).2.
Proof.
  unfold run, signal_handler. destruct (script w) as [r w1]. simpl.
  by destruct (cleanup w1).
Qed.

Lemma no_listing_refl w : no_listing w w.
Proof. intros H. split; [exact H|]. exists []. by rewrite app_nil_r. Qed.

Lemma no_listing_trans w1 w2 w3 : no_listing w1 w2 -> no_listing w2 w3 -> no_listing w1 w3.
Proof.
  intros H1 H2 Ha. destruct (H1 Ha) as (Ha2 & e1 & Hw1 & F1).
  destruct (H2 Ha2) as (Ha3 & e2 & Hw2 & F2). split; [exact Ha3|].
  exists (e1 ++ e2). split; [by rewrite Hw2, Hw1, app_assoc | by apply Forall_app].
Qed.

Lemma no_listing_same w w' : logger w' = logger w -> wire w' = wire w -> no_listing w w'.
Proof.
  intros Hl Hw (lg & Hlg & Hlvl). split.
  - exists lg. by rewrite Hl.
  - exists []. by rewrite app_nil_r.
Qed.

Lemma no_listing_log lvl msg args w lg :
  logger w = Some lg ->
  no_listing w (set_logger (Some (handle lg (record lvl msg args))) w).
Proof.
  intros Hlg (lg' & Hlg' & Hlvl). rewrite Hlg in Hlg'. injection Hlg' as <-. split.
  - by eexists.
  - exists []. by rewrite app_nil_r.
Qed.

Lemma no_listing_exchange p c : c <> LIST -> keeps no_listing (exchange p c).
Proof.
  intros Hc w (lg & Hlg & Hlvl). split.
  - exists lg. by rewrite exchange_logger.
  - destruct (exchange_wire p c w) as (o & Hw & _). eexists. split; [exact Hw|].
    by repeat constructor.
Qed.

Lemma no_listing_connect p ssl : keeps no_listing (connect p ssl).
Proof.
  intros w. apply no_listing_same; unfold connect;
    destruct (next_fault (host p w)) as [[] sv1]; by destruct p.
Qed.

Lemma no_listing_debug_folders p title : keeps no_listing (debug_folders p title).
Proof.
  intros w Ha. pose proof Ha as (lg & Hlg & Hlvl).
  unfold debug_folders, bind, isEnabledFor. rewrite Hlg.
  replace (level lg <=? DEBUG)%Z with false by (symmetry; apply Z.leb_gt; lia).
  by apply no_listing_refl.
Qed.

Lemma no_listing_script : keeps no_listing script.
Proof.
  apply (keeps_script no_listing no_listing_refl no_listing_trans).
  - intros. by apply no_listing_log.
  - intros. by apply no_listing_same.
  - intros. by apply no_listing_same.
  - apply no_listing_connect.
  - apply no_listing_debug_folders.
  - intros. by apply no_listing_exchange.
  - intros. by apply no_listing_exchange.
  - by apply no_listing_exchange.
  - intros. by apply no_listing_exchange.
  - intros. by apply no_listing_exchange.
  - intros. by apply no_listing_exchange.
Qed.

Lemma no_listing_cleanup : keeps no_listing cleanup.
Proof.
  apply (keeps_cleanup no_listing no_listing_refl no_listing_trans (fun _ => True));
    try exact I.
  - intros. by apply no_listing_log.
  - intros. by apply no_listing_same.
  - intros. by apply no_listing_same.
  - intros. by apply no_listing_exchange.
  - intros. by apply no_listing_exchange.
  - intros. by apply no_listing_exchange.
Qed.

(** X11. The folders are listed at DEBUG only: when the logger is not
    enabled for DEBUG, the run, teardown included, sends no LIST command,
    whatever the servers answer. *)
Theorem folders_are_listed_at_debug_only (w : World) (lg : Logger) :
  logger w = Some lg -> (DEBUG < level lg)%Z ->
  exists evs,
    wire (run w).2 = wire w ++ evs /\ Forall (fun e => ev_cmd e <> LIST) evs.
Proof.
  intros Hlg Hlvl. rewrite run_world.
  assert (H : no_listing w (cleanup (script w).2).2).
  { eapply no_listing_trans; [apply no_listing_script | apply no_listing_cleanup]. }
  apply H. by exists lg.
Qed.

(** On the sample process, which logs at INFO. *)
Lemma folders_are_listed_at_debug_only_witness :
  logger demo_start = Some {| level := INFO; records := [] |} /\
  (DEBUG < level {| level := INFO; records := [] |})%Z /\
  exists evs,
    wire (run demo_start).2 = wire demo_start ++ evs /\
    Forall (fun e => ev_cmd e <> LIST) evs.
Proof.
  assert (H1 : logger demo_start = Some {| level := INFO; records := [] |}) by reflexivity.
  assert (H2 : (DEBUG < level {| level := INFO; records := [] |})%Z) by reflexivity.
  split; [exact H1|]. split; [exact H2|].
  exact (folders_are_listed_at_debug_only demo_start _ H1 H2).
Defined.

(** *** The logger and the exit hook *)

Lemma exchange_raises p c w e w' : exchange p c w = (Raise e, w') -> e = IMAP4_abort.
Proof.
  unfold exchange. destruct (sv_up (host p w)); [|by intros [= <- _]].
  destruct (next_fault (host p w)) as [[] sv1]; try destruct (serve c sv1);
    intros H; by simplify_eq.
Qed.

Lemma simple_command_failure p c w e w' :
  simple_command p c w = (Raise e, w') -> is_Some (mailbox p w) -> imap_failure e.
Proof.
  unfold simple_command, bind, the_mailbox, raise, ret. intros H [m Hm]. rewrite Hm in H.
  destruct (allowed c (state m)); [|injection H as <- _; left; by eexists].
  destruct (exchange p c w) as [[rep|e'] w1] eqn:He.
  - destruct (r_typ rep); simplify_eq. left. by eexists.
  - injection H as <- _. right. by eapply exchange_raises.
Qed.

Lemma method_failure p c (f : Reply -> Typ * list Item) w e w' :
  (let* r := simple_command p c in ret (f r)) w = (Raise e, w') ->
  is_Some (mailbox p w) -> imap_failure e.
Proof.
  intros H Hm. apply bind_inv in H; destruct H as [(e' & H & [= <-]) | (r & w1 & _ & H)];
    [by eapply simple_command_failure | discriminate].
Qed.

Lemma close_failure p w e w' :
  close p w = (Raise e, w') -> is_Some (mailbox p w) -> imap_failure e.
Proof.
  unfold close. intros H Hm.
  apply bind_inv in H; destruct H as [(e' & H & _) | (m & w1 & Hs & H)].
  { unfold the_mailbox in H. destruct Hm as [m Hm]. by rewrite Hm in H. }
  unfold the_mailbox in Hs. destruct (mailbox p w) eqn:Hmb; [|discriminate].
  injection Hs as <- <-. unfold finally in H.
  destruct ((let* r := simple_command p CLOSE in ret (tagged r)) w) as [r w2] eqn:Hc.
  unfold set_state, modify in H. injection H as -> _.
  eapply method_failure; [exact Hc | by rewrite Hmb].
Qed.

Lemma logout_failure p w e w' :
  logout p w = (Raise e, w') -> is_Some (mailbox p w) -> imap_failure e.
Proof.
  unfold logout. intros H Hm.
  apply bind_inv in H; destruct H as [(e' & H & _) | (m & w1 & Hs & H)].
  { unfold the_mailbox in H. destruct Hm as [m Hm]. by rewrite Hm in H. }
  unfold the_mailbox in Hs. destruct (mailbox p w) eqn:Hmb; [|discriminate].
  injection Hs as <- <-.
  apply bind_inv in H; destruct H as [(e' & H & _) | ([] & w2 & Hs & H)]; [discriminate|].
  unfold set_state, modify in Hs. injection Hs as <-.
  apply bind_inv in H; destruct H as [(e' & H & [= <-]) | (rep & w3 & Hs & H)].
  { eapply simple_command_failure; [exact H|]. rewrite mailbox_set_mailbox. by eexists. }
  apply bind_inv in H; destruct H as [(e' & H & _) | ([] & w4 & Hs' & H)]; discriminate.
Qed.

Lemma cleanup_session_failure p label w e w' :
  cleanup_session p label w = (Raise e, w') -> is_Some (logger w) -> imap_failure e.
Proof.
  unfold cleanup_session. intros H Hlog.
  apply bind_inv in H; destruct H as [(? & H & ?) | (present & w1 & Hs & H)]; [discriminate|].
  unfold gets in Hs. injection Hs as <- <-.
  destruct (mailbox p w) as [m|] eqn:Hm; [|discriminate].
  apply bind_inv in H; destruct H as [(? & H & ?) | (hl & w1 & Hs & H)]; [discriminate|].
  unfold gets in Hs. injection Hs as <- <-.
  destruct Hlog as [lg Hlg]. rewrite Hlg in H.
  destruct (log_returns INFO label [state_name (state m)] w) as [l1 Hl1]; [by eexists|].
  erewrite bind_ret_eq in H; cycle 1.
  { erewrite bind_ret_eq; [exact Hl1|]. unfold the_mailbox. by rewrite Hm. }
  assert (Hm1 : mailbox p (set_logger (Some l1) w) = Some m) by (by destruct p).
  erewrite bind_ret_eq in H; [|unfold the_mailbox; by rewrite Hm1].
  destruct (String.eqb (state_name (state m)) "SELECTED"); [|discriminate].
  destruct (log_returns DEBUG "Closing..." [] (set_logger (Some l1) w)) as [l2 Hl2];
    [by eexists|].
  erewrite bind_ret_eq in H; [|exact Hl2].
  assert (Hm2 : mailbox p (set_logger (Some l2) (set_logger (Some l1) w)) = Some m)
    by (by destruct p).
  apply bind_inv in H; destruct H as [(e' & H & [= <-]) | (x & w3 & Hs & H)].
  { eapply method_failure; [exact H | by rewrite Hm2]. }
  apply expunge_ret in Hs as [_ Hm3]. rewrite Hm2 in Hm3.
  apply bind_inv in H; destruct H as [(e' & H & [= <-]) | (y & w4 & Hs & H)].
  { eapply close_failure; [exact H | by rewrite Hm3]. }
  apply close_ret in Hs as [_ Hm4].
  apply bind_inv in H; destruct H as [(e' & H & [= <-]) | (z & w5 & Hs & H)].
  { eapply logout_failure; [exact H | by rewrite Hm4]. }
  discriminate.
Qed.

Lemma logger_stays_refl w : logger_stays w w.
Proof. by intros H. Qed.

Lemma logger_stays_trans w1 w2 w3 :
  logger_stays w1 w2 -> logger_stays w2 w3 -> logger_stays w1 w3.
Proof. unfold logger_stays. auto. Qed.

Lemma logger_stays_same w w' : logger w' = logger w -> logger_stays w w'.
Proof. unfold logger_stays. by intros ->. Qed.

Lemma logger_stays_exchange p c : keeps logger_stays (exchange p c).
Proof. intros w. apply logger_stays_same, exchange_logger. Qed.

Lemma logger_stays_connect p ssl : keeps logger_stays (connect p ssl).
Proof.
  intros w. apply logger_stays_same. unfold connect.
  destruct (next_fault (host p w)) as [[] sv1]; by destruct p.
Qed.

Lemma logger_stays_log lvl msg args w lg :
  logger w = Some lg ->
  logger_stays w (set_logger (Some (handle lg (record lvl msg args))) w).
Proof. intros _ _. by eexists. Qed.

Lemma logger_stays_cleanup_session p label : keeps logger_stays (cleanup_session p label).
Proof.
  apply (keeps_cleanup_session logger_stays logger_stays_refl logger_stays_trans
           (fun _ => True)); try exact I; try apply logger_stays_exchange.
  - intros. by apply logger_stays_log.
  - intros. by apply logger_stays_same.
  - intros. by apply logger_stays_same.
Qed.

Lemma logger_stays_script : keeps logger_stays script.
Proof.
  apply (keeps_script logger_stays logger_stays_refl logger_stays_trans);
    try (intros; apply logger_stays_exchange).
  - intros. by apply logger_stays_log.
  - intros. by apply logger_stays_same.
  - intros. by apply logger_stays_same.
  - apply logger_stays_connect.
  - intros p title.
    apply (keeps_debug_folders logger_stays logger_stays_refl logger_stays_trans).
    + intros. by apply logger_stays_log.
    + apply logger_stays_exchange.
Qed.

Lemma cleanup_failure w e :
  is_Some (logger w) -> (cleanup w).1 = Raise e -> imap_failure e.
Proof.
  intros Hlog H. destruct (cleanup w) as [r w'] eqn:Hc. simpl in H. subst r.
  unfold cleanup in Hc.
  destruct (log_returns INFO "Cleaning..." [] w Hlog) as [l Hl].
  erewrite bind_ret_eq in Hc; [|exact Hl].
  apply bind_inv in Hc; destruct Hc as [(e' & H & [= <-]) | ([] & w1 & Hs & H)].
  - eapply cleanup_session_failure; [exact H | by eexists].
  - eapply cleanup_session_failure; [exact H|].
    pose proof (logger_stays_cleanup_session Source "Source IMAP session state: %s"
                  (set_logger (Some l) w)) as Hk.
    rewrite Hs in Hk. apply Hk. by eexists.
Qed.

(** X12. The exit hook finds the logger: the hook is registered once the
    logger exists, and nothing in the script unbinds it.  So when the hook
    runs, however the script ended, [cleanup] does not stop at its first
    line with a [NameError]: it returns, or ends with an exception of
    [imaplib] raised by [expunge], [close] or [logout]. *)
Theorem exit_hook_finds_the_logger (w : World) :
  is_Some (logger w) ->
  is_Some (logger (script w).2) /\
  ((cleanup (script w).2).1 = Ret tt \/
   exists e, (cleanup (script w).2).1 = Raise e /\ imap_failure e).
Proof.
  intros Hlog.
  assert (Hlog' : is_Some (logger (script w).2)) by (by apply logger_stays_script).
  split; [exact Hlog'|].
  destruct (cleanup (script w).2).1 as [[]|e] eqn:Hc; [by left|].
  right. exists e. split; [reflexivity|]. by eapply cleanup_failure.
Qed.

(** On the sample process. *)
Lemma exit_hook_finds_the_logger_witness :
  is_Some (logger demo_start) /\
  is_Some (logger (script demo_start).2) /\
  ((cleanup (script demo_start).2).1 = Ret tt \/
   exists e, (cleanup (script demo_start).2).1 = Raise e /\ imap_failure e).
Proof.
  assert (H : is_Some (logger demo_start)) by (by eexists).
  split; [exact H|]. exact (exit_hook_finds_the_logger demo_start H).
Defined.

(** ** Runs on healthy servers *)

Lemma side_unchanged q w w' m b sel up :
  unchanged q w w' -> side q w m b sel up -> side q w' m b sel up.
Proof. intros [Hm Hh] H. unfold side. by rewrite Hm, Hh. Qed.

Lemma unchanged_refl q w : unchanged q w w.
Proof. by split. Qed.

Lemma unchanged_trans q w1 w2 w3 : unchanged q w1 w2 -> unchanged q w2 w3 -> unchanged q w1 w3.
Proof. intros [H1 H2] [H3 H4]. split; congruence. Qed.

Lemma globals_logger w cfg lvl c l :
  level l = lvl -> globals w cfg lvl c -> globals (set_logger (Some l) w) cfg lvl c.
Proof. intros Hl (Hs & _ & Hc). repeat split; try assumption. by exists l. Qed.

(** A log call on healthy globals. *)
Lemma log_healthy lvl0 msg args w cfg lvl c :
  globals w cfg lvl c ->
  exists w', log lvl0 msg args w = (Ret tt, w') /\
             globals w' cfg lvl c /\ (forall q, unchanged q w w').
Proof.
  intros HG. pose proof HG as (Hs & (lg & Hlg & Hlvl) & Hc).
  unfold log. rewrite Hlg. destruct (level lg <=? lvl0)%Z.
  - eexists. split; [reflexivity|]. split; [by apply globals_logger|].
    intros q. by destruct q.
  - eexists. split; [reflexivity|]. split; [exact HG|]. intros q. apply unchanged_refl.
Qed.

(** One command on a healthy session, when the server does not answer
    BAD: the reply is the one the server gives and the server is as the
    command leaves it. *)
Lemma command_healthy p c w cfg lvl cnt m b sel rep b' sel' up' :
  globals w cfg lvl cnt -> side p w (Some m) b sel true ->
  allowed c (state m) = true ->
  (forall sv, sv = host p w -> sv_boxes sv = b -> sv_selected sv = sel -> sv_up sv = true ->
              sv_faults sv = [] ->
     (serve c sv).1 = rep /\
     sv_boxes (serve c sv).2 = b' /\ sv_selected (serve c sv).2 = sel' /\
     sv_up (serve c sv).2 = up' /\ sv_faults (serve c sv).2 = []) ->
  r_typ rep <> BAD ->
  exists w', simple_command p c w = (Ret rep, w') /\
             globals w' cfg lvl cnt /\ side p w' (Some m) b' sel' up' /\
             unchanged (other p) w w'.
Proof.
  intros (Hs & Hl & Hc) (Hm & Hb & Hsel & Hup & Hf) Hal Hserve Hbad.
  destruct (Hserve (host p w) eq_refl Hb Hsel Hup Hf) as (Hr & Hb' & Hs' & Hu' & Hf').
  eexists. split.
  { rewrite (simple_command_served p c w m Hm Hal Hup Hf); [by rewrite Hr|]. by rewrite Hr. }
  split; [|split].
  - repeat split; by destruct p.
  - unfold side.
    replace (host p (add_event (event p c (Answered (r_typ rep)))
                       (set_host p (serve c (host p w)).2 w)))
      with (serve c (host p w)).2 by (by destruct p).
    repeat split; assumption.
  - split; by destruct p.
Qed.


Lemma set_mailbox_healthy p m w cfg lvl c m0 b sel up :
  globals w cfg lvl c -> side p w m0 b sel up ->
  globals (set_mailbox p m w) cfg lvl c /\ side p (set_mailbox p m w) m b sel up /\
  unchanged (other p) w (set_mailbox p m w).
Proof.
  intros (Hs & Hl & Hc) (Hm & Hb & Hsel & Hup & Hf). split; [|split].
  - repeat split; by destruct p.
  - unfold side. rewrite mailbox_set_mailbox.
    replace (host p (set_mailbox p m w)) with (host p w) by (by destruct p). by repeat split.
  - split; by destruct p.
Qed.







Lemma fetch_healthy num n m f msgs w cfg lvl c b :
  globals w cfg lvl c -> side Source w (Some {| state := St_SELECTED |}) b (Some f) true ->
  b !! f = Some msgs -> parse_set (length msgs) num = Some (S n, S n) -> msgs !! n = Some m ->
  exists w',
    fetch Source num PEEK_PARTS w
    = (Ret (OK, [ITuple {| h_seq := S n; h_flags := Some (msg_flags m);
                           h_date := Some (render_date (sv_zone (source_host w)) (msg_date m)) |}
                        (msg_body m);
                 IBytes ")"]), w') /\
    globals w' cfg lvl c /\
    side Source w' (Some {| state := St_SELECTED |}) b (Some f) true /\
    unchanged Target w w'.
Proof.
  intros HG HS Hf Hnum Hm.
  destruct (command_healthy Source (FETCH num PEEK_PARTS) w cfg lvl c _ b (Some f)
              (reply OK "FETCH completed"
                 [ITuple {| h_seq := S n; h_flags := Some (msg_flags m);
                            h_date := Some (render_date (sv_zone (source_host w)) (msg_date m)) |}
                         (msg_body m);
                  IBytes ")"])
              b (Some f) true HG HS eq_refl)
    as (w1 & Hrun & HG1 & HS1 & HU1).
  { intros sv -> Hb Hsel Hup Hfl.
    rewrite (serve_fetch_one num n m msgs f); [|assumption|by rewrite Hb|assumption..].
    cbn [fst snd sv_boxes sv_selected sv_up sv_faults with_boxes].
    rewrite Hb, insert_id by done. by repeat split. }
  { discriminate. }
  unfold fetch. erewrite bind_ret_eq; [|exact Hrun].
  eexists. split; [reflexivity|]. split; [exact HG1|]. split; [exact HS1 | exact HU1].
Qed.






Lemma log_bind {B} lvl0 msg args (k : unit -> M B) w cfg lvl c :
  globals w cfg lvl c ->
  exists w', bind (log lvl0 msg args) k w = k tt w' /\
             globals w' cfg lvl c /\ (forall q, unchanged q w w').
Proof.
  intros HG. destruct (log_healthy lvl0 msg args w _ _ _ HG) as (w' & Hl & HG' & HU).
  exists w'. split; [by apply bind_ret_eq | by split].
Qed.

Ltac log_next HG w' HG' HU :=
  match goal with
  | |- context [bind (log ?l ?msg ?a) ?k ?w] =>
    destruct (log_bind l msg a k w _ _ _ HG) as (w' & -> & HG' & HU)
  end.

(** *** The clocks *)

















(** *** Message identifiers *)










(** *** The working folder through the loop *)





Lemma moved_none msgs : moved 0 msgs = msgs.
Proof. reflexivity. Qed.

(** *** The loop *)






(** *** The teardown *)

Lemma bind_assoc {A B C} (m : M A) (k1 : A -> M B) (k2 : B -> M C) w :
  bind (bind m k1) k2 w = bind m (fun x => bind (k1 x) k2) w.
Proof. unfold bind. by destruct (m w) as [[a|e] w1]. Qed.

Lemma expunged_twice l : expunged (expunged l) = expunged l.
Proof.
  unfold expunged. induction l as [|m l IH]; simpl; [reflexivity|].
  destruct (negb (has_flag Deleted (msg_flags m))) eqn:E; simpl; [|exact IH].
  by rewrite E, IH.
Qed.


Lemma expunge_healthy p mb msgs w cfg lvl c b :
  globals w cfg lvl c -> side p w (Some {| state := St_SELECTED |}) b (Some mb) true ->
  b !! mb = Some msgs ->
  exists x w', expunge p w = (Ret x, w') /\
               globals w' cfg lvl c /\
               side p w' (Some {| state := St_SELECTED |}) (<[mb := expunged msgs]> b)
                 (Some mb) true /\
               unchanged (other p) w w'.
Proof.
  intros HG HS Hmb.
  destruct (command_healthy p EXPUNGE w cfg lvl c _ b (Some mb)
              (reply OK "EXPUNGE completed" []) (<[mb := expunged msgs]> b) (Some mb) true
              HG HS eq_refl) as (w1 & Hrun & HG1 & HS1 & HU1).
  { intros sv _ Hb Hsel Hup Hfl. unfold serve, in_selected. rewrite Hsel, Hb, Hmb.
    by repeat split. }
  { discriminate. }
  eexists _, _. split.
  { unfold expunge. erewrite bind_ret_eq; [reflexivity | exact Hrun]. }
  split; [exact HG1|]. split; [exact HS1 | exact HU1].
Qed.

Lemma close_healthy p mb msgs w cfg lvl c b :
  globals w cfg lvl c -> side p w (Some {| state := St_SELECTED |}) b (Some mb) true ->
  b !! mb = Some msgs ->
  exists x w', close p w = (Ret x, w') /\
               globals w' cfg lvl c /\
               side p w' (Some {| state := St_AUTH |}) (<[mb := expunged msgs]> b) None true /\
               unchanged (other p) w w'.
Proof.
  intros HG HS Hmb.
  destruct (command_healthy p CLOSE w cfg lvl c _ b (Some mb)
              (reply OK "CLOSE completed" []) (<[mb := expunged msgs]> b) None true
              HG HS eq_refl) as (w1 & Hrun & HG1 & HS1 & HU1).
  { intros sv _ Hb Hsel Hup Hfl. unfold serve, in_selected. rewrite Hsel, Hb, Hmb.
    by repeat split. }
  { discriminate. }
  destruct (set_mailbox_healthy p (Some {| state := St_AUTH |}) w1 _ _ _ _ _ _ _ HG1 HS1)
    as (HG2 & HS2 & HU2).
  eexists _, _. split.
  { unfold close. erewrite bind_ret_eq; [|unfold the_mailbox; by rewrite (proj1 HS)].
    unfold finally. erewrite bind_ret_eq; [|exact Hrun]. reflexivity. }
  split; [exact HG2|]. split; [exact HS2|]. by eapply unchanged_trans.
Qed.

Lemma logout_healthy p w cfg lvl c m b sel :
  globals w cfg lvl c -> side p w (Some m) b sel true ->
  exists x w', logout p w = (Ret x, w') /\
               globals w' cfg lvl c /\
               side p w' (Some {| state := St_LOGOUT |}) b None false /\
               unchanged (other p) w w'.
Proof.
  intros HG HS.
  destruct (set_mailbox_healthy p (Some {| state := St_LOGOUT |}) w _ _ _ _ _ _ _ HG HS)
    as (HG1 & HS1 & HU1).
  destruct (command_healthy p LOGOUT _ cfg lvl c _ b sel
              (reply OK "LOGOUT completed" [IBytes "BYE"]) b None false
              HG1 HS1 eq_refl) as (w2 & Hrun & HG2 & HS2 & HU2).
  { intros sv _ Hb Hsel Hup Hfl. by repeat split. }
  { discriminate. }
  eexists _, _. split.
  { unfold logout. erewrite bind_ret_eq; [|unfold the_mailbox; by rewrite (proj1 HS)].
    erewrite bind_ret_eq; [|reflexivity].
    erewrite bind_ret_eq; [|exact Hrun].
    erewrite bind_ret_eq; [|reflexivity]. reflexivity. }
  split; [|split].
  - destruct HG2 as (H1 & H2 & H3). repeat split; by destruct p.
  - destruct HS2 as (H1 & H2 & H3 & H4 & H5). unfold side. rewrite host_set_host.
    repeat split; assumption.
  - eapply unchanged_trans; [exact HU1|]. eapply unchanged_trans; [exact HU2|].
    split; by destruct p.
Qed.

(** The teardown of one healthy session that is SELECTED. *)
Lemma cleanup_session_healthy p label mb msgs w cfg lvl c b :
  globals w cfg lvl c -> side p w (Some {| state := St_SELECTED |}) b (Some mb) true ->
  b !! mb = Some msgs ->
  exists w', cleanup_session p label w = (Ret tt, w') /\
             globals w' cfg lvl c /\
             side p w' (Some {| state := St_LOGOUT |}) (<[mb := expunged msgs]> b) None false /\
             unchanged (other p) w w'.
Proof.
  intros HG HS Hmb. unfold cleanup_session.
  pose proof HG as (_ & (lg & Hlg & _) & _).
  erewrite bind_ret_eq; [|reflexivity]. rewrite (proj1 HS). cbv beta iota.
  erewrite bind_ret_eq; [|reflexivity]. rewrite Hlg. cbv beta iota.
  rewrite bind_assoc.
  erewrite (bind_ret_eq (the_mailbox p)); [|unfold the_mailbox; by rewrite (proj1 HS)].
  log_next HG w1 HG1 HU1.
  apply (side_unchanged _ _ _ _ _ _ _ (HU1 p)) in HS.
  erewrite bind_ret_eq; [|unfold the_mailbox; by rewrite (proj1 HS)].
  cbn [state state_name]. change (String.eqb "SELECTED" "SELECTED") with true. cbv iota.
  log_next HG1 w2 HG2 HU2.
  apply (side_unchanged _ _ _ _ _ _ _ (HU2 p)) in HS.
  destruct (expunge_healthy p mb msgs w2 _ _ _ _ HG2 HS Hmb) as (x & w3 & He & HG3 & HS3 & HU3).
  erewrite bind_ret_eq; [|exact He].
  destruct (close_healthy p mb (expunged msgs) w3 _ _ _ _ HG3 HS3)
    as (y & w4 & Hc & HG4 & HS4 & HU4); [apply lookup_insert_eq|].
  erewrite bind_ret_eq; [|exact Hc].
  rewrite insert_insert_eq, expunged_twice in HS4.
  destruct (logout_healthy p w4 _ _ _ _ _ _ HG4 HS4) as (z & w5 & Hl & HG5 & HS5 & HU5).
  erewrite bind_ret_eq; [|exact Hl].
  exists w5. split; [reflexivity|]. split; [exact HG5|]. split; [exact HS5|].
  eapply unchanged_trans; [apply HU1|]. eapply unchanged_trans; [apply HU2|].
  eapply unchanged_trans; [exact HU3|]. by eapply unchanged_trans.
Qed.


(** *** The script *)






Lemma run_eq w r w1 r2 w2 :
  script w = (r, w1) -> cleanup w1 = (r2, w2) -> run w = (exit_status r, w2).
Proof. intros H1 H2. unfold run, signal_handler. by rewrite H1, H2. Qed.

Lemma teardown_cleanup w bS bT fS fT msgsS msgsT :
  is_Some (logger w) ->
  side Source w (Some {| state := St_SELECTED |}) bS (Some fS) true ->
  side Target w (Some {| state := St_SELECTED |}) bT (Some fT) true ->
  bS !! fS = Some msgsS -> bT !! fT = Some msgsT ->
  (cleanup w).1 = Ret tt /\
  side Source (cleanup w).2 (Some {| state := St_LOGOUT |})
    (<[fS := expunged msgsS]> bS) None false /\
  side Target (cleanup w).2 (Some {| state := St_LOGOUT |})
    (<[fT := expunged msgsT]> bT) None false.
Proof.
  intros [lg Hlg] HS HT HfS HfT.
  assert (HG : globals w (settings w) (level lg) (count w)).
  { repeat split. by exists lg. }
  unfold cleanup.
  log_next HG w1 HG1 HU1.
  apply (side_unchanged _ _ _ _ _ _ _ (HU1 Source)) in HS.
  apply (side_unchanged _ _ _ _ _ _ _ (HU1 Target)) in HT.
  destruct (cleanup_session_healthy Source "Source IMAP session state: %s" fS msgsS w1
              _ _ _ _ HG1 HS HfS) as (w2 & Hc2 & HG2 & HS2 & HU2).
  erewrite bind_ret_eq; [|exact Hc2].
  apply (side_unchanged _ _ _ _ _ _ _ HU2) in HT.
  destruct (cleanup_session_healthy Target "Target IMAP session state: %s" fT msgsT w2
              _ _ _ _ HG2 HT HfT) as (w3 & Hc3 & HG3 & HT3 & HU3).
  rewrite Hc3. cbn [fst snd].
  split; [reflexivity|]. split; [|exact HT3].
  exact (side_unchanged _ _ _ _ _ _ _ HU3 HS2).
Qed.


(** X13. The teardown of two healthy sessions, each SELECTED on a folder:
    [cleanup] returns; on each server the folder that was selected has lost
    the messages marked [\Deleted] and kept the others in their order, and
    the other folders are as they were; both sessions are in state LOGOUT,
    with no folder selected and the connection closed. *)
Theorem teardown_expunges_the_selected_folders (w : World)
  (bS bT : gmap string (list Message)) (fS fT : string) (msgsS msgsT : list Message) :
  is_Some (logger w) ->
  side Source w (Some {| state := St_SELECTED |}) bS (Some fS) true ->
  side Target w (Some {| state := St_SELECTED |}) bT (Some fT) true ->
  bS !! fS = Some msgsS -> bT !! fT = Some msgsT ->
  (cleanup w).1 = Ret tt /\
  side Source (cleanup w).2 (Some {| state := St_LOGOUT |})
    (<[fS := expunged msgsS]> bS) None false /\
  side Target (cleanup w).2 (Some {| state := St_LOGOUT |})
    (<[fT := expunged msgsT]> bT) None false.
Proof. apply teardown_cleanup. Qed.

(** On the sample world at the head of the loop. *)
Lemma teardown_expunges_the_selected_folders_witness :
  is_Some (logger demo_after_loop) /\
  side Source demo_after_loop (Some {| state := St_SELECTED |})
    (sv_boxes (source_host demo_after_loop)) (Some "Sent") true /\
  side Target demo_after_loop (Some {| state := St_SELECTED |})
    (sv_boxes (target_host demo_after_loop)) (Some "Archive") true /\
  (cleanup demo_after_loop).1 = Ret tt /\
  side Source (cleanup demo_after_loop).2 (Some {| state := St_LOGOUT |})
    (<["Sent" := expunged [add_flags [Deleted] msg_a; add_flags [Deleted] msg_b]]>
       (sv_boxes (source_host demo_after_loop))) None false /\
  side Target (cleanup demo_after_loop).2 (Some {| state := St_LOGOUT |})
    (<["Archive" := expunged [copy_of msg_a; copy_of msg_b]]>
       (sv_boxes (target_host demo_after_loop))) None false.
Proof.
  assert (H1 : is_Some (logger demo_after_loop)) by (vm_compute; by eexists).
  assert (H2 : side Source demo_after_loop (Some {| state := St_SELECTED |})
                 (sv_boxes (source_host demo_after_loop)) (Some "Sent") true)
    by (repeat split; vm_compute; reflexivity).
  assert (H3 : side Target demo_after_loop (Some {| state := St_SELECTED |})
                 (sv_boxes (target_host demo_after_loop)) (Some "Archive") true)
    by (repeat split; vm_compute; reflexivity).
  split; [exact H1|]. split; [exact H2|]. split; [exact H3|].
  apply (teardown_expunges_the_selected_folders demo_after_loop _ _ "Sent" "Archive" _ _
           H1 H2 H3); vm_compute; reflexivity.
Defined.







(** X17. When the source refuses the login, the run ends there: [login]
    raises the error of [imaplib], the script stops with exit status 1, and
    the LOGIN is the one command the run has sent; the target is never
    contacted, no mailbox changes, and the teardown, which finds the source
    session in state NONAUTH and no target session, sends nothing. *)
Theorem refused_login_ends_the_run (cfg : Settings) (lvl : Z) (tz : Z -> Z)
  (src tgt : Server) (text u pw : string) (rest : list Fault) :
  user (source_server cfg) = Some u -> password (source_server cfg) = Some pw ->
  sv_faults src = FNo text :: rest ->
  (script (boot cfg lvl tz src tgt)).1 = Raise (IMAP4_error "LOGIN failed") /\
  (run (boot cfg lvl tz src tgt)).1 = 1%Z /\
  wire (run (boot cfg lvl tz src tgt)).2
    = [event Source (LOGIN u (Text.quoted pw)) (Answered NO)] /\
  sv_boxes (source_host (run (boot cfg lvl tz src tgt)).2) = sv_boxes src /\
  target_host (run (boot cfg lvl tz src tgt)).2 = tgt /\
  source_mailbox (run (boot cfg lvl tz src tgt)).2 = Some {| state := St_NONAUTH |} /\
  target_mailbox (run (boot cfg lvl tz src tgt)).2 = None.
Proof.
  intros Hu Hpw Hf.
  set (w := boot cfg lvl tz src tgt).
  destruct (log_returns INFO "Connecting to source server: %s:%s with user: %s"
              [server (source_server cfg); Text.str_of_Z (port (source_server cfg));
               str_of_opt (user (source_server cfg))] w) as [l1 Hl1]; [by eexists|].
  set (w1 := set_logger (Some l1) w) in Hl1.
  set (sv1 := with_up true (with_selected None src)).
  set (w2 := set_mailbox Source (Some {| state := St_NONAUTH |}) (set_host Source sv1 w1)).
  set (w3 := add_event (event Source (LOGIN u (Text.quoted pw)) (Answered NO))
               (set_host Source (with_faults rest sv1) w2)).
  assert (Hconn : forall ssl,
            (let* m := connect Source ssl in modify (set_mailbox Source (Some m))) w1
            = (Ret tt, w2)).
  { intros ssl. unfold bind, connect, next_fault.
    change (host Source w1) with src. rewrite Hf. reflexivity. }
  assert (Hlogin : login Source (Some u) (Some pw) w2 = (Raise (IMAP4_error "LOGIN failed"), w3)).
  { assert (Hh2 : host Source w2 = sv1) by reflexivity.
    assert (Hup : sv_up sv1 = true) by reflexivity.
    assert (Hf1 : sv_faults sv1 = FNo text :: rest) by exact Hf.
    assert (He : exchange Source (LOGIN u (Text.quoted pw)) w2
                 = (Ret (reply NO text []), w3)).
    { unfold exchange, next_fault. cbv zeta. rewrite !Hh2, Hup, Hf1. reflexivity. }
    assert (Hsc : simple_command Source (LOGIN u (Text.quoted pw)) w2
                  = (Ret (reply NO text []), w3)).
    { unfold simple_command.
      erewrite bind_ret_eq; [|reflexivity].
      cbn [state allowed].
      rewrite (bind_ret_eq _ _ _ _ _ He). reflexivity. }
    unfold login.
    rewrite (bind_ret_eq _ _ _ _ _ Hsc). reflexivity. }
  assert (Hs : script w = (Raise (IMAP4_error "LOGIN failed"), w3)).
  { unfold script. erewrite bind_ret_eq; [|reflexivity].
    apply bind_raise_eq. unfold open_session.
    change (settings w) with cfg.
    erewrite bind_ret_eq; [|exact Hl1].
    erewrite bind_ret_eq; [|destruct (use_ssl (source_server cfg)); apply Hconn].
    rewrite Hu, Hpw. by apply bind_raise_eq. }
  destruct (cleanup_torn_down w3) as (l & Hcl & _).
  { repeat split. by eexists. }
  rewrite (run_eq _ _ _ _ _ Hs Hcl), Hs. cbn [fst snd exit_status].
  by repeat split.
Qed.

(** On the sample process in front of a source that answers NO to the
    login. *)
Lemma refused_login_ends_the_run_witness :
  (script demo_start_refused).1 = Raise (IMAP4_error "LOGIN failed") /\
  (run demo_start_refused).1 = 1%Z /\
  wire (run demo_start_refused).2
    = [event Source (LOGIN "alice" (Text.quoted "secret")) (Answered NO)] /\
  sv_boxes (source_host (run demo_start_refused).2)
    = sv_boxes (idle_server demo_source_boxes
                  [FNo "[AUTHENTICATIONFAILED] Invalid credentials"]) /\
  target_host (run demo_start_refused).2 = idle_server demo_target_boxes [] /\
  source_mailbox (run demo_start_refused).2 = Some {| state := St_NONAUTH |} /\
  target_mailbox (run demo_start_refused).2 = None.
Proof.
  refine (refused_login_ends_the_run demo_settings INFO (fun _ => (-7200)%Z)
            (idle_server demo_source_boxes [FNo "[AUTHENTICATIONFAILED] Invalid credentials"])
            (idle_server demo_target_boxes [])
            "[AUTHENTICATIONFAILED] Invalid credentials" "alice" "secret" [] _ _ _);
    reflexivity.
Defined.
(** ** The folder listing and replies the script does not expect *)

Lemma append_empty s : String.append s "" = s.
Proof.
  induction s as [|x s IH]; [reflexivity|].
  change (String.append (String x s) "") with (String x (String.append s "")).
  by rewrite IH.
Qed.

Lemma append_snoc cur c s :
  String.append (String.append cur (String c "")) s = String.append cur (String c s).
Proof.
  induction cur as [|x cur IH]; [reflexivity|].
  change (String.append (String x cur) (String c "")) with (String x (String.append cur (String c ""))).
  change (String.append (String x ?a) ?b) with (String x (String.append a b)).
  by rewrite IH.
Qed.

Lemma append_assoc a b c :
  String.append (String.append a b) c = String.append a (String.append b c).
Proof.
  induction a as [|x a IH]; [reflexivity|].
  change (String.append (String x a) b) with (String x (String.append a b)).
  change (String.append (String x ?u) ?v) with (String x (String.append u v)).
  by rewrite IH.
Qed.

Lemma split_on_go_whole fuel sep cur s :
  occurs sep s = false -> Text.split_on_go fuel sep cur s = [String.append cur s].
Proof.
  revert fuel cur. induction s as [|c s IH]; intros fuel cur Ho.
  - destruct fuel as [|fuel]; [reflexivity|]. cbn [Text.split_on_go].
    cbn [occurs] in Ho. destruct (Text.strip_prefix sep ""); [discriminate|].
    by rewrite append_empty.
  - destruct fuel as [|fuel]; [reflexivity|]. cbn [Text.split_on_go].
    cbn [occurs] in Ho. destruct (Text.strip_prefix sep (String c s)); [discriminate|].
    rewrite IH by exact Ho. by rewrite append_snoc.
Qed.

Lemma split_on_go_cons fuel sep cur s : Text.split_on_go fuel sep cur s <> [].
Proof.
  revert cur s. induction fuel as [|fuel IH]; intros cur s; [discriminate|].
  cbn [Text.split_on_go]. destruct (Text.strip_prefix sep s); [discriminate|].
  destruct s; [discriminate|apply IH].
Qed.

Lemma split_on_go_two fuel sep cur s :
  occurs sep s = true -> (String.length s < fuel)%nat ->
  exists a b more, Text.split_on_go fuel sep cur s = a :: b :: more.
Proof.
  revert fuel cur. induction s as [|c s IH]; intros fuel cur Ho Hf.
  - destruct fuel as [|fuel]; [simpl in Hf; lia|]. cbn [Text.split_on_go].
    cbn [occurs] in Ho. destruct (Text.strip_prefix sep "") as [rest|]; [|discriminate].
    destruct (Text.split_on_go fuel sep "" rest) as [|b more] eqn:E.
    + by apply split_on_go_cons in E.
    + by exists cur, b, more.
  - destruct fuel as [|fuel]; [simpl in Hf; lia|]. cbn [Text.split_on_go].
    cbn [occurs] in Ho. destruct (Text.strip_prefix sep (String c s)) as [rest|].
    + destruct (Text.split_on_go fuel sep "" rest) as [|b more] eqn:E.
      * by apply split_on_go_cons in E.
      * by exists cur, b, more.
    + apply IH; [exact Ho|simpl in Hf; lia].
Qed.

Lemma folder_lines_step s rest buffer w a b more :
  Text.split_on Text.list_delimiter s = a :: b :: more ->
  folder_lines (IBytes s :: rest) buffer w =
    folder_lines rest
      (String.append buffer (String.append (String.append a (String.append " = " b)) NL)) w.
Proof. intros H. cbn [folder_lines decode]. unfold bind, ret, index. rewrite H. reflexivity. Qed.

(** X18. The listing loop needs the delimiter ["/"]: after elements of
    the LIST data that are lines with [ "/" ] in them, the loop raises
    [IndexError] at a line without it, as a server with another hierarchy
    delimiter sends, and [AttributeError] at an element that is not a line,
    as [None] for an empty listing; with such lines only, it returns. *)
Theorem listing_needs_the_slash_delimiter (good : list Item) (buffer : string) (w : World) :
  Forall (fun i => listed i = true) good ->
  (exists b, folder_lines good buffer w = (Ret b, w)) /\
  (forall i rest, listed i = false ->
     folder_lines (good ++ i :: rest) buffer w =
       (Raise (match i with IBytes _ => IndexError | _ => AttributeError end), w)).
Proof.
  intros Hg. revert buffer. induction Hg as [|i0 good Hi _ IH]; intros buffer.
  - split; [by eexists|]. intros i rest Hi. cbn [app].
    destruct i as [|s|h lit]; [reflexivity| |reflexivity].
    cbn [folder_lines decode listed] in *. unfold bind, ret, index, Text.split_on.
    rewrite split_on_go_whole by exact Hi. reflexivity.
  - destruct i0 as [|s|h lit]; [discriminate| |discriminate]. cbn [listed] in Hi.
    destruct (split_on_go_two (S (String.length s)) Text.list_delimiter "" s Hi)
      as (a & b & more & Hs); [lia|].
    split.
    + rewrite (folder_lines_step _ _ _ _ _ _ _ Hs). apply IH.
    + intros i rest Hbad. change ((IBytes s :: good) ++ i :: rest)
        with (IBytes s :: (good ++ i :: rest)).
      rewrite (folder_lines_step _ _ _ _ _ _ _ Hs). by apply IH.
Qed.

Lemma listing_needs_the_slash_delimiter_witness :
  Forall (fun i => listed i = true) [list_line "INBOX"] /\
  (exists b, folder_lines [list_line "INBOX"] "" demo_start = (Ret b, demo_start)) /\
  (forall i rest, listed i = false ->
     folder_lines ([list_line "INBOX"] ++ i :: rest) "" demo_start =
       (Raise (match i with IBytes _ => IndexError | _ => AttributeError end), demo_start)).
Proof.
  assert (H : Forall (fun i => listed i = true) [list_line "INBOX"])
    by (constructor; [vm_compute; reflexivity|constructor]).
  split; [exact H|].
  exact (listing_needs_the_slash_delimiter [list_line "INBOX"] "" demo_start H).
Defined.

Example listing_with_a_dot_delimiter :
  folder_lines
    [IBytes (String.append "(\HasNoChildren) " (String.append (Text.quoted ".") " INBOX"))]
    "" demo_start
  = (Raise IndexError, demo_start).
Proof. reflexivity. Qed.

Lemma delimiter_chars :
  Text.list_delimiter = String " " (String Text.DQUOTE (String "/" (String Text.DQUOTE " "))).
Proof. reflexivity. Qed.

Lemma strip_delimiter rest :
  Text.strip_prefix Text.list_delimiter (String.append Text.list_delimiter rest) = Some rest.
Proof. rewrite delimiter_chars. reflexivity. Qed.

Lemma split_on_go_S fuel sep cur s :
  Text.split_on_go (S fuel) sep cur s =
    match Text.strip_prefix sep s with
    | Some rest => cur :: Text.split_on_go fuel sep "" rest
    | None =>
      match s with
      | "" => [cur]
      | String c s' => Text.split_on_go fuel sep (String.append cur (String c "")) s'
      end
    end.
Proof. reflexivity. Qed.

Lemma split_on_go_prefix fuel cur pre rest :
  all_chars not_space pre = true ->
  Text.split_on_go (S (String.length pre + fuel)) Text.list_delimiter cur
    (String.append pre (String.append Text.list_delimiter rest))
  = String.append cur pre :: Text.split_on_go fuel Text.list_delimiter "" rest.
Proof.
  revert cur. induction pre as [|c pre IH]; intros cur Hp.
  - change (String.append "" ?x) with x. cbn [String.length Nat.add].
    by rewrite split_on_go_S, strip_delimiter, append_empty.
  - cbn [all_chars] in Hp. apply andb_prop in Hp as [Hc Hp].
    change (String.append (String c pre) ?x) with (String c (String.append pre x)).
    cbn [String.length Nat.add].
    rewrite (split_on_go_S (S (String.length pre + fuel))).
    replace (Text.strip_prefix Text.list_delimiter
               (String c (String.append pre (String.append Text.list_delimiter rest))))
      with (@None string).
    2:{ rewrite delimiter_chars. cbn [Text.strip_prefix].
        unfold not_space in Hc. apply negb_true_iff in Hc. by rewrite Hc. }
    rewrite IH by exact Hp. by rewrite append_snoc.
Qed.

Lemma list_line_split name :
  occurs Text.list_delimiter name = false ->
  Text.split_on Text.list_delimiter
    (String.append "(\HasNoChildren)" (String.append Text.list_delimiter name))
  = ["(\HasNoChildren)"; name].
Proof.
  intros Hn. unfold Text.split_on.
  rewrite !length_append.
  replace (S (String.length "(\HasNoChildren)" +
            (String.length Text.list_delimiter + String.length name)))
    with (S (String.length "(\HasNoChildren)" + (5 + String.length name)))
    by reflexivity.
  rewrite split_on_go_prefix by reflexivity.
  by rewrite split_on_go_whole.
Qed.

Lemma folder_lines_entries names buffer w :
  Forall (fun name => occurs Text.list_delimiter name = false) names ->
  folder_lines (list_line <$> names) buffer w
  = (Ret (String.append buffer (folder_entries names)), w).
Proof.
  intros Hn. revert buffer. induction Hn as [|name names Hname _ IH]; intros buffer.
  - cbn [fmap list_fmap folder_lines folder_entries foldr]. by rewrite append_empty.
  - cbn [fmap list_fmap]. unfold list_line at 1.
    rewrite (folder_lines_step _ _ _ _ _ _ _ (list_line_split name Hname)).
    change (list_fmap string Item list_line names) with (list_line <$> names).
    rewrite IH. cbn [folder_entries foldr]. unfold folder_entry.
    by rewrite !append_assoc.
Qed.

(** X19. At DEBUG the listing shows every folder: on a session that is
    logged in, with a server that answers, has folders and has no folder
    with [ "/" ] in its name, the listing sends one LIST command and logs
    one DEBUG record, the title followed by one line per folder, the
    attributes and the name around [ = ]; nothing else changes. *)
Theorem debug_listing_shows_every_folder (p : Who) (title : string) (w : World)
    (lg : Logger) (m : IMAP4) :
  logger w = Some lg -> (level lg <= DEBUG)%Z ->
  mailbox p w = Some m -> allowed LIST (state m) = true ->
  sv_up (host p w) = true -> sv_faults (host p w) = [] ->
  sv_boxes (host p w) <> ∅ ->
  (forall name, is_Some (sv_boxes (host p w) !! name) ->
                occurs Text.list_delimiter name = false) ->
  debug_folders p title w =
    (Ret tt,
     set_logger
       (Some (handle lg
                (record DEBUG
                   (String.append title
                      (folder_entries (map_to_list (sv_boxes (host p w))).*1)) [])))
       (add_event (event p LIST (Answered OK)) w)).
Proof.
  intros Hlg Hlvl Hm Hst Hup Hf Hbox Hall.
  set (names := (map_to_list (sv_boxes (host p w))).*1).
  assert (Hne : names <> []).
  { intros E. apply fmap_nil_inv in E. by apply map_to_list_empty_iff in E. }
  assert (Hnames : Forall (fun name => occurs Text.list_delimiter name = false) names).
  { apply Forall_forall. intros name Hin.
    apply list_elem_of_fmap in Hin as ([k v] & -> & Hin).
    apply elem_of_map_to_list in Hin. apply Hall. by exists v. }
  set (w1 := add_event (event p LIST (Answered OK)) w).
  assert (He : exchange p LIST w = (Ret (reply OK "LIST completed" (list_line <$> names)), w1)).
  { unfold exchange, next_fault. cbv zeta. rewrite Hup, Hf. cbn [serve r_typ reply].
    by rewrite set_host_id. }
  assert (Hl : imap_list p w = (Ret (OK, list_line <$> names), w1)).
  { unfold imap_list, simple_command.
    erewrite bind_ret_eq; [|erewrite bind_ret_eq; [|unfold the_mailbox; by rewrite Hm]].
    2:{ rewrite Hst. rewrite (bind_ret_eq _ _ _ _ _ He). reflexivity. }
    unfold ret, untagged_response. cbn [r_typ r_data reply].
    destruct names as [|n names']; [by destruct Hne|reflexivity]. }
  unfold debug_folders.
  erewrite bind_ret_eq; [|unfold isEnabledFor; by rewrite Hlg].
  replace (level lg <=? DEBUG)%Z with true by (symmetry; by apply Z.leb_le).
  rewrite (bind_ret_eq _ _ _ _ _ Hl).
  rewrite (bind_ret_eq _ _ _ _ _ (folder_lines_entries names title w1 Hnames)).
  unfold log. change (logger w1) with (logger w). rewrite Hlg.
  replace (level lg <=? DEBUG)%Z with true by (symmetry; by apply Z.leb_le).
  reflexivity.
Qed.

Lemma debug_listing_shows_every_folder_witness :
  logger demo_logged_in = Some {| level := DEBUG; records := [] |} /\
  (level {| level := DEBUG; records := [] |} <= DEBUG)%Z /\
  mailbox Source demo_logged_in = Some {| state := St_AUTH |} /\
  allowed LIST (state {| state := St_AUTH |}) = true /\
  sv_up (host Source demo_logged_in) = true /\
  sv_faults (host Source demo_logged_in) = [] /\
  sv_boxes (host Source demo_logged_in) <> ∅ /\
  (forall name, is_Some (sv_boxes (host Source demo_logged_in) !! name) ->
                occurs Text.list_delimiter name = false) /\
  debug_folders Source "Available folders on source:" demo_logged_in =
    (Ret tt,
     set_logger
       (Some (handle {| level := DEBUG; records := [] |}
                (record DEBUG
                   (String.append "Available folders on source:"
                      (folder_entries (map_to_list (sv_boxes (host Source demo_logged_in))).*1)) [])))
       (add_event (event Source LIST (Answered OK)) demo_logged_in)).
Proof.
  assert (H1 : logger demo_logged_in = Some {| level := DEBUG; records := [] |}) by reflexivity.
  assert (H2 : (level {| level := DEBUG; records := [] |} <= DEBUG)%Z) by (cbn; lia).
  assert (H3 : mailbox Source demo_logged_in = Some {| state := St_AUTH |}) by reflexivity.
  assert (H4 : allowed LIST (state {| state := St_AUTH |}) = true) by reflexivity.
  assert (H5 : sv_up (host Source demo_logged_in) = true) by reflexivity.
  assert (H6 : sv_faults (host Source demo_logged_in) = []) by reflexivity.
  assert (H7 : sv_boxes (host Source demo_logged_in) <> ∅).
  { change (sv_boxes (host Source demo_logged_in)) with demo_source_boxes.
    unfold demo_source_boxes. apply insert_non_empty. }
  assert (H8 : forall name, is_Some (sv_boxes (host Source demo_logged_in) !! name) ->
                            occurs Text.list_delimiter name = false).
  { change (sv_boxes (host Source demo_logged_in)) with demo_source_boxes.
    unfold demo_source_boxes. intros name [msgs Hn].
    apply lookup_insert_Some in Hn as [[<- _]|[_ Hn]]; [reflexivity|].
    apply lookup_insert_Some in Hn as [[<- _]|[_ Hn]]; [reflexivity|].
    by rewrite lookup_empty in Hn. }
  refine (conj H1 (conj H2 (conj H3 (conj H4 (conj H5 (conj H6 (conj H7 (conj H8 _)))))))).
  exact (debug_listing_shows_every_folder Source "Available folders on source:"
           demo_logged_in _ _ H1 H2 H3 H4 H5 H6 H7 H8).
Defined.

(** X20. The status of SEARCH is not looked at: when the server answers
    NO, the script takes the words of the text of the answer for message
    identifiers, runs the loop on them and reports. *)
Theorem search_status_is_not_checked (w : World) (m : IMAP4) (text : string)
    (fs : list Fault) :
  mailbox Source w = Some m -> state m = St_SELECTED ->
  sv_up (source_host w) = true -> sv_faults (source_host w) = FNo text :: fs ->
  transfer w =
    (transfer_loop (Text.split text) ;; report)
      (set_count 0
         (add_event (event Source (SEARCH "ALL") (Answered NO))
            (set_host Source (with_faults fs (source_host w)) w))).
Proof.
  intros Hm Hst Hup Hf.
  set (w1 := add_event (event Source (SEARCH "ALL") (Answered NO))
               (set_host Source (with_faults fs (source_host w)) w)).
  assert (He : exchange Source (SEARCH "ALL") w = (Ret (reply NO text []), w1)).
  { unfold exchange, next_fault. cbv zeta. cbn [host]. rewrite Hup, Hf. reflexivity. }
  assert (Hc : simple_command Source (SEARCH "ALL") w = (Ret (reply NO text []), w1)).
  { unfold simple_command.
    erewrite bind_ret_eq; [|unfold the_mailbox; cbn [mailbox]; cbn [mailbox] in Hm;
                            by rewrite Hm].
    rewrite Hst. cbn [allowed]. rewrite (bind_ret_eq _ _ _ _ _ He). reflexivity. }
  assert (Hs : search Source "ALL" w = (Ret (NO, [IBytes text]), w1)).
  { unfold search. rewrite (bind_ret_eq _ _ _ _ _ Hc). reflexivity. }
  unfold transfer. rewrite (bind_ret_eq _ _ _ _ _ Hs). reflexivity.
Qed.

Lemma search_status_is_not_checked_witness :
  mailbox Source (demo_selected [FNo "[UNAVAILABLE] try 2 later"])
    = Some {| state := St_SELECTED |} /\
  state {| state := St_SELECTED |} = St_SELECTED /\
  sv_up (source_host (demo_selected [FNo "[UNAVAILABLE] try 2 later"])) = true /\
  sv_faults (source_host (demo_selected [FNo "[UNAVAILABLE] try 2 later"]))
    = FNo "[UNAVAILABLE] try 2 later" :: [] /\
  transfer (demo_selected [FNo "[UNAVAILABLE] try 2 later"]) =
    (transfer_loop (Text.split "[UNAVAILABLE] try 2 later") ;; report)
      (set_count 0
         (add_event (event Source (SEARCH "ALL") (Answered NO))
            (set_host Source
               (with_faults [] (source_host (demo_selected [FNo "[UNAVAILABLE] try 2 later"])))
               (demo_selected [FNo "[UNAVAILABLE] try 2 later"])))).
Proof.
  refine (conj eq_refl (conj eq_refl (conj eq_refl (conj eq_refl _)))).
  exact (search_status_is_not_checked (demo_selected [FNo "[UNAVAILABLE] try 2 later"])
           {| state := St_SELECTED |} "[UNAVAILABLE] try 2 later" []
           eq_refl eq_refl eq_refl eq_refl).
Defined.

(** A refusal whose text starts with a number: the message of that number
    is moved before the next word is refused as a message set. *)
Example refused_search_moves_a_message :
  let w' := (transfer (demo_selected [FNo "2 messages are locked"])).2 in
  (transfer (demo_selected [FNo "2 messages are locked"])).1
    = Raise (IMAP4_error "command error: BAD") /\
  count w' = 1%Z /\
  length <$> sv_boxes (target_host w') !! "Archive" = Some 1%nat /\
  (fun e => (ev_who e, ev_out e)) <$> wire w' =
    [(Source, Answered NO); (Source, Answered OK); (Target, Answered OK);
     (Source, Answered OK); (Source, Answered BAD)].
Proof. vm_compute. repeat split. Qed.
